(** * Obsidian_to_Anki, LLM card generation: a shallow embedding

    The TypeScript sources under [src/llm] are embedded as executable Rocq
    definitions, module by module:

    - [JS]: the fragment of JavaScript values the code relies on (strings as
      sequences of UTF-16 code units, arrays as lists, [any]-typed JSON data,
      exceptions);
    - [Chunker]: [chunking/document-chunker.ts];
    - [Provider]: [providers/openai-compatible-provider.ts];
    - [Router]: the [LLMRouter] class;
    - [Prompt]: [prompt-manager.ts];
    - [Generator]: [generation/multi-pass-generator.ts].

    Numbers that the code only counts with (lengths, indices, token counts,
    HTTP status codes) are [nat] or [Z].  Scores, which the code computes in
    double precision, are exact rationals ([Q]): every constant of the code is
    kept, rounding is not modelled.  *)

From Stdlib Require Import List ZArith NArith QArith Qminmax Lia Lqa String Ascii Bool
  Sorted.
From stdpp Require Import base option list gmap.
Import ListNotations.

Local Open Scope nat_scope.

(** ** JavaScript strings *)

Module JS.

(** A string is its sequence of UTF-16 code units, which is what [length],
    [split], [slice] and the regular expressions of the code (none has the
    [u] flag) work on. *)
Definition char := N.
Definition str := list char.

(** A literal of this file: its characters are ASCII, so bytes and code
    units agree. *)
Definition lit (s : string) : str :=
  List.map (fun a => N.of_nat (nat_of_ascii a)) (list_ascii_of_string s).

Definition NL : char := 10%N.

Definition char_in (c : char) (cs : list char) : bool :=
  existsb (N.eqb c) cs.

Fixpoint str_eqb (a b : str) : bool :=
  match a, b with
  | [], [] => true
  | x :: a', y :: b' => N.eqb x y && str_eqb a' b'
  | _, _ => false
  end.

(** ECMAScript LineTerminator: LF, CR, LS, PS.  The dot of a regular
    expression matches everything else. *)
Definition isLineTerminator (c : char) : bool :=
  char_in c [10; 13; 8232; 8233]%N.

(** ECMAScript WhiteSpace and LineTerminator: the class [\s], and what
    [trim] strips. *)
Definition isSpace (c : char) : bool :=
  char_in c [9; 10; 11; 12; 13; 32; 160; 5760; 8232; 8233; 8239; 8287;
             12288; 65279]%N
  || (N.leb 8192 c && N.leb c 8202).

Fixpoint trimStart (s : str) : str :=
  match s with
  | c :: s' => if isSpace c then trimStart s' else s
  | [] => []
  end.

Definition trimEnd (s : str) : str := rev (trimStart (rev s)).

Definition trim (s : str) : str := trimEnd (trimStart s).

(** [s.split('\n')]: always at least one piece. *)
Fixpoint split_nl (s : str) : list str :=
  match s with
  | [] => [[]]
  | c :: s' =>
      if N.eqb c NL then [] :: split_nl s'
      else match split_nl s' with
           | l :: ls => (c :: l) :: ls
           | [] => [[c]]
           end
  end.

(** [pieces.join(sep)] *)
Fixpoint join (sep : str) (pieces : list str) : str :=
  match pieces with
  | [] => []
  | [p] => p
  | p :: rest => p ++ sep ++ join sep rest
  end.

Definition join_nl (pieces : list str) : str := join [NL] pieces.

(** [s.startsWith(p)] on code units, with the comparison of code units as a
    parameter so that the [i] flag can reuse it. *)
Fixpoint prefix_by (eqc : char -> char -> bool) (p s : str) : bool :=
  match p, s with
  | [], _ => true
  | x :: p', y :: s' => eqc x y && prefix_by eqc p' s'
  | _ :: _, [] => false
  end.

Fixpoint includes_by (eqc : char -> char -> bool) (p s : str) : bool :=
  prefix_by eqc p s ||
  match s with
  | [] => false
  | _ :: s' => includes_by eqc p s'
  end.

(** [s.includes(p)] *)
Definition includes (p s : str) : bool := includes_by N.eqb p s.

(** Canonicalize of a regular expression with the [i] flag and without the
    [u] flag maps a code unit to its upper case, except that a code unit
    from 128 on never folds to one below 128: on the ASCII letters and Hangul
    syllables of the patterns of this code it is the ASCII folding. *)
Definition asciiUpper (c : char) : char :=
  if N.leb 97 c && N.leb c 122 then (c - 32)%N else c.

Definition eq_ci (a b : char) : bool := N.eqb (asciiUpper a) (asciiUpper b).

(** [toLowerCase], as far as [includes] of an ASCII or Hangul needle can
    tell: besides A..Z only the Kelvin sign (to [k]) and the dotted capital I
    (to [i] followed by a combining dot) have a lower case with an ASCII
    letter in it; every other code unit stays outside the needles' alphabet
    whatever its lower case is, and is left as it is. *)
Definition lowerUnit (c : char) : str :=
  if N.leb 65 c && N.leb c 90 then [(c + 32)%N]
  else if N.eqb c 8490 then [107%N]
  else if N.eqb c 304 then [105; 775]%N
  else [c].

Definition toLowerCase (s : str) : str := List.concat (List.map lowerUnit s).

(** Decimal rendering of a number inside a template literal. *)
Fixpoint digits_of_uint (d : Decimal.uint) : str :=
  match d with
  | Decimal.Nil => []
  | Decimal.D0 d' => 48%N :: digits_of_uint d'
  | Decimal.D1 d' => 49%N :: digits_of_uint d'
  | Decimal.D2 d' => 50%N :: digits_of_uint d'
  | Decimal.D3 d' => 51%N :: digits_of_uint d'
  | Decimal.D4 d' => 52%N :: digits_of_uint d'
  | Decimal.D5 d' => 53%N :: digits_of_uint d'
  | Decimal.D6 d' => 54%N :: digits_of_uint d'
  | Decimal.D7 d' => 55%N :: digits_of_uint d'
  | Decimal.D8 d' => 56%N :: digits_of_uint d'
  | Decimal.D9 d' => 57%N :: digits_of_uint d'
  end.

Definition nat_to_str (n : nat) : str := digits_of_uint (Nat.to_uint n).

Definition Z_to_str (z : Z) : str :=
  match z with
  | Zneg p => 45%N :: nat_to_str (Pos.to_nat p)
  | _ => nat_to_str (Z.to_nat z)
  end.

(** ['  '.repeat(n)] and the like, for a count that is not negative. *)
Fixpoint repeat_str (s : str) (n : nat) : str :=
  match n with
  | 0 => []
  | S n' => s ++ repeat_str s n'
  end.

End JS.

(** ** chunking/document-chunker.ts *)

Module Chunker.
Import JS.

(** [DocumentChunk], with [metadata] flattened.  Two fields are left out:
    [keywords], which no operation of the code reads, and the optional
    [parent], which the chunker never sets. *)
Record DocumentChunk := mkChunk {
  id : str;
  content : str;
  index : nat;
  level : nat;
  heading : str;
  tokenCount : nat;
  importance : Q;
  startLine : Z;
  endLine : Z
}.

Record ChunkingOptions := mkOptions {
  maxTokens : option nat;
  minTokens : option nat
}.

Definition DEFAULT_MAX_TOKENS : nat := 1500.
Definition DEFAULT_MIN_TOKENS : nat := 200.

(** [x || d] on an optional number: absent and zero are both falsy. *)
Definition orDefault (x : option nat) (d : nat) : nat :=
  match x with
  | Some (S n) => S n
  | _ => d
  end.

(** [Math.ceil(text.length / 4)] *)
Definition estimateTokens (text : str) : nat := (length text + 3) / 4.

(** *** The heading pattern [/^(#{1,6})\s+(.+)$/] *)

Fixpoint countHashes (s : str) : nat :=
  match s with
  | c :: s' => if N.eqb c 35 then S (countHashes s') else 0
  | [] => 0
  end.

Fixpoint spaceRun (s : str) : nat :=
  match s with
  | c :: s' => if isSpace c then S (spaceRun s') else 0
  | [] => 0
  end.

Definition noLineTerminator (s : str) : bool :=
  forallb (fun c => negb (isLineTerminator c)) s.

(** [\s+] is greedy and gives code units back one at a time, down to one,
    until [(.+)$] matches what is left: a non-empty rest without line
    terminator. *)
Fixpoint headingTitle (rest : str) (j : nat) : option str :=
  match j with
  | 0 => None
  | S j' =>
      match skipn j rest with
      | [] => headingTitle rest j'
      | t => if noLineTerminator t then Some t else headingTitle rest j'
      end
  end.

(** The match, as the pair of [headingMatch[1].length] and
    [headingMatch[2]].  A [#] is no whitespace, so group 1 is the whole run
    of leading hashes, which has to be 1 to 6 long. *)
Definition headingMatch (line : str) : option (nat * str) :=
  let k := countHashes line in
  if (1 <=? k) && (k <=? 6) then
    let rest := skipn k line in
    match headingTitle rest (spaceRun rest) with
    | Some t => Some (k, t)
    | None => None
    end
  else None.

(** *** findSplitPoint *)

(** [for (let i = ...; i > lines.length / 2; i--) if (p(lines[i])) return i],
    entered at [i]. *)
Fixpoint scanDown (p : str -> bool) (lines : list str) (i : nat) : option nat :=
  match i with
  | 0 => None
  | S i' =>
      if length lines <? 2 * i then
        if p (nth i lines []) then Some i else scanDown p lines i'
      else None
  end.

Definition isBlank (line : str) : bool :=
  match trim line with [] => true | _ => false end.

(** [line.match(/[.!?]\s*$/)] *)
Definition endsSentence (line : str) : bool :=
  match trimStart (rev line) with
  | c :: _ => char_in c [46; 33; 63]%N
  | [] => false
  end.

Definition findSplitPoint (lines : list str) : nat :=
  match scanDown isBlank lines (length lines - 1) with
  | Some i => i
  | None =>
      match scanDown endsSentence lines (length lines - 1) with
      | Some i => i + 1
      | None => length lines * 3 / 4
      end
  end.

(** *** calculateImportance *)

(** [/is defined as|refers to|means|.../i] with the two Hangul alternatives
    given by their code units. *)
Definition definitionPatterns : list str :=
  [lit "is defined as"; lit "refers to"; lit "means";
   [51060; 46976]%N; [51032; 48120; 45716]%N].

Definition hasDefinition (text : str) : bool :=
  existsb (fun p => includes_by eq_ci p text) definitionPatterns.

(** [/^[\s]*[-*+]\s/m]: [atStart] says that the current position is
    reached from a line start through whitespace only. *)
Fixpoint listMarkerFrom (atStart : bool) (s : str) : bool :=
  match s with
  | [] => false
  | c :: s' =>
      (atStart && char_in c [45; 42; 43]%N &&
       match s' with d :: _ => isSpace d | [] => false end)
      || listMarkerFrom (isLineTerminator c || (atStart && isSpace c)) s'
  end.

Definition hasListMarker (text : str) : bool := listMarkerFrom true text.

Definition backticks : str := [96; 96; 96]%N.

Definition hasCodeFence (text : str) : bool := includes backticks text.

(** The lazy [.*?] after an opening pair: the nearest closing pair on the
    same line; the result is what follows it. *)
Fixpoint lazyClose (d : char) (s : str) : option str :=
  match s with
  | c1 :: s' =>
      match s' with
      | c2 :: s'' =>
          if N.eqb c1 d && N.eqb c2 d then Some s''
          else if isLineTerminator c1 then None
          else lazyClose d s'
      | [] => None
      end
  | [] => None
  end.

(** The number of matches of [/\*\*.*?\*\*|__.*?__|==.*?==/g], scanning
    from the left; [fuel] bounds the scan by the length of the text. *)
Fixpoint countEmphasis (fuel : nat) (s : str) : nat :=
  match fuel with
  | 0 => 0
  | S fuel' =>
      match s with
      | c1 :: ((c2 :: rest) as s') =>
          if N.eqb c1 c2 && char_in c1 [42; 95; 61]%N then
            match lazyClose c1 rest with
            | Some after => S (countEmphasis fuel' after)
            | None => countEmphasis fuel' s'
            end
          else countEmphasis fuel' s'
      | _ => 0
      end
  end.

Definition emphasisCount (text : str) : nat := countEmphasis (length text) text.

Definition importantKeywords : list str :=
  [lit "important"; lit "key"; lit "crucial"; lit "essential";
   lit "fundamental";
   [51473; 50836]%N; [54645; 49900]%N; [54596; 49688]%N; [44592; 48376]%N].

(** [for (const keyword of importantKeywords) if (...) score += 0.05] *)
Definition addKeywordScores (text : str) (score : Q) : Q :=
  fold_left
    (fun sc k => if includes k (toLowerCase text) then (sc + (5 # 100))%Q else sc)
    importantKeywords score.

Definition calculateImportance (text : str) (lvl : nat) : Q :=
  (let score := 5 # 10 in
   let score := score + inject_Z (6 - Z.of_nat lvl) * (5 # 100) in
   let score := if hasDefinition text then score + (15 # 100) else score in
   let score := if hasListMarker text then score + (1 # 10) else score in
   let score := if hasCodeFence text then score + (1 # 10) else score in
   let score :=
     score + Qmin (inject_Z (Z.of_nat (emphasisCount text)) * (2 # 100)) (1 # 10) in
   let score := addKeywordScores text score in
   Qmin score 1)%Q.

(** *** chunkDocument *)

(** Where a chunk was pushed: at a heading line, by the size split, or by
    the flush after the loop.  The tag is not a field of the code's chunk; it
    only names the [chunks.push] call the chunk comes from. *)
Inductive Origin := AtHeading | AtSplit | AtEnd.

(** The variables of the loop. *)
Record Scan := mkScan {
  chunks : list (Origin * DocumentChunk);
  currentChunk : list str;
  currentHeading : str;
  currentLevel : nat;
  chunkIndex : nat;
  startLineOf : Z
}.

Definition makeChunk (s : Scan) (text : str) (last : Z) : DocumentChunk :=
  {| id := lit "chunk-" ++ nat_to_str (chunkIndex s);
     content := text;
     index := chunkIndex s;
     level := currentLevel s;
     heading := currentHeading s;
     tokenCount := estimateTokens text;
     importance := calculateImportance text (currentLevel s);
     startLine := startLineOf s;
     endLine := last |}.

Definition push (o : Origin) (c : DocumentChunk) (s : Scan) : Scan :=
  {| chunks := chunks s ++ [(o, c)];
     currentChunk := currentChunk s;
     currentHeading := currentHeading s;
     currentLevel := currentLevel s;
     chunkIndex := S (chunkIndex s);
     startLineOf := startLineOf s |}.

(** The branch of a heading line: flush or drop the buffer, then start the
    next one with the heading. *)
Definition onHeading (minT : nat) (i : nat) (line : str) (hashes : nat)
    (title : str) (s : Scan) : Scan :=
  let s1 :=
    match currentChunk s with
    | [] => s
    | _ =>
        let chunkContent := join_nl (currentChunk s) in
        let s' :=
          if minT <=? estimateTokens chunkContent
          then push AtHeading (makeChunk s chunkContent (Z.of_nat i - 1)) s
          else s in
        {| chunks := chunks s';
           currentChunk := [];
           currentHeading := currentHeading s';
           currentLevel := currentLevel s';
           chunkIndex := chunkIndex s';
           startLineOf := Z.of_nat i |}
    end in
  {| chunks := chunks s1;
     currentChunk := currentChunk s1 ++ [line];
     currentHeading := trim title;
     currentLevel := hashes;
     chunkIndex := chunkIndex s1;
     startLineOf := startLineOf s1 |}.

(** The branch of any other line: append, and split once the buffer has
    reached [maxTokens] and [findSplitPoint] is positive. *)
Definition onLine (maxT : nat) (line : str) (s : Scan) : Scan :=
  let buf := currentChunk s ++ [line] in
  let s1 :=
    {| chunks := chunks s;
       currentChunk := buf;
       currentHeading := currentHeading s;
       currentLevel := currentLevel s;
       chunkIndex := chunkIndex s;
       startLineOf := startLineOf s |} in
  if maxT <=? estimateTokens (join_nl buf) then
    let splitPoint := findSplitPoint buf in
    if 0 <? splitPoint then
      let beforeSplit := join_nl (firstn splitPoint buf) in
      let afterSplit := skipn splitPoint buf in
      let s2 :=
        push AtSplit
          (makeChunk s1 beforeSplit (startLineOf s1 + Z.of_nat splitPoint - 1))
          s1 in
      {| chunks := chunks s2;
         currentChunk := afterSplit;
         currentHeading := currentHeading s2;
         currentLevel := currentLevel s2;
         chunkIndex := chunkIndex s2;
         startLineOf := startLineOf s1 + Z.of_nat splitPoint |}
    else s1
  else s1.

Definition body (maxT minT : nat) (i : nat) (line : str) (s : Scan) : Scan :=
  match headingMatch line with
  | Some (hashes, title) => onHeading minT i line hashes title s
  | None => onLine maxT line s
  end.

(** [for (let i = 0; i < lines.length; i++)], entered at [i] with the lines
    from [i] on. *)
Fixpoint scan (maxT minT : nat) (i : nat) (lines : list str) (s : Scan) : Scan :=
  match lines with
  | [] => s
  | line :: rest => scan maxT minT (S i) rest (body maxT minT i line s)
  end.

Definition initial : Scan :=
  {| chunks := [];
     currentChunk := [];
     currentHeading := lit "Introduction";
     currentLevel := 0;
     chunkIndex := 0;
     startLineOf := 0 |}.

(** The flush after the loop; [tokenCount >= minTokens / 2] is a comparison
    of an integer with a half-integer, that is [minTokens <= 2 * tokenCount]. *)
Definition finish (minT : nat) (nLines : nat) (s : Scan) : Scan :=
  match currentChunk s with
  | [] => s
  | _ =>
      let chunkContent := join_nl (currentChunk s) in
      if minT <=? 2 * estimateTokens chunkContent
      then push AtEnd (makeChunk s chunkContent (Z.of_nat nLines - 1)) s
      else s
  end.

Definition chunkLines (maxT minT : nat) (lines : list str) : Scan :=
  finish minT (length lines) (scan maxT minT 0 lines initial).

Definition chunkDocumentTagged (text : str) (options : option ChunkingOptions)
    : list (Origin * DocumentChunk) :=
  let maxT := orDefault (options ≫= maxTokens) DEFAULT_MAX_TOKENS in
  let minT := orDefault (options ≫= minTokens) DEFAULT_MIN_TOKENS in
  chunks (chunkLines maxT minT (split_nl text)).

Definition chunkDocument (text : str) (options : option ChunkingOptions)
    : list DocumentChunk :=
  List.map snd (chunkDocumentTagged text options).

End Chunker.

(** ** JavaScript values, exceptions and effects *)

Module Value.
Import JS.

(** What [JSON.parse] and [response.json] give, typed [any] in the code.
    Objects keep their properties as an association list; numbers are exact
    rationals. *)
#[warnings="-register-all"]
Inductive jsval :=
| JUndefined
| JNull
| JBool (b : bool)
| JNum (q : Q)
| JStr (s : str)
| JArr (items : list jsval)
| JObj (fields : list (str * jsval)).

(** ToBoolean *)
Definition truthy (v : jsval) : bool :=
  match v with
  | JUndefined | JNull => false
  | JBool b => b
  | JNum q => negb (Qeq_bool q 0)
  | JStr s => match s with [] => false | _ => true end
  | JArr _ | JObj _ => true
  end.

(** [v || d] *)
Definition orElse (v d : jsval) : jsval := if truthy v then v else d.

Definition isNullish (v : jsval) : bool :=
  match v with
  | JUndefined | JNull => true
  | _ => false
  end.

Fixpoint lookupField (k : str) (fields : list (str * jsval)) : option jsval :=
  match fields with
  | [] => None
  | (k', v) :: rest => if str_eqb k k' then Some v else lookupField k rest
  end.

(** The exceptions of the code: an [LLMError], another [Error] object, or
    the [null] that [throw lastError] throws when nothing was recorded. *)
Inductive ErrorName := Error_ | TypeError | RangeError | SyntaxError.

Record JsError := mkJsError {
  errName : ErrorName;
  errMessage : str
}.

Inductive LLMErrorType :=
| PROVIDER_UNAVAILABLE
| API_ERROR
| TIMEOUT
| PARSE_ERROR
| RATE_LIMIT
| INVALID_CONFIG
| NETWORK_ERROR
| AUTHENTICATION_ERROR.

Record LLMError := mkLLMError {
  message : str;
  type : LLMErrorType;
  retryable : bool;
  provider : option str;
  originalError : option JsError
}.

Inductive Thrown :=
| ThrownLLM (e : LLMError)
| ThrownError (e : JsError)
| ThrownNull.

Inductive Result (A : Type) :=
| Ok (a : A)
| Throw (t : Thrown).
Arguments Ok {A} a.
Arguments Throw {A} t.

Definition bindR {A B} (r : Result A) (k : A -> Result B) : Result B :=
  match r with
  | Ok a => k a
  | Throw t => Throw t
  end.

(** [try { r } catch (error) { h(error) }] *)
Definition tryCatch {A} (r : Result A) (h : Thrown -> Result A) : Result A :=
  match r with
  | Ok a => Ok a
  | Throw t => h t
  end.

Definition throwError {A} (n : ErrorName) (msg : str) : Result A :=
  Throw (ThrownError (mkJsError n msg)).

(** [error.message] of a caught value; reading it off [null] is itself a
    [TypeError]. *)
Definition messageOf (t : Thrown) : Result str :=
  match t with
  | ThrownLLM e => Ok (message e)
  | ThrownError e => Ok (errMessage e)
  | ThrownNull =>
      throwError TypeError (lit "Cannot read properties of null (reading 'message')")
  end.

Definition asJsError (t : Thrown) : option JsError :=
  match t with
  | ThrownError e => Some e
  | _ => None
  end.

Definition nullishName (v : jsval) : str :=
  match v with
  | JNull => lit "null"
  | _ => lit "undefined"
  end.

(** [v.k] for a property name [k] that no prototype defines: a
    [TypeError] on [undefined] and [null], the own property of an object,
    [undefined] otherwise. *)
Definition get (v : jsval) (k : str) : Result jsval :=
  match v with
  | JUndefined | JNull =>
      throwError TypeError
        (lit "Cannot read properties of " ++ nullishName v ++
         lit " (reading '" ++ k ++ lit "')")
  | JObj fields =>
      Ok (match lookupField k fields with Some x => x | None => JUndefined end)
  | _ => Ok JUndefined
  end.

(** [v?.k] *)
Definition getOpt (v : jsval) (k : str) : Result jsval :=
  if isNullish v then Ok JUndefined else get v k.

(** [v[0]] *)
Definition get0 (v : jsval) : Result jsval :=
  match v with
  | JUndefined | JNull =>
      throwError TypeError
        (lit "Cannot read properties of " ++ nullishName v ++ lit " (reading '0')")
  | JArr items => Ok (match items with x :: _ => x | [] => JUndefined end)
  | JStr s => Ok (match s with c :: _ => JStr [c] | [] => JUndefined end)
  | JObj fields =>
      Ok (match lookupField (lit "0") fields with Some x => x | None => JUndefined end)
  | _ => Ok JUndefined
  end.

End Value.

(** ** JSON.parse *)

Module Json.
Import JS Value.

Definition isJsonSpace (c : char) : bool := char_in c [32; 9; 10; 13]%N.

Fixpoint skipSpace (s : str) : str :=
  match s with
  | c :: s' => if isJsonSpace c then skipSpace s' else s
  | [] => []
  end.

Definition isDigit (c : char) : bool := N.leb 48 c && N.leb c 57.

Definition hexValue (c : char) : option N :=
  if isDigit c then Some (c - 48)%N
  else if N.leb 97 c && N.leb c 102 then Some (c - 87)%N
  else if N.leb 65 c && N.leb c 70 then Some (c - 55)%N
  else None.

(** A run of digits: its value on top of [acc], how many there were, and
    what follows. *)
Fixpoint readDigits (s : str) (acc : Z) (count : nat) : Z * nat * str :=
  match s with
  | c :: s' =>
      if isDigit c
      then readDigits s' (acc * 10 + Z.of_N (c - 48))%Z (S count)
      else (acc, count, s)
  | [] => (acc, count, [])
  end.

(** [-? int frac? exp?] *)
Definition parseNumber (s : str) : option (Q * str) :=
  let '(negative, s1) :=
    match s with
    | c :: r => if N.eqb c 45 then (true, r) else (false, s)
    | [] => (false, s)
    end in
  match s1 with
  | [] => None
  | c :: r =>
      if negb (isDigit c) then None
      else
        let '(intPart, s2) :=
          if N.eqb c 48 then (0%Z, r)
          else let '(v, _, rest) := readDigits s1 0 0 in (v, rest) in
        let fraction :=
          match s2 with
          | d :: r2 =>
              if N.eqb d 46 then
                let '(v, n, rest) := readDigits r2 intPart 0 in
                match n with 0 => None | _ => Some (v, n, rest) end
              else Some (intPart, 0, s2)
          | [] => Some (intPart, 0, s2)
          end in
        match fraction with
        | None => None
        | Some (mantissa, scale, s3) =>
            let exponent :=
              match s3 with
              | e :: r3 =>
                  if N.eqb e 101 || N.eqb e 69 then
                    let '(minus, r4) :=
                      match r3 with
                      | g :: r' =>
                          if N.eqb g 45 then (true, r')
                          else if N.eqb g 43 then (false, r')
                          else (false, r3)
                      | [] => (false, r3)
                      end in
                    let '(v, n, rest) := readDigits r4 0 0 in
                    match n with
                    | 0 => None
                    | _ => Some (if minus then (- v)%Z else v, rest)
                    end
                  else Some (0%Z, s3)
              | [] => Some (0%Z, s3)
              end in
            match exponent with
            | None => None
            | Some (ex, s4) =>
                let m := if negative then (- mantissa)%Z else mantissa in
                let e10 := (ex - Z.of_nat scale)%Z in
                let q :=
                  if (0 <=? e10)%Z then inject_Z (m * 10 ^ e10)
                  else Qmake m (Z.to_pos (10 ^ (- e10))) in
                Some (q, s4)
            end
        end
  end.

(** The inside of a string literal.  [pending] is [None] between
    characters, [Some (k, v)] after a backslash: [k = 0] right after it,
    otherwise [k] hexadecimal digits of a [\u] escape are still to come on
    top of the value [v]. *)
Fixpoint parseChars (s : str) (pending : option (nat * N)) (acc : str)
    : option (str * str) :=
  match s with
  | [] => None
  | c :: s' =>
      match pending with
      | None =>
          if N.eqb c 34 then Some (rev acc, s')
          else if N.eqb c 92 then parseChars s' (Some (0, 0%N)) acc
          else if N.ltb c 32 then None
          else parseChars s' None (c :: acc)
      | Some (0, _) =>
          if char_in c [34; 92; 47]%N then parseChars s' None (c :: acc)
          else if N.eqb c 98 then parseChars s' None (8%N :: acc)
          else if N.eqb c 102 then parseChars s' None (12%N :: acc)
          else if N.eqb c 110 then parseChars s' None (10%N :: acc)
          else if N.eqb c 114 then parseChars s' None (13%N :: acc)
          else if N.eqb c 116 then parseChars s' None (9%N :: acc)
          else if N.eqb c 117 then parseChars s' (Some (4, 0%N)) acc
          else None
      | Some (S k, v) =>
          match hexValue c with
          | None => None
          | Some h =>
              let v' := (v * 16 + h)%N in
              match k with
              | 0 => parseChars s' None (v' :: acc)
              | _ => parseChars s' (Some (k, v')) acc
              end
          end
      end
  end.

(** Defining a property: a repeated name keeps its place and takes the
    later value. *)
Fixpoint setField (k : str) (v : jsval) (fields : list (str * jsval))
    : list (str * jsval) :=
  match fields with
  | [] => [(k, v)]
  | (k', v') :: rest =>
      if str_eqb k k' then (k', v) :: rest else (k', v') :: setField k v rest
  end.

(** One value, then what follows it.  Every recursive call comes after at
    least one consumed code unit, so a fuel of the length of the text plus
    one is never used up. *)
Fixpoint parseValue (fuel : nat) (s : str) : option (jsval * str) :=
  match fuel with
  | 0 => None
  | S fuel' =>
      match skipSpace s with
      | [] => None
      | c :: rest =>
          if N.eqb c 123 then
            match skipSpace rest with
            | d :: rest' =>
                if N.eqb d 125 then Some (JObj [], rest')
                else parseMember fuel' (d :: rest') []
            | [] => None
            end
          else if N.eqb c 91 then
            match skipSpace rest with
            | d :: rest' =>
                if N.eqb d 93 then Some (JArr [], rest')
                else
                  match parseValue fuel' (d :: rest') with
                  | Some (v, r) => arrayTail fuel' r [v]
                  | None => None
                  end
            | [] => None
            end
          else if N.eqb c 34 then
            match parseChars rest None [] with
            | Some (text, r) => Some (JStr text, r)
            | None => None
            end
          else if prefix_by N.eqb (lit "true") (c :: rest)
          then Some (JBool true, skipn 4 (c :: rest))
          else if prefix_by N.eqb (lit "false") (c :: rest)
          then Some (JBool false, skipn 5 (c :: rest))
          else if prefix_by N.eqb (lit "null") (c :: rest)
          then Some (JNull, skipn 4 (c :: rest))
          else
            match parseNumber (c :: rest) with
            | Some (q, r) => Some (JNum q, r)
            | None => None
            end
      end
  end

(** After an element of an array: a comma and the next element, or the
    closing bracket.  [acc] holds the elements read, last first. *)
with arrayTail (fuel : nat) (s : str) (acc : list jsval) : option (jsval * str) :=
  match fuel with
  | 0 => None
  | S fuel' =>
      match skipSpace s with
      | c :: rest =>
          if N.eqb c 93 then Some (JArr (rev acc), rest)
          else if N.eqb c 44 then
            match parseValue fuel' rest with
            | Some (v, r) => arrayTail fuel' r (v :: acc)
            | None => None
            end
          else None
      | [] => None
      end
  end

(** A member [name : value] of an object, at its opening quote, and the
    members after it. *)
with parseMember (fuel : nat) (s : str) (fields : list (str * jsval))
    : option (jsval * str) :=
  match fuel with
  | 0 => None
  | S fuel' =>
      match s with
      | q :: afterQuote =>
          if N.eqb q 34 then
            match parseChars afterQuote None [] with
            | Some (name, r) =>
                match skipSpace r with
                | colon :: r' =>
                    if N.eqb colon 58 then
                      match parseValue fuel' r' with
                      | Some (v, r'') =>
                          let fields' := setField name v fields in
                          match skipSpace r'' with
                          | e :: r3 =>
                              if N.eqb e 125 then Some (JObj fields', r3)
                              else if N.eqb e 44
                              then parseMember fuel' (skipSpace r3) fields'
                              else None
                          | [] => None
                          end
                      | None => None
                      end
                    else None
                | [] => None
                end
            | None => None
            end
          else None
      | [] => None
      end
  end.

(** [JSON.parse(text)]: one value and nothing but whitespace after it, a
    [SyntaxError] otherwise. *)
Definition JSON_parse (text : str) : Result jsval :=
  match parseValue (S (length text)) text with
  | Some (v, rest) =>
      match skipSpace rest with
      | [] => Ok v
      | _ => throwError SyntaxError (lit "Unexpected non-whitespace character after JSON")
      end
  | None => throwError SyntaxError (lit "Unexpected token in JSON")
  end.

End Json.

(** ** interfaces/llm-provider.interface.ts *)

Module LLM.
Import JS Value.

#[export] Instance result_ret : MRet Result := @Ok.
#[export] Instance result_bind : MBind Result := fun A B k r => bindR r k.

Inductive Role := system | user | assistant.

Module LLMMessage.
Record t := mk { role : Role; content : str }.
End LLMMessage.

Module LLMConfig.
Record t := mk {
  provider : str;
  apiKey : option str;
  endpoint : str;
  model : str;
  temperature : option Q;
  maxTokens : option nat;
  timeout : option nat
}.
End LLMConfig.

Module Usage.
Record t := mk {
  promptTokens : jsval;
  completionTokens : jsval;
  totalTokens : jsval
}.
End Usage.

(** The fields are typed in the interface, but a provider fills them from
    [any]-typed data, so they are kept as that data. *)
Module LLMResponse.
Record t := mk {
  content : jsval;
  usage : Usage.t;
  model : jsval;
  finishReason : jsval
}.
End LLMResponse.

End LLM.

(** ** providers/openai-compatible-provider.ts *)

Module Provider.
Import JS Value LLM.

(** The request handed to [requestUrl]; [body] is the payload before
    [JSON.stringify]. *)
Record Payload := mkPayload {
  model : str;
  messages : list LLMMessage.t;
  temperature : Q;
  max_tokens : nat
}.

Inductive Method := GET | POST.

Record RequestUrlParam := mkRequest {
  url : str;
  method : Method;
  headers : list (str * str);
  body : Payload
}.

Record HttpResponse := mkHttpResponse {
  status : Z;
  text : str;
  json : jsval
}.

(** What one call of [requestUrl] with [throw: false] comes to: a response
    of any status, or a thrown value when no response arrives. *)
Inductive HttpOutcome :=
| Responded (response : HttpResponse)
| Failed (cause : Thrown).

Definition nonEmpty (s : option str) : option str :=
  match s with
  | Some (c :: r) => Some (c :: r)
  | _ => None
  end.

Definition parseResponse (config : LLMConfig.t) (data : jsval)
    : Result LLMResponse.t :=
  tryCatch
    (choices ← get data (lit "choices");
     first ← (if truthy choices then get0 choices else Ok JUndefined);
     msg ← (if truthy first then get first (lit "message") else Ok JUndefined);
     if negb (truthy choices) || negb (truthy first) || negb (truthy msg)
     then throwError Error_ (lit "Invalid response format: missing choices or message")
     else
       content ← get msg (lit "content");
       usage ← get data (lit "usage");
       promptTokens ← getOpt usage (lit "prompt_tokens");
       completionTokens ← getOpt usage (lit "completion_tokens");
       totalTokens ← getOpt usage (lit "total_tokens");
       model ← get data (lit "model");
       finish ← get first (lit "finish_reason");
       Ok {| LLMResponse.content := content;
             LLMResponse.usage :=
               {| Usage.promptTokens := orElse promptTokens (JNum 0);
                  Usage.completionTokens := orElse completionTokens (JNum 0);
                  Usage.totalTokens := orElse totalTokens (JNum 0) |};
             LLMResponse.model := orElse model (JStr (LLMConfig.model config));
             LLMResponse.finishReason := orElse finish (JStr (lit "stop")) |})
    (fun error =>
       m ← messageOf error;
       Throw (ThrownLLM
         {| message := lit "Failed to parse response: " ++ m;
            type := PARSE_ERROR;
            retryable := false;
            provider := Some (LLMConfig.provider config);
            originalError := None |})).

(** The branches on a status other than 200. *)
Definition statusError (config : LLMConfig.t) (response : HttpResponse) : LLMError :=
  let s := status response in
  if (s =? 401)%Z || (s =? 403)%Z then
    {| message := lit "Authentication failed: " ++ Z_to_str s;
       type := AUTHENTICATION_ERROR;
       retryable := false;
       provider := Some (LLMConfig.provider config);
       originalError := None |}
  else if (s =? 429)%Z then
    {| message := lit "Rate limit exceeded";
       type := RATE_LIMIT;
       retryable := true;
       provider := Some (LLMConfig.provider config);
       originalError := None |}
  else if (500 <=? s)%Z then
    {| message := lit "Server error: " ++ Z_to_str s;
       type := API_ERROR;
       retryable := true;
       provider := Some (LLMConfig.provider config);
       originalError := None |}
  else
    {| message := lit "API error: " ++ Z_to_str s ++ lit " - " ++ text response;
       type := API_ERROR;
       retryable := false;
       provider := Some (LLMConfig.provider config);
       originalError := None |}.

(** [generateCompletion] of a provider whose [config] is [None] until
    [initialize] has run; [requestUrl] is the network. *)
Definition generateCompletion (config : option LLMConfig.t)
    (requestUrl : RequestUrlParam -> HttpOutcome)
    (messages : list LLMMessage.t) : Result LLMResponse.t :=
  match config with
  | None =>
      Throw (ThrownLLM
        {| message := lit "Provider not initialized";
           type := INVALID_CONFIG;
           retryable := false;
           provider := None;
           originalError := None |})
  | Some cfg =>
      let headers :=
        (lit "Content-Type", lit "application/json") ::
        match nonEmpty (LLMConfig.apiKey cfg) with
        | Some key => [(lit "Authorization", lit "Bearer " ++ key)]
        | None => []
        end in
      let payload :=
        {| model := LLMConfig.model cfg;
           messages := messages;
           temperature := default (7 # 10)%Q (LLMConfig.temperature cfg);
           max_tokens := default 2000 (LLMConfig.maxTokens cfg) |} in
      tryCatch
        (let requestParam :=
           {| url := LLMConfig.endpoint cfg;
              method := POST;
              headers := headers;
              body := payload |} in
         match requestUrl requestParam with
         | Failed cause => Throw cause
         | Responded response =>
             if negb (status response =? 200)%Z
             then Throw (ThrownLLM (statusError cfg response))
             else parseResponse cfg (json response)
         end)
        (fun error =>
           match error with
           | ThrownLLM e => Throw (ThrownLLM e)
           | _ =>
               m ← messageOf error;
               Throw (ThrownLLM
                 {| message := lit "Failed to generate completion: " ++ m;
                    type := NETWORK_ERROR;
                    retryable := true;
                    provider := Some (LLMConfig.provider cfg);
                    originalError := asJsError error |})
           end)
  end.

End Provider.

(** ** The LLMRouter class *)

Module Router.
Import JS Value LLM.

(** What a run does to the outside, in the order it happens.  Console
    output is left out. *)
Inductive Event :=
| EvIsAvailable (name : str) (r : Result bool)
| EvGenerate (name : str) (messages : list LLMMessage.t) (r : Result LLMResponse.t)
| EvSleep (ms : Z).

(** A registered provider object.  What a call gives may depend on all that
    happened before, which is the trace of events so far. *)
Record ILLMProvider := mkProvider {
  isAvailable : list Event -> Result bool;
  generateCompletion : list Event -> list LLMMessage.t -> Result LLMResponse.t
}.

(** A computation that reads and extends the trace and returns or throws. *)
Definition M (A : Type) : Type := list Event -> Result A * list Event.

#[export] Instance M_ret : MRet M := fun A a w => (Ok a, w).
#[export] Instance M_bind : MBind M := fun A B k m w =>
  match m w with
  | (Ok a, w') => k a w'
  | (Throw t, w') => (Throw t, w')
  end.

Definition throwM {A} (t : Thrown) : M A := fun w => (Throw t, w).

Definition liftR {A} (r : Result A) : M A := fun w => (r, w).

(** [try { m } catch (error) { h(error) }] *)
Definition tryM {A} (m : M A) (h : Thrown -> M A) : M A := fun w =>
  match m w with
  | (Ok a, w') => (Ok a, w')
  | (Throw t, w') => h t w'
  end.

Definition callIsAvailable (name : str) (p : ILLMProvider) : M bool := fun w =>
  let r := isAvailable p w in (r, w ++ [EvIsAvailable name r]).

Definition callGenerate (name : str) (p : ILLMProvider)
    (messages : list LLMMessage.t) : M LLMResponse.t := fun w =>
  let r := generateCompletion p w messages in (r, w ++ [EvGenerate name messages r]).

Definition sleep (ms : Z) : M unit := fun w => (Ok tt, w ++ [EvSleep ms]).

Record LLMRouter := mkRouter {
  providers : gmap str ILLMProvider;
  defaultProvider : option str;
  fallbackProviders : list str;
  retryAttempts : nat;
  retryDelay : Z
}.

(** The constructor. *)
Definition newRouter : LLMRouter :=
  {| providers := ∅;
     defaultProvider := None;
     fallbackProviders := [];
     retryAttempts := 3;
     retryDelay := 1000 |}.

Definition registerProvider (name : str) (p : ILLMProvider) (r : LLMRouter)
    : LLMRouter :=
  {| providers := <[name := p]> (providers r);
     defaultProvider := defaultProvider r;
     fallbackProviders := fallbackProviders r;
     retryAttempts := retryAttempts r;
     retryDelay := retryDelay r |}.

Definition has (r : LLMRouter) (name : str) : bool :=
  match providers r !! name with Some _ => true | None => false end.

Definition notRegistered (name : str) : Thrown :=
  ThrownLLM
    {| message := lit "Provider " ++ name ++ lit " not registered";
       type := INVALID_CONFIG;
       retryable := false;
       provider := None;
       originalError := None |}.

Definition setDefaultProvider (name : str) (r : LLMRouter) : Result LLMRouter :=
  if has r name then
    Ok {| providers := providers r;
          defaultProvider := Some name;
          fallbackProviders := fallbackProviders r;
          retryAttempts := retryAttempts r;
          retryDelay := retryDelay r |}
  else Throw (notRegistered name).

Definition setFallbackChain (names : list str) (r : LLMRouter) : Result LLMRouter :=
  match List.find (fun n => negb (has r n)) names with
  | Some n => Throw (notRegistered n)
  | None =>
      Ok {| providers := providers r;
            defaultProvider := defaultProvider r;
            fallbackProviders := names;
            retryAttempts := retryAttempts r;
            retryDelay := retryDelay r |}
  end.

Definition setRetryConfig (attempts : nat) (delay : Z) (r : LLMRouter) : LLMRouter :=
  {| providers := providers r;
     defaultProvider := defaultProvider r;
     fallbackProviders := fallbackProviders r;
     retryAttempts := attempts;
     retryDelay := delay |}.

Definition inChain (chain : list str) (name : str) : bool :=
  existsb (str_eqb name) chain.

(** An optional name counts when it is given and not the empty string. *)
Definition given (name : option str) : option str :=
  match name with
  | Some (c :: s) => Some (c :: s)
  | _ => None
  end.

Definition buildProviderChain (r : LLMRouter) (preferredProvider : option str)
    : list str :=
  let chain :=
    match given preferredProvider with
    | Some p => if has r p then [p] else []
    | None => []
    end in
  let chain :=
    match given (defaultProvider r) with
    | Some d => if inChain chain d then chain else chain ++ [d]
    | None => chain
    end in
  fold_left
    (fun chain fallback => if inChain chain fallback then chain else chain ++ [fallback])
    (fallbackProviders r) chain.

(** The loop of [generateWithRetry], entered at [attempt] with [remaining]
    rounds to go. *)
Fixpoint retryLoop (r : LLMRouter) (name : str) (p : ILLMProvider)
    (messages : list LLMMessage.t) (remaining attempt : nat) (lastError : Thrown)
    : M LLMResponse.t :=
  match remaining with
  | 0 => throwM lastError
  | S remaining' =>
      tryM (callGenerate name p messages)
        (fun error =>
           match error with
           | ThrownLLM e =>
               if negb (retryable e) then throwM error
               else
                 _ ← (if attempt <? retryAttempts r - 1
                       then sleep (retryDelay r * 2 ^ Z.of_nat attempt)
                       else mret tt);
                 retryLoop r name p messages remaining' (S attempt) error
           | _ => throwM error
           end)
  end.

Definition generateWithRetry (r : LLMRouter) (name : str) (p : ILLMProvider)
    (messages : list LLMMessage.t) : M LLMResponse.t :=
  retryLoop r name p messages (retryAttempts r) 0 ThrownNull.

Definition unavailable (name : str) : LLMError :=
  {| message := lit "Provider " ++ name ++ lit " is not available";
     type := PROVIDER_UNAVAILABLE;
     retryable := true;
     provider := Some name;
     originalError := None |}.

(** The loop over the chain.  The body either returns from [generate]
    or goes on with the next name and a new [lastError]. *)
Fixpoint tryProviders (r : LLMRouter) (messages : list LLMMessage.t)
    (chain : list str) (lastError : option LLMError) : M LLMResponse.t :=
  match chain with
  | [] =>
      throwM (ThrownLLM
        (default
           {| message := lit "All LLM providers failed";
              type := PROVIDER_UNAVAILABLE;
              retryable := false;
              provider := None;
              originalError := None |}
           lastError))
  | providerName :: rest =>
      match providers r !! providerName with
      | None => tryProviders r messages rest lastError
      | Some p =>
          step ←
            tryM
              (available ← callIsAvailable providerName p;
               if negb available
               then mret (inr (unavailable providerName))
               else
                 response ← generateWithRetry r providerName p messages;
                 mret (inl response))
              (fun error =>
                 match error with
                 | ThrownLLM e => mret (inr e)
                 | _ =>
                     m ← liftR (messageOf error);
                     mret (inr
                       {| message :=
                            lit "Unexpected error with provider " ++ providerName ++
                            lit ": " ++ m;
                          type := API_ERROR;
                          retryable := false;
                          provider := Some providerName;
                          originalError := asJsError error |})
                 end);
          match step with
          | inl response => mret response
          | inr lastError' => tryProviders r messages rest (Some lastError')
          end
      end
  end.

Definition generate (r : LLMRouter) (messages : list LLMMessage.t)
    (preferredProvider : option str) : M LLMResponse.t :=
  let providerChain := buildProviderChain r preferredProvider in
  match providerChain with
  | [] =>
      throwM (ThrownLLM
        {| message := lit "No LLM providers available";
           type := PROVIDER_UNAVAILABLE;
           retryable := false;
           provider := None;
           originalError := None |})
  | _ => tryProviders r messages providerChain None
  end.

End Router.

(** ** interfaces/prompt-template.interface.ts and prompt-manager.ts *)

Module Prompt.
Import JS Value LLM.

Record PromptTemplate := mkTemplate {
  name : str;
  description : str;
  systemPrompt : str;
  userPromptTemplate : str;
  variables : list str
}.

(** A literal in which a tilde stands for the double quote. *)
Definition litq (s : string) : str :=
  List.map (fun c => if N.eqb c 126 then 34%N else c) (lit s).

(** *** What the engine does with a replacement *)

(** GetSubstitution for a match without capture groups: [$$], [$&],
    [$`] and [$'] are expanded, any other dollar stands for itself. *)
Fixpoint expand (replacement matched before after : str) : str :=
  match replacement with
  | [] => []
  | c :: rest =>
      if N.eqb c 36 then
        match rest with
        | d :: rest' =>
            if N.eqb d 36 then 36%N :: expand rest' matched before after
            else if N.eqb d 38 then matched ++ expand rest' matched before after
            else if N.eqb d 96 then before ++ expand rest' matched before after
            else if N.eqb d 39 then after ++ expand rest' matched before after
            else c :: expand rest matched before after
        | [] => [c]
        end
      else c :: expand rest matched before after
  end.

(** [s.replace(re, replacement)] for a global [re] that matches the text
    [pat], which is not empty, and nothing else.  [skip] counts the code
    units of the current match still to pass, [seen] holds what was passed,
    last first. *)
Fixpoint replaceFrom (pat replacement : str) (seen : str) (skip : nat) (s : str)
    : str :=
  match s with
  | [] => []
  | c :: s' =>
      match skip with
      | S k => replaceFrom pat replacement (c :: seen) k s'
      | 0 =>
          if prefix_by N.eqb pat s then
            expand replacement pat (rev seen) (skipn (length pat) s) ++
            replaceFrom pat replacement (c :: seen) (length pat - 1) s'
          else c :: replaceFrom pat replacement (c :: seen) 0 s'
      end
  end.

Definition replaceAllText (pat replacement s : str) : str :=
  replaceFrom pat replacement [] 0 s.

(** The source of [new RegExp(`{{${key}}}`, 'g')]. *)
Definition placeholder (key : str) : str := lit "{{" ++ key ++ lit "}}".

(** The syntax characters of a pattern. *)
Definition isSyntaxChar (c : char) : bool :=
  char_in c [94; 36; 92; 46; 42; 43; 63; 40; 41; 91; 93; 123; 125; 124]%N.

(** A key that reads as the inside of a braced quantifier: digits,
    optionally a comma and more digits.  After [{{] such a key makes the
    second brace a quantifier of the first. *)
Fixpoint allDigits (s : str) : bool :=
  match s with
  | [] => true
  | c :: s' =>
      if N.leb 48 c && N.leb c 57 then allDigits s'
      else false
  end.

Fixpoint quantifierBody (started : bool) (s : str) : bool :=
  match s with
  | [] => started
  | c :: s' =>
      if N.leb 48 c && N.leb c 57 then quantifierBody true s'
      else if N.eqb c 44 then started && allDigits s'
      else false
  end.

(** The keys for which the pattern matches exactly the text of the
    placeholder: no syntax character in the key, and the key is not the
    inside of a quantifier. *)
Definition literalKey (key : str) : bool :=
  forallb (fun c => negb (isSyntaxChar c)) key && negb (quantifierBody false key).

(** What the model takes from the engine as given: the replacement for a
    pattern built from any other key, which may also fail to compile, and
    the text of a number that is not an integer. *)
Record Engine := mkEngine {
  otherRegExp : str -> str -> str -> Result str;
  fractionToString : Q -> str
}.

(** [userPrompt.replace(new RegExp(`{{${key}}}`, 'g'), replacement)] *)
Definition replaceKey (eng : Engine) (key replacement userPrompt : str)
    : Result str :=
  if literalKey key
  then Ok (replaceAllText (placeholder key) replacement userPrompt)
  else otherRegExp eng key userPrompt replacement.

(** *** The manager *)

Record PromptManager := mkManager {
  templates : gmap str PromptTemplate
}.

Definition registerTemplate (template : PromptTemplate) (pm : PromptManager)
    : PromptManager :=
  {| templates := <[name template := template]> (templates pm) |}.

Definition getTemplate (pm : PromptManager) (n : str) : option PromptTemplate :=
  templates pm !! n.

Definition deleteTemplate (n : str) (pm : PromptManager) : PromptManager :=
  {| templates := delete n (templates pm) |}.

(** The default templates of [loadDefaultTemplates]. *)
Definition generate_cards : PromptTemplate :=
  {| name := lit "generate_cards";
     description := lit "Generate flashcards from markdown content";
     systemPrompt := lit "You are a helpful assistant that creates high-quality flashcards from markdown content.
Your task is to analyze the given content and generate flashcards that help with learning and retention.

Guidelines:
- Create clear, concise questions
- Provide accurate and complete answers
- Use appropriate card types (Basic, Cloze, Q&A)
- Focus on key concepts and important information
- Avoid overly complex or ambiguous questions
- Generate flashcards in the user's language (match the content language)";
     userPromptTemplate := litq "Please analyze the following markdown content and generate flashcards:

Content:
```markdown
{{content}}
```

Generate flashcards in the following JSON format (respond ONLY with valid JSON):
```json
[
  {
    ~type~: ~basic~,
    ~front~: ~Question or prompt~,
    ~back~: ~Answer or explanation~,
    ~tags~: [~tag1~, ~tag2~]
  }
]
```

Important: Return ONLY the JSON array, no additional text or explanation.";
     variables := [lit "content"] |}.

Definition generate_answer : PromptTemplate :=
  {| name := lit "generate_answer";
     description := lit "Generate answer for a given question";
     systemPrompt := lit "You are a knowledgeable tutor that provides clear, accurate answers to questions.
Your answers should be:
- Accurate and factually correct
- Clear and easy to understand
- Appropriately detailed based on context
- Well-structured with examples when helpful
- In the same language as the question";
     userPromptTemplate := lit "Question: {{question}}

Context (if available):
{{context}}

Please provide a comprehensive answer to the question above.";
     variables := [lit "question"; lit "context"] |}.

Definition improve_card : PromptTemplate :=
  {| name := lit "improve_card";
     description := lit "Improve existing flashcard";
     systemPrompt := lit "You are an expert in creating effective flashcards for learning.
Analyze the given flashcard and suggest improvements for:
- Clarity and conciseness
- Accuracy
- Learning effectiveness
- Better formatting

Maintain the same language as the original card.";
     userPromptTemplate := litq "Current flashcard:
Front: {{front}}
Back: {{back}}

Please provide an improved version in JSON format:
```json
{
  ~front~: ~Improved question or prompt~,
  ~back~: ~Improved answer or explanation~,
  ~improvements~: ~Brief explanation of changes made~
}
```

Return ONLY the JSON, no additional text.";
     variables := [lit "front"; lit "back"] |}.

Definition generate_cloze : PromptTemplate :=
  {| name := lit "generate_cloze";
     description := lit "Generate cloze deletion cards from content";
     systemPrompt := lit "You are an expert at creating effective cloze deletion flashcards.
Your task is to identify key terms and concepts that should be turned into cloze deletions.";
     userPromptTemplate := litq "Content: {{content}}

Generate cloze deletion cards in JSON format:
```json
[
  {
    ~type~: ~cloze~,
    ~text~: ~The {{c1::key term}} is important for {{c2::specific reason}}.~,
    ~tags~: [~tag1~]
  }
]
```

Return ONLY the JSON array.";
     variables := [lit "content"] |}.

Definition generate_qa : PromptTemplate :=
  {| name := lit "generate_qa";
     description := lit "Generate question-answer pairs from content";
     systemPrompt := lit "You are an expert at creating clear question and answer pairs for studying.
Focus on important concepts and create questions that test understanding, not just memorization.";
     userPromptTemplate := litq "Content: {{content}}

Generate question-answer pairs in JSON format:
```json
[
  {
    ~type~: ~qa~,
    ~front~: ~Question?~,
    ~back~: ~Answer with explanation~,
    ~tags~: [~tag1~]
  }
]
```

Return ONLY the JSON array.";
     variables := [lit "content"] |}.

Definition loadDefaultTemplates (pm : PromptManager) : PromptManager :=
  registerTemplate generate_qa
    (registerTemplate generate_cloze
      (registerTemplate improve_card
        (registerTemplate generate_answer
          (registerTemplate generate_cards pm)))).

(** The constructor. *)
Definition newPromptManager : PromptManager :=
  loadDefaultTemplates {| templates := ∅ |}.

(** The argument [variables] is an object literal: its own properties are
    the pairs of the list, in the order of [Object.entries]; the [in]
    operator also finds what it inherits from [Object.prototype]. *)
Definition inheritedKeys : list str :=
  [lit "constructor"; lit "hasOwnProperty"; lit "isPrototypeOf";
   lit "propertyIsEnumerable"; lit "toLocaleString"; lit "toString";
   lit "valueOf"; lit "__proto__"; lit "__defineGetter__";
   lit "__defineSetter__"; lit "__lookupGetter__"; lit "__lookupSetter__"].

Definition ownKey (key : str) (vars : list (str * str)) : bool :=
  existsb (fun kv => str_eqb key (fst kv)) vars.

Definition keyIn (key : str) (vars : list (str * str)) : bool :=
  ownKey key vars || existsb (str_eqb key) inheritedKeys.

(** The loop over [Object.entries(variables)]. *)
Fixpoint substitute (eng : Engine) (entries : list (str * str)) (userPrompt : str)
    : Result str :=
  match entries with
  | [] => Ok userPrompt
  | (key, value) :: rest =>
      userPrompt' ← replaceKey eng key value userPrompt;
      substitute eng rest userPrompt'
  end.

Definition renderPrompt (eng : Engine) (pm : PromptManager) (templateName : str)
    (vars : list (str * str)) : Result (list LLMMessage.t) :=
  match templates pm !! templateName with
  | None => throwError Error_ (lit "Template " ++ templateName ++ lit " not found")
  | Some template =>
      match List.find (fun varName => negb (keyIn varName vars)) (variables template) with
      | Some varName =>
          throwError Error_ (lit "Missing required variable: " ++ varName)
      | None =>
          userPrompt ← substitute eng vars (userPromptTemplate template);
          Ok [ {| LLMMessage.role := system;
                  LLMMessage.content := systemPrompt template |};
               {| LLMMessage.role := user;
                  LLMMessage.content := userPrompt |} ]
      end
  end.

End Prompt.

(** ** generation/multi-pass-generator.ts *)

Module Generator.
Import JS Value Json LLM Prompt.

(** [GeneratedCard] as the interface declares it. *)
Record GeneratedCard := mkCard {
  type : str;
  front : str;
  back : str;
  tags : option (list str);
  confidence : option Q
}.

(** [calculateBatchQuality]; [card.confidence || 0.8] takes the default for
    an absent confidence and for the falsy number as well. *)
Definition confidenceOr (c : option Q) (d : Q) : Q :=
  match c with
  | Some q => if Qeq_bool q 0 then d else q
  | None => d
  end.

Definition calculateBatchQuality (cards : list GeneratedCard) : Q :=
  match cards with
  | [] => 0
  | _ =>
      let avgConfidence :=
        (fold_left (fun sum card => sum + confidenceOr (confidence card) (8 # 10)) cards 0
         / inject_Z (Z.of_nat (length cards)))%Q in
      let countPenalty :=
        if length cards <? 2 then (8 # 10)%Q
        else if 10 <? length cards then (9 # 10)%Q
        else 1%Q in
      (avgConfidence * countPenalty)%Q
  end.

(** *** Values of type [any] where the code expects strings and numbers *)

(** ToString.  An integer below 10^21 prints in decimal; the text of any
    other number is the engine's. *)
Definition numberToString (eng : Engine) (q : Q) : str :=
  let r := Qred q in
  if Pos.eqb (Qden r) 1 && (Z.abs (Qnum r) <? 10 ^ 21)%Z
  then Z_to_str (Qnum r)
  else fractionToString eng q.

Fixpoint toStringJs (eng : Engine) (v : jsval) : str :=
  match v with
  | JUndefined => lit "undefined"
  | JNull => lit "null"
  | JBool true => lit "true"
  | JBool false => lit "false"
  | JNum q => numberToString eng q
  | JStr s => s
  | JArr items =>
      join (lit ",")
        (List.map
           (fun x => if isNullish x then [] else toStringJs eng x) items)
  | JObj _ => lit "[object Object]"
  end.

(** The operand [v || d] of a sum that starts from a number: [Some] of its
    number, or [None] when [v] is a string, an array or an object, where
    the sum turns into a concatenation of texts that is not modelled. *)
Definition numericOr (v : jsval) (d : Q) : option Q :=
  match v with
  | JNum q => if Qeq_bool q 0 then Some d else Some q
  | JBool true => Some 1%Q
  | JStr (_ :: _) | JArr _ | JObj _ => None
  | _ => Some d
  end.

(** *** Data of the generator *)

Record DocumentPlan := mkPlan {
  overview : jsval;
  mainTopics : jsval;
  sections : jsval;
  totalEstimatedCards : option Q
}.

Inductive Phase := planning | analyzing | generating | validating | completed.

Record GenerationProgress := mkProgress {
  phase : Phase;
  currentChunk : option nat;
  totalChunks : option nat;
  cardsGenerated : nat;
  progressMessage : str
}.

(** A batch holds the cards as [parseCardResponse] builds them, objects of
    [any]-typed properties.  [quality] is [None] when a card has not the
    shape of a [GeneratedCard] (see [batchQuality]). *)
Record CardBatch := mkBatch {
  chunkId : str;
  batchHeading : str;
  cards : list jsval;
  summary : jsval;
  quality : option Q
}.

Inductive Item :=
| Progress (p : GenerationProgress)
| Batch (b : CardBatch).

Record MultiPassCardGenerator := mkGenerator {
  llmRouter : Router.LLMRouter;
  promptManager : PromptManager
}.

(** The templates of [registerEnhancedPrompts]. *)
Definition analyze_document : PromptTemplate :=
  {| name := lit "analyze_document";
     description := lit "Analyze document structure and create plan";
     systemPrompt := lit "You are an expert learning material analyst.
Your task is to analyze documents and create a strategic plan for flashcard generation.

Focus on:
- Identifying main topics and subtopics
- Assessing section importance
- Estimating appropriate number of cards
- Determining learning difficulty";
     userPromptTemplate := litq "Analyze this document and create a flashcard generation plan:

{{content}}

Provide a JSON response with:
{
  ~overview~: ~Brief overview of the document~,
  ~mainTopics~: [~topic1~, ~topic2~, ...],
  ~sections~: [
    {
      ~heading~: ~Section title~,
      ~importance~: 0.8,
      ~estimatedCards~: 3-5,
      ~difficulty~: 1-5
    }
  ]
}";
     variables := [lit "content"] |}.

Definition generate_cards_enhanced : PromptTemplate :=
  {| name := lit "generate_cards_enhanced";
     description := lit "Generate cards with context and quality focus";
     systemPrompt := litq "You are an expert flashcard creator specializing in high-quality learning materials.

Quality Standards:
- CLARITY: Questions must be unambiguous
- ACCURACY: Answers must be factually correct
- COMPLETENESS: Answers must be comprehensive yet concise
- RELEVANCE: Focus on testable, important concepts
- DIFFICULTY: Match appropriate learning level

Card Types:
- Basic: For definitions, concepts, and facts
- Cloze: For fill-in-the-blank, especially with key terms
- Q&A: For explanations and ~how/why~ questions";
     userPromptTemplate := litq "[DOCUMENT CONTEXT]
Overall Topic: {{documentTopic}}
Current Section: {{sectionPath}}
Previous Content Summary: {{previousSummary}}

[CONTENT TO PROCESS]
{{content}}

[TASK]
Generate high-quality flashcards from this content.

[REQUIREMENTS]
1. Focus on key concepts that deserve dedicated cards
2. Each card should test ONE clear concept
3. Questions should be specific and unambiguous
4. Answers should be accurate and complete
5. Include reasoning for each card

[OUTPUT FORMAT]
{
  ~cards~: [
    {
      ~type~: ~basic|cloze|qa~,
      ~front~: ~Clear, specific question~,
      ~back~: ~Complete, accurate answer~,
      ~rationale~: ~Why this card is valuable~,
      ~difficulty~: 1-5,
      ~prerequisites~: [~concepts needed to understand this~],
      ~tags~: [~relevant~, ~tags~],
      ~confidence~: 0.0-1.0
    }
  ],
  ~sectionSummary~: ~Key points from this section~
}

Respond with ONLY valid JSON.";
     variables := [lit "documentTopic"; lit "sectionPath"; lit "previousSummary"; lit "content"] |}.

Definition validate_cards : PromptTemplate :=
  {| name := lit "validate_cards";
     description := lit "Validate and improve generated cards";
     systemPrompt := lit "You are a quality assurance expert for learning materials.
Review flashcards for clarity, accuracy, and learning effectiveness.";
     userPromptTemplate := litq "Review these flashcards and provide quality assessment:

{{cards}}

For each card, evaluate:
1. CLARITY: Is the question unambiguous? (0-1)
2. ACCURACY: Is the answer correct? (0-1)
3. COMPLETENESS: Is the answer sufficient? (0-1)
4. UNIQUENESS: Is it distinct from others? (0-1)
5. DIFFICULTY: Is the rating appropriate? (true/false)

Also identify:
- Duplicate or very similar cards
- Cards with unclear questions
- Cards with incomplete answers
- Improvements needed

Respond in JSON:
{
  ~assessments~: [
    {
      ~cardIndex~: 0,
      ~clarity~: 0.9,
      ~accuracy~: 1.0,
      ~completeness~: 0.8,
      ~uniqueness~: 0.9,
      ~difficultyAppropriate~: true,
      ~overallQuality~: 0.9,
      ~issues~: [~list of issues~],
      ~suggestions~: [~list of improvements~]
    }
  ],
  ~duplicates~: [[index1, index2]],
  ~recommendations~: ~Overall recommendations~
}";
     variables := [lit "cards"] |}.

Definition registerEnhancedPrompts (pm : PromptManager) : PromptManager :=
  registerTemplate validate_cards
    (registerTemplate generate_cards_enhanced
      (registerTemplate analyze_document pm)).

(** The constructor; the chunker it creates has no state. *)
Definition newGenerator (router : Router.LLMRouter) (pm : PromptManager)
    : MultiPassCardGenerator :=
  {| llmRouter := router;
     promptManager := registerEnhancedPrompts pm |}.

(** *** Parsing the answers *)

(** What follows the first occurrence of [pat] in [s], and what precedes
    it. *)
Fixpoint afterFirst (pat s : str) : option str :=
  if prefix_by N.eqb pat s then Some (skipn (length pat) s)
  else match s with
       | [] => None
       | _ :: s' => afterFirst pat s'
       end.

Fixpoint beforeFirst (pat s : str) : option str :=
  if prefix_by N.eqb pat s then Some []
  else match s with
       | [] => None
       | c :: s' =>
           match beforeFirst pat s' with
           | Some b => Some (c :: b)
           | None => None
           end
       end.

(** Group 1 of [/```json\s*([\s\S]*?)\s*```/]: the greedy [\s*] on the
    left and the lazy group leave the text between the opening fence and the
    next three backticks without the whitespace at its ends. *)
Definition fencedJson (response : str) : option str :=
  match afterFirst (lit "```json") response with
  | Some rest =>
      match beforeFirst (lit "```") rest with
      | Some inner => Some (trim inner)
      | None => None
      end
  | None => None
  end.

(** [response.match(...)] on the [content] of a response, then
    [JSON.parse] of group 1 or of the whole text. *)
Definition parseJsonAnswer (response : jsval) : Result jsval :=
  match response with
  | JStr text =>
      JSON_parse (match fencedJson text with Some inner => inner | None => text end)
  | JUndefined | JNull =>
      throwError TypeError
        (lit "Cannot read properties of " ++ nullishName response ++
         lit " (reading 'match')")
  | _ => throwError TypeError (lit "response.match is not a function")
  end.

(** [parsed.sections?.reduce((sum, s) => sum + (s.estimatedCards || 3), 0) || 10] *)
Fixpoint sumEstimated (items : list jsval) (sum : option Q) : Result (option Q) :=
  match items with
  | [] => Ok sum
  | s :: rest =>
      est ← get s (lit "estimatedCards");
      sumEstimated rest
        (match sum, numericOr est 3 with
         | Some a, Some b => Some (a + b)%Q
         | _, _ => None
         end)
  end.

Definition totalEstimated (sections : jsval) : Result (option Q) :=
  match sections with
  | JUndefined | JNull => Ok (Some 10%Q)
  | JArr items =>
      total ← sumEstimated items (Some 0%Q);
      Ok (match total with
          | Some q => if Qeq_bool q 0 then Some 10%Q else Some q
          | None => None
          end)
  | _ => throwError TypeError (lit "parsed.sections?.reduce is not a function")
  end.

Definition defaultParsedPlan : DocumentPlan :=
  {| overview := JStr (lit "Document");
     mainTopics := JArr [];
     sections := JArr [];
     totalEstimatedCards := Some 10%Q |}.

Definition parseAnalysisResponse (response : jsval) : DocumentPlan :=
  match
    (parsed ← parseJsonAnswer response;
     overview ← get parsed (lit "overview");
     mainTopics ← get parsed (lit "mainTopics");
     sections ← get parsed (lit "sections");
     total ← totalEstimated sections;
     Ok {| overview := orElse overview (JStr (lit "Document"));
           mainTopics := orElse mainTopics (JArr []);
           sections := orElse sections (JArr []);
           totalEstimatedCards := total |})
  with
  | Ok plan => plan
  | Throw _ => defaultParsedPlan
  end.

(** The own enumerable properties that [...card] copies. *)
Fixpoint indexed {A} (i : nat) (l : list A) : list (str * A) :=
  match l with
  | [] => []
  | x :: l' => (nat_to_str i, x) :: indexed (S i) l'
  end.

Definition spreadEntries (card : jsval) : list (str * jsval) :=
  match card with
  | JObj fields => fields
  | JArr items => indexed 0 items
  | JStr s => indexed 0 (List.map (fun c => JStr [c]) s)
  | _ => []
  end.

(** The object literal of the [map] callback. *)
Definition buildCard (card : jsval) : Result jsval :=
  type ← get card (lit "type");
  front ← get card (lit "front");
  back ← get card (lit "back");
  tags ← get card (lit "tags");
  confidence ← get card (lit "confidence");
  Ok (JObj
    (fold_left (fun fields kv => setField (fst kv) (snd kv) fields)
       (spreadEntries card)
       [(lit "type", orElse type (JStr (lit "basic")));
        (lit "front", orElse front (JStr []));
        (lit "back", orElse back (JStr []));
        (lit "tags", orElse tags (JArr []));
        (lit "confidence", orElse confidence (JNum (8 # 10)))])).

Fixpoint mapCards (items : list jsval) : Result (list jsval) :=
  match items with
  | [] => Ok []
  | card :: rest =>
      c ← buildCard card;
      cs ← mapCards rest;
      Ok (c :: cs)
  end.

Record ParsedCards := mkParsed {
  parsedCards : list jsval;
  sectionSummary : jsval
}.

Definition parseCardResponse (response : jsval) : ParsedCards :=
  match
    (parsed ← parseJsonAnswer response;
     given ← get parsed (lit "cards");
     cards ←
       match orElse given (JArr []) with
       | JArr items => mapCards items
       | _ => throwError TypeError (lit "(parsed.cards || []).map is not a function")
       end;
     summary ← get parsed (lit "sectionSummary");
     Ok {| parsedCards := cards;
           sectionSummary := orElse summary (JStr []) |})
  with
  | Ok r => r
  | Throw _ => {| parsedCards := []; sectionSummary := JStr [] |}
  end.

(** The confidence a card object carries. *)
Definition cardConfidence (card : jsval) : jsval :=
  match get card (lit "confidence") with
  | Ok v => v
  | Throw _ => JUndefined
  end.

(** A card object read as the [GeneratedCard] that the interface declares:
    [None] when a property has another type than declared. *)
Definition asStr (v : jsval) : option str :=
  match v with JStr s => Some s | _ => None end.

Definition property (k : str) (fields : list (str * jsval)) : jsval :=
  match lookupField k fields with Some v => v | None => JUndefined end.

Definition asGeneratedCard (card : jsval) : option GeneratedCard :=
  match card with
  | JObj fields =>
      ty ← asStr (property (lit "type") fields);
      fr ← asStr (property (lit "front") fields);
      ba ← asStr (property (lit "back") fields);
      ta ← match property (lit "tags") fields with
           | JUndefined => Some None
           | JArr items => Some <$> mapM asStr items
           | _ => None
           end;
      co ← match property (lit "confidence") fields with
           | JUndefined => Some None
           | JNum q => Some (Some q)
           | _ => None
           end;
      Some {| type := ty; front := fr; back := ba; tags := ta; confidence := co |}
  | _ => None
  end.

(** [calculateBatchQuality(result.cards)] on the objects of a batch; the
    arithmetic on properties of other types than declared is not
    modelled. *)
Definition batchQuality (cards : list jsval) : option Q :=
  calculateBatchQuality <$> mapM asGeneratedCard cards.

(** *** The passes *)

(** [/^#{1,6}\s+/] *)
Definition startsHeading (line : str) : bool :=
  let k := Chunker.countHashes line in
  (1 <=? k) && (k <=? 6) &&
  match skipn k line with
  | c :: _ => isSpace c
  | [] => false
  end.

Fixpoint summaryLines (lines : list str) (headings samples : list str)
    : list str * list str :=
  match lines with
  | [] => (headings, samples)
  | line :: rest =>
      if startsHeading line then summaryLines rest (headings ++ [line]) samples
      else if (length samples <? 10) && (50 <? length (trim line))
      then summaryLines rest headings (samples ++ [line])
      else summaryLines rest headings samples
  end.

Definition createDocumentSummary (text : str) : str :=
  let '(headings, samples) := summaryLines (split_nl text) [] [] in
  join_nl headings ++ [NL; NL] ++ join_nl samples.

(** A run of the generator: the items yielded so far and the trace of the
    router's calls. *)
Definition G (A : Type) : Type :=
  list Item * list Router.Event -> Result A * (list Item * list Router.Event).

#[export] Instance G_ret : MRet G := fun A a st => (Ok a, st).
#[export] Instance G_bind : MBind G := fun A B k m st =>
  match m st with
  | (Ok a, st') => k a st'
  | (Throw t, st') => (Throw t, st')
  end.

Definition yield (item : Item) : G unit := fun st =>
  (Ok tt, (fst st ++ [item], snd st)).

Definition liftM {A} (m : Router.M A) : G A := fun st =>
  let '(r, w) := m (snd st) in (r, (fst st, w)).

Definition liftResult {A} (r : Result A) : G A := fun st => (r, st).

Definition tryG {A} (m : G A) (h : Thrown -> G A) : G A := fun st =>
  match m st with
  | (Ok a, st') => (Ok a, st')
  | (Throw t, st') => h t st'
  end.

Definition defaultPlan : DocumentPlan :=
  {| overview := JStr (lit "Document analysis");
     mainTopics := JArr [];
     sections := JArr [];
     totalEstimatedCards := Some 10%Q |}.

Definition analyzeDocument (eng : Engine) (g : MultiPassCardGenerator) (text : str)
    : G DocumentPlan :=
  tryG
    (let analysisContent :=
       if 100 * 100 <? length text then createDocumentSummary text else text in
     messages ← liftResult
       (renderPrompt eng (promptManager g) (lit "analyze_document")
          [(lit "content", analysisContent)]);
     response ← liftM (Router.generate (llmRouter g) messages None);
     mret (parseAnalysisResponse (LLMResponse.content response)))
    (fun _ => mret defaultPlan).

Record Context := mkContext {
  documentTopic : jsval;
  previousSummary : jsval;
  contextOverview : str
}.

Definition generateCardsForChunk (eng : Engine) (g : MultiPassCardGenerator)
    (chunk : Chunker.DocumentChunk) (context : Context) : G CardBatch :=
  messages ← liftResult
    (renderPrompt eng (promptManager g) (lit "generate_cards_enhanced")
       [(lit "documentTopic", toStringJs eng (documentTopic context));
        (lit "sectionPath", Chunker.heading chunk);
        (lit "previousSummary",
           toStringJs eng
             (orElse (previousSummary context) (JStr (lit "This is the first section."))));
        (lit "content", Chunker.content chunk)]);
  response ← liftM (Router.generate (llmRouter g) messages None);
  let result := parseCardResponse (LLMResponse.content response) in
  mret {| chunkId := Chunker.id chunk;
          batchHeading := Chunker.heading chunk;
          cards := parsedCards result;
          summary := orElse (sectionSummary result) (JStr []);
          quality := batchQuality (parsedCards result) |}.

(** [chunks.sort((a, b) => b.metadata.importance - a.metadata.importance)]:
    the sort is stable, so a chunk goes behind the chunks before it that
    are at least as important. *)
Fixpoint insertChunk (x : Chunker.DocumentChunk) (sorted : list Chunker.DocumentChunk)
    : list Chunker.DocumentChunk :=
  match sorted with
  | [] => [x]
  | y :: rest =>
      if Qle_bool (Chunker.importance y) (Chunker.importance x)
      then x :: y :: rest
      else y :: insertChunk x rest
  end.

Definition prioritizeChunks (chunks : list Chunker.DocumentChunk)
    : list Chunker.DocumentChunk :=
  fold_right insertChunk [] chunks.

(** [createOverview] of the chunker: [repeat] throws a [RangeError] on the
    count [-1] that a chunk of level 0 gives. *)
Fixpoint overviewHeadings (chunks : list Chunker.DocumentChunk) : Result (list str) :=
  match chunks with
  | [] => Ok []
  | chunk :: rest =>
      match Chunker.level chunk with
      | 0 => throwError RangeError (lit "Invalid count value: -1")
      | S n =>
          hs ← overviewHeadings rest;
          Ok ((repeat_str (lit "  ") n ++ lit "- " ++ Chunker.heading chunk) :: hs)
      end
  end.

Definition createOverview (chunks : list Chunker.DocumentChunk) : Result str :=
  headings ← overviewHeadings (List.filter (fun c => Chunker.level c <=? 2) chunks);
  Ok (lit "Document Structure:" ++ [NL] ++ join_nl headings).

Record Options := mkGenOptions {
  maxCards : option nat;
  minQuality : option Q
}.

(** The loop of pass 3, entered at index [i] with the chunks from there
    on.  The condition of the [for] is checked first; [break] ends it. *)
Fixpoint generateLoop (eng : Engine) (g : MultiPassCardGenerator) (maxC : nat)
    (plan : DocumentPlan) (overviewText : str) (totalChunksN : nat)
    (i : nat) (chunks : list Chunker.DocumentChunk)
    (totalCardsGenerated : nat) (previous : jsval) : G nat :=
  match chunks with
  | [] => mret totalCardsGenerated
  | chunk :: rest =>
      if negb (totalCardsGenerated <? maxC) then mret totalCardsGenerated
      else
        _ ← yield (Progress
              {| phase := generating;
                 currentChunk := Some (i + 1);
                 totalChunks := Some totalChunksN;
                 cardsGenerated := totalCardsGenerated;
                 progressMessage :=
                   lit "Generating cards for: " ++ Chunker.heading chunk |});
        step ←
          tryG
            (batch ← generateCardsForChunk eng g chunk
                       {| documentTopic := overview plan;
                          previousSummary := previous;
                          contextOverview := overviewText |};
             _ ← yield (Batch batch);
             mret (Some batch))
            (fun _ => mret None);
        match step with
        | Some batch =>
            let total' := totalCardsGenerated + length (cards batch) in
            if maxC <=? total' then mret total'
            else generateLoop eng g maxC plan overviewText totalChunksN
                   (S i) rest total' (summary batch)
        | None =>
            generateLoop eng g maxC plan overviewText totalChunksN
              (S i) rest totalCardsGenerated previous
        end
  end.

Definition generateCardsMultiPass (eng : Engine) (g : MultiPassCardGenerator)
    (text : str) (options : option Options) : G unit :=
  let maxC := Chunker.orDefault (options ≫= maxCards) 50 in
  _ ← yield (Progress
        {| phase := planning;
           currentChunk := None;
           totalChunks := None;
           cardsGenerated := 0;
           progressMessage := lit "Analyzing document structure..." |});
  plan ← analyzeDocument eng g text;
  _ ← yield (Progress
        {| phase := analyzing;
           currentChunk := None;
           totalChunks := None;
           cardsGenerated := 0;
           progressMessage := lit "Breaking document into sections..." |});
  let chunks :=
    Chunker.chunkDocument text
      (Some {| Chunker.maxTokens := Some 1500; Chunker.minTokens := Some 200 |}) in
  (* [sort] works in place: [chunks] and [sortedChunks] are one array *)
  let sortedChunks := prioritizeChunks chunks in
  overviewText ← liftResult (createOverview sortedChunks);
  total ← generateLoop eng g maxC plan overviewText (length sortedChunks)
            0 sortedChunks 0 (JStr []);
  yield (Progress
    {| phase := completed;
       currentChunk := None;
       totalChunks := None;
       cardsGenerated := total;
       progressMessage :=
         lit "Generated " ++ nat_to_str total ++ lit " cards successfully!" |}).

End Generator.

(** ** The other methods of the chunker: extractKeywords and getChunkContext *)

Module ChunkerTools.
Import JS Chunker.

(** [getChunkContext] *)
Record ChunkContext := mkChunkContext {
  previous : option DocumentChunk;
  next : option DocumentChunk;
  siblings : list DocumentChunk
}.

Definition getChunkContext (chunk : DocumentChunk) (allChunks : list DocumentChunk)
    : ChunkContext :=
  let index := index chunk in
  {| previous := if 0 <? index then nth_error allChunks (index - 1) else None;
     next := if index <? length allChunks - 1
             then nth_error allChunks (index + 1) else None;
     siblings :=
       List.filter
         (fun c => (level c =? level chunk) && negb (Chunker.index c =? index))
         allChunks |}.


(** *** extractKeywords

    The [keywords] of a chunk are [extractKeywords] of its content. *)

Definition isEmphasisMark (c : char) : bool := char_in c [42; 95; 61]%N.

(** The matches of [/\*\*(.*?)\*\*|__(.*?)__|==(.*?)==/g], from the left;
    [skip] counts the code units of the current match still to pass. *)
Fixpoint emphasisMatches (skip : nat) (s : str) : list str :=
  match s with
  | [] => []
  | c1 :: s' =>
      match skip with
      | S k => emphasisMatches k s'
      | 0 =>
          match s' with
          | c2 :: rest =>
              if N.eqb c1 c2 && isEmphasisMark c1 then
                match lazyClose c1 rest with
                | Some after =>
                    let n := length s - length after in
                    firstn n s :: emphasisMatches (n - 1) s'
                | None => emphasisMatches 0 s'
                end
              else emphasisMatches 0 s'
          | [] => []
          end
      end
  end.

(** The class [\w] of a pattern without the [u] and [i] flags. *)
Definition isUpper (c : char) : bool := N.leb 65 c && N.leb c 90.
Definition isLower (c : char) : bool := N.leb 97 c && N.leb c 122.
Definition isWordChar (c : char) : bool :=
  isUpper c || isLower c || (N.leb 48 c && N.leb c 57) || N.eqb c 95.

Fixpoint wordRun (s : str) : str :=
  match s with
  | c :: s' => if isWordChar c then c :: wordRun s' else []
  | [] => []
  end.

(** The matches of [/```(\w+)?/g] without their three backticks: the
    greedy group takes the whole run of word characters after a fence. *)
Fixpoint fenceLanguages (skip : nat) (s : str) : list str :=
  match s with
  | [] => []
  | _ :: s' =>
      match skip with
      | S k => fenceLanguages k s'
      | 0 =>
          if prefix_by N.eqb backticks s then
            let w := wordRun (skipn 3 s) in
            w :: fenceLanguages (2 + length w) s'
          else fenceLanguages 0 s'
      end
  end.

(** The maximal runs of word characters of a text; [current] is the run
    being read. *)
Fixpoint wordsOf (current : str) (s : str) : list str :=
  match s with
  | [] => match current with [] => [] | _ => [current] end
  | c :: s' =>
      if isWordChar c then wordsOf (current ++ [c]) s'
      else match current with
           | [] => wordsOf [] s'
           | _ => current :: wordsOf [] s'
           end
  end.

(** A run of the form [([A-Z][a-z]+)+]. *)
Inductive CapState := AtStart | AfterUpper | InLower.

Fixpoint capitalizedWord (st : CapState) (w : str) : bool :=
  match w with
  | [] => match st with InLower => true | _ => false end
  | c :: w' =>
      match st with
      | AtStart => isUpper c && capitalizedWord AfterUpper w'
      | AfterUpper => isLower c && capitalizedWord InLower w'
      | InLower =>
          (isLower c && capitalizedWord InLower w') ||
          (isUpper c && capitalizedWord AfterUpper w')
      end
  end.

(** The matches of [/\b[A-Z][a-z]+(?:[A-Z][a-z]+)*\b/g].  The pattern
    takes letters only and has a word boundary at both ends, so a match is a
    whole maximal run of word characters, and a run that has not this form
    holds no match. *)
Definition capitalizedWords (text : str) : list str :=
  List.filter (capitalizedWord AtStart) (wordsOf [] text).

(** [keywords.add(k)] on a [Set], kept in the order of insertion. *)
Definition addKeyword (k : str) (keywords : list str) : list str :=
  if existsb (str_eqb k) keywords then keywords else keywords ++ [k].

Definition fromEmphasis (keywords : list str) (matched : str) : list str :=
  let cleaned := trim (List.filter (fun c => negb (isEmphasisMark c)) matched) in
  if 2 <? length cleaned then addKeyword cleaned keywords else keywords.

Definition fromFence (keywords : list str) (language : str) : list str :=
  match trim language with
  | [] => keywords
  | lang => addKeyword lang keywords
  end.

Definition fromCapitalized (keywords : list str) (word : str) : list str :=
  if 3 <? length word then addKeyword word keywords else keywords.

Definition extractKeywords (text : str) : list str :=
  let keywords := fold_left fromEmphasis (emphasisMatches 0 text) [] in
  let keywords := fold_left fromFence (fenceLanguages 0 text) keywords in
  let keywords := fold_left fromCapitalized (capitalizedWords text) keywords in
  firstn 10 keywords.

End ChunkerTools.

(** ** The other methods of the provider: initialize and isAvailable *)

Module ProviderSetup.
Import JS Value LLM Provider.

(** The requests of [isAvailable], which have other bodies than the one of
    [generateCompletion]: none for the [GET], and for the [POST] a minimal
    completion request. *)
Record TestBody := mkTestBody {
  testModel : str;
  testMessages : list LLMMessage.t;
  testMaxTokens : nat
}.

Record TestRequest := mkTestRequest {
  testUrl : str;
  testMethod : Method;
  testHeaders : list (str * str);
  testBody : option TestBody
}.

(** [s.replace(pat, replacement)] for a text [pat] and a replacement
    without dollar sign: the first occurrence only. *)
Fixpoint replaceFirst (pat replacement s : str) : str :=
  if prefix_by N.eqb pat s then replacement ++ skipn (length pat) s
  else match s with
       | [] => []
       | c :: s' => c :: replaceFirst pat replacement s'
       end.

Definition authorization (cfg : LLMConfig.t) : list (str * str) :=
  match nonEmpty (LLMConfig.apiKey cfg) with
  | Some key => [(lit "Authorization", lit "Bearer " ++ key)]
  | None => []
  end.

Definition modelsRequest (cfg : LLMConfig.t) : TestRequest :=
  {| testUrl :=
       replaceFirst (lit "/chat/completions") (lit "/models") (LLMConfig.endpoint cfg);
     testMethod := GET;
     testHeaders := authorization cfg;
     testBody := None |}.

Definition minimalRequest (cfg : LLMConfig.t) : TestRequest :=
  {| testUrl := LLMConfig.endpoint cfg;
     testMethod := POST;
     testHeaders := (lit "Content-Type", lit "application/json") :: authorization cfg;
     testBody :=
       Some {| testModel := LLMConfig.model cfg;
               testMessages :=
                 [ {| LLMMessage.role := user; LLMMessage.content := lit "test" |} ];
               testMaxTokens := 1 |} |}.

(** [isAvailable] of a provider whose [config] is [None] until
    [initialize] has run; [requestUrl] is the network. *)
Definition isAvailable (config : option LLMConfig.t)
    (requestUrl : TestRequest -> HttpOutcome) : Result bool :=
  match config with
  | None => Ok false
  | Some cfg =>
      match LLMConfig.endpoint cfg with
      | [] => Ok false
      | _ =>
          tryCatch
            (match requestUrl (modelsRequest cfg) with
             | Failed cause => Throw cause
             | Responded response =>
                 Ok ((status response =? 200)%Z || (status response =? 404)%Z ||
                     (status response =? 405)%Z)
             end)
            (fun _ =>
               tryCatch
                 (match requestUrl (minimalRequest cfg) with
                  | Failed cause => Throw cause
                  | Responded response => Ok (negb (status response =? 404)%Z)
                  end)
                 (fun _ => Ok false))
      end
  end.

Definition invalidConfig (msg : str) (cfg : LLMConfig.t) : Thrown :=
  ThrownLLM
    {| message := msg;
       type := INVALID_CONFIG;
       retryable := false;
       provider := Some (LLMConfig.provider cfg);
       originalError := None |}.

(** [initialize]: the new value of [this.config], which is assigned before
    the checks, and the outcome. *)
Definition initialize (cfg : LLMConfig.t) (requestUrl : TestRequest -> HttpOutcome)
    : option LLMConfig.t * Result unit :=
  (Some cfg,
   match LLMConfig.endpoint cfg with
   | [] => Throw (invalidConfig (lit "Endpoint is required") cfg)
   | _ =>
       match LLMConfig.model cfg with
       | [] => Throw (invalidConfig (lit "Model is required") cfg)
       | _ =>
           available ← isAvailable (Some cfg) requestUrl;
           Ok tt
       end
   end).

End ProviderSetup.

(** ** updateTemplate of the prompt manager *)

Module Templates.
Import JS Value LLM Prompt.

(** [Partial<PromptTemplate>]: a property is there with a value, or it is
    not there. *)
Record TemplateUpdates := mkUpdates {
  newName : option str;
  newDescription : option str;
  newSystemPrompt : option str;
  newUserPromptTemplate : option str;
  newVariables : option (list str)
}.

(** [{ ...template, ...updates }] *)
Definition spread (template : PromptTemplate) (updates : TemplateUpdates)
    : PromptTemplate :=
  {| name := default (name template) (newName updates);
     description := default (description template) (newDescription updates);
     systemPrompt := default (systemPrompt template) (newSystemPrompt updates);
     userPromptTemplate :=
       default (userPromptTemplate template) (newUserPromptTemplate updates);
     variables := default (variables template) (newVariables updates) |}.

(** [updateTemplate]: the manager afterwards and the boolean returned. *)
Definition updateTemplate (n : str) (updates : TemplateUpdates) (pm : PromptManager)
    : PromptManager * bool :=
  match templates pm !! n with
  | None => (pm, false)
  | Some template =>
      ({| templates := <[n := spread template updates]> (templates pm) |}, true)
  end.

End Templates.

(** ** content-analyzer.ts and interfaces/content-section.interface.ts *)

Module Analyzer.
Import JS.

Inductive SectionType := THeading | TParagraph | TList | TCode | TQuote | TTable.

Definition sameType (a b : SectionType) : bool :=
  match a, b with
  | THeading, THeading | TParagraph, TParagraph | TList, TList
  | TCode, TCode | TQuote, TQuote | TTable, TTable => true
  | _, _ => false
  end.

Record Metadata := mkMetadata {
  lineStart : option nat;
  lineEnd : option nat;
  parentHeading : option str
}.

Record ContentSection := mkSection {
  type : SectionType;
  content : str;
  level : option nat;
  cardPotential : Q;
  metadata : option Metadata
}.

Record AnalysisResult := mkAnalysis {
  sections : list ContentSection;
  candidateSections : list ContentSection;
  totalSections : nat;
  highPotentialCount : nat
}.

Definition HIGH_POTENTIAL_THRESHOLD : Q := 6 # 10.

(** [getHeadingLevel]: the length of the match of [/^#+/], 0 without one. *)
Definition getHeadingLevel (heading : str) : nat := Chunker.countHashes heading.

Definition anyOf (needles : list str) (text : str) : bool :=
  existsb (fun needle => includes needle text) needles.

Definition calculateHeadingPotential (text : str) (lvl : nat) : Q :=
  (let potential := 5 # 10 in
   let potential := potential + inject_Z (6 - Z.of_nat lvl) * (5 # 100) in
   let potential :=
     if includes (lit "?") text ||
        anyOf [lit "what"; lit "how"; lit "why"; lit "when"; lit "where"]
          (toLowerCase text)
     then potential + (2 # 10) else potential in
   let potential :=
     if anyOf [lit "definition"; lit "concept"; [51060; 46976]%N; [47924; 50631]%N]
          (toLowerCase text)
     then potential + (15 # 100) else potential in
   Qmin potential 1)%Q.

(** [content.split(/\s+/).length]: one more than the number of maximal
    runs of whitespace; [inRun] says that the code unit before was
    whitespace. *)
Fixpoint spaceRuns (inRun : bool) (s : str) : nat :=
  match s with
  | [] => 0
  | c :: s' =>
      if isSpace c then (if inRun then 0 else 1) + spaceRuns true s'
      else spaceRuns false s'
  end.

Definition wordCount (text : str) : nat := 1 + spaceRuns false text.

Definition calculateParagraphPotential (text : str) : Q :=
  (let potential := 5 # 10 in
   let potential :=
     if (10 <=? wordCount text) && (wordCount text <=? 100) then potential + (1 # 10)
     else if 100 <? wordCount text then potential - (2 # 10)
     else potential in
   let potential :=
     if anyOf [lit ":"; lit "is defined as"; lit "refers to"; lit "means";
               [51060; 46976]%N; [51032; 48120; 45716]%N] text
     then potential + (2 # 10) else potential in
   let potential :=
     if anyOf [lit "important"; lit "key"; lit "note that"] (toLowerCase text) ||
        anyOf [[51473; 50836]%N; [54645; 49900]%N] text
     then potential + (15 # 100) else potential in
   let potential :=
     if anyOf [lit "example"; lit "for instance"] (toLowerCase text) ||
        anyOf [[50696; 47484; 32; 46308; 50612]%N; [50696; 49884]%N] text
     then potential + (1 # 10) else potential in
   Qmin potential 1)%Q.

(** [/^[-*+]\s/] and [/^\d+\.\s/] *)
Definition bulleted (s : str) : bool :=
  match s with
  | c :: d :: _ => char_in c [45; 42; 43]%N && isSpace d
  | _ => false
  end.

Fixpoint afterDigits (s : str) : str :=
  match s with
  | c :: s' => if Json.isDigit c then afterDigits s' else s
  | [] => []
  end.

Definition numbered (s : str) : bool :=
  match s with
  | c :: _ =>
      Json.isDigit c &&
      match afterDigits s with
      | d :: e :: _ => N.eqb d 46 && isSpace e
      | _ => false
      end
  | [] => false
  end.

(** The variables of the loop of [extractSections]. *)
Record Scan := mkScan {
  done : list ContentSection;
  currentSection : option ContentSection;
  lineNumber : nat;
  currentHeading : str
}.

Definition isCurrent (ty : SectionType) (s : Scan) : bool :=
  match currentSection s with
  | Some c => sameType (type c) ty
  | None => false
  end.

(** [if (currentSection) sections.push(currentSection)] *)
Definition pushCurrent (s : Scan) : list ContentSection :=
  match currentSection s with
  | Some c => done s ++ [c]
  | None => done s
  end.

(** [currentSection.content += sep + trimmed] *)
Definition append (sep trimmed : str) (c : ContentSection) : ContentSection :=
  {| type := type c;
     content := content c ++ sep ++ trimmed;
     level := level c;
     cardPotential := cardPotential c;
     metadata := metadata c |}.

(** [currentSection.metadata!.lineEnd = lineNumber]; every section of the
    loop has its [metadata]. *)
Definition endAt (n : nat) (c : ContentSection) : ContentSection :=
  {| type := type c;
     content := content c;
     level := level c;
     cardPotential := cardPotential c;
     metadata :=
       match metadata c with
       | Some m =>
           Some {| lineStart := lineStart m; lineEnd := Some n;
                   parentHeading := parentHeading m |}
       | None => None
       end |}.

(** A section that starts at line [n] below the heading [parent]. *)
Definition fresh (ty : SectionType) (trimmed : str) (potential : Q) (n : nat)
    (parent : str) : ContentSection :=
  {| type := ty;
     content := trimmed;
     level := None;
     cardPotential := potential;
     metadata :=
       Some {| lineStart := Some n; lineEnd := Some n; parentHeading := Some parent |} |}.

(** The branch of a list item, a quote line or a table row: go on with a
    section of the same type, or start one. *)
Definition block (ty : SectionType) (potential : Q) (trimmed : str) (n : nat)
    (s : Scan) : Scan :=
  match currentSection s with
  | Some c =>
      if sameType (type c) ty then
        {| done := done s;
           currentSection := Some (endAt n (append [NL] trimmed c));
           lineNumber := n;
           currentHeading := currentHeading s |}
      else
        {| done := pushCurrent s;
           currentSection := Some (fresh ty trimmed potential n (currentHeading s));
           lineNumber := n;
           currentHeading := currentHeading s |}
  | None =>
      {| done := pushCurrent s;
         currentSection := Some (fresh ty trimmed potential n (currentHeading s));
         lineNumber := n;
         currentHeading := currentHeading s |}
  end.

Definition body (line : str) (s : Scan) : Scan :=
  let n := S (lineNumber s) in
  let trimmed := trim line in
  match trimmed with
  | [] =>
      {| done := done s;
         currentSection := currentSection s;
         lineNumber := n;
         currentHeading := currentHeading s |}
  | _ =>
      if prefix_by N.eqb (lit "#") trimmed then
        let lvl := getHeadingLevel trimmed in
        (* [trimmed.replace(/^#+\s*/, '')] *)
        let text := trimStart (skipn (Chunker.countHashes trimmed) trimmed) in
        {| done := pushCurrent s;
           currentSection :=
             Some {| type := THeading;
                     content := text;
                     level := Some lvl;
                     cardPotential := calculateHeadingPotential text lvl;
                     metadata :=
                       Some {| lineStart := Some n; lineEnd := Some n;
                               parentHeading := None |} |};
           lineNumber := n;
           currentHeading := text |}
      else if bulleted trimmed || numbered trimmed then
        block TList (8 # 10) trimmed n s
      else if prefix_by N.eqb (lit ">") trimmed then
        block TQuote (7 # 10) trimmed n s
      else if prefix_by N.eqb Chunker.backticks trimmed then
        match currentSection s with
        | Some c =>
            if sameType (type c) TCode then
              {| done := done s ++ [endAt n (append [NL] trimmed c)];
                 currentSection := None;
                 lineNumber := n;
                 currentHeading := currentHeading s |}
            else
              {| done := pushCurrent s;
                 currentSection :=
                   Some (fresh TCode trimmed (4 # 10) n (currentHeading s));
                 lineNumber := n;
                 currentHeading := currentHeading s |}
        | None =>
            {| done := pushCurrent s;
               currentSection :=
                 Some (fresh TCode trimmed (4 # 10) n (currentHeading s));
               lineNumber := n;
               currentHeading := currentHeading s |}
        end
      else if includes (lit "|") trimmed then
        block TTable (75 # 100) trimmed n s
      else
        match currentSection s with
        | Some c =>
            if sameType (type c) TParagraph then
              {| done := done s;
                 currentSection := Some (endAt n (append (lit " ") trimmed c));
                 lineNumber := n;
                 currentHeading := currentHeading s |}
            else if sameType (type c) TCode then
              {| done := done s;
                 currentSection := Some (append [NL] trimmed c);
                 lineNumber := n;
                 currentHeading := currentHeading s |}
            else
              {| done := done s ++ [c];
                 currentSection :=
                   Some (fresh TParagraph trimmed (calculateParagraphPotential trimmed)
                           n (currentHeading s));
                 lineNumber := n;
                 currentHeading := currentHeading s |}
        | None =>
            {| done := done s;
               currentSection :=
                 Some (fresh TParagraph trimmed (calculateParagraphPotential trimmed)
                         n (currentHeading s));
               lineNumber := n;
               currentHeading := currentHeading s |}
        end
  end.

Definition initial : Scan :=
  {| done := []; currentSection := None; lineNumber := 0; currentHeading := [] |}.

Definition extractSections (markdown : str) : list ContentSection :=
  pushCurrent (fold_left (fun s line => body line s) (split_nl markdown) initial).

(** [selectCandidateSections] *)
Definition selectCandidateSections (sections : list ContentSection) (threshold : Q)
    : list ContentSection :=
  List.filter (fun section => Qle_bool threshold (cardPotential section)) sections.

Definition analyzeMarkdown (markdown : str) : AnalysisResult :=
  let sections := extractSections markdown in
  let candidateSections := selectCandidateSections sections HIGH_POTENTIAL_THRESHOLD in
  {| sections := sections;
     candidateSections := candidateSections;
     totalSections := length sections;
     highPotentialCount := length candidateSections |}.

(** [section.metadata?.parentHeading] *)
Definition parentOf (section : ContentSection) : option str :=
  metadata section ≫= parentHeading.

Definition option_str_eqb (a b : option str) : bool :=
  match a, b with
  | Some x, Some y => str_eqb x y
  | None, None => true
  | _, _ => false
  end.

(** [groupRelatedSections]: the groups closed so far, the open group and
    the heading it stands under. *)
Fixpoint groupLoop (sections : list ContentSection)
    (groups : list (list ContentSection)) (currentGroup : list ContentSection)
    (heading : str) : list (list ContentSection) :=
  match sections with
  | [] =>
      match currentGroup with
      | [] => groups
      | _ => groups ++ [currentGroup]
      end
  | section :: rest =>
      let closed :=
        match currentGroup with
        | [] => groups
        | _ => groups ++ [currentGroup]
        end in
      if sameType (type section) THeading then
        groupLoop rest closed [section] (content section)
      else if option_str_eqb (parentOf section) (Some heading) then
        groupLoop rest groups (currentGroup ++ [section]) heading
      else groupLoop rest closed [section] heading
  end.

Definition groupRelatedSections (sections : list ContentSection)
    : list (list ContentSection) :=
  groupLoop sections [] [] [].

(** [getContext].  [other === section] compares objects, not their
    contents: [self] is the place of [section] in [allSections], if it is
    one of them. *)
Definition truthyLine (n : option nat) : bool :=
  match n with
  | Some (S _) => true
  | _ => false
  end.

Definition distance (a b : nat) : nat := if a <? b then b - a else a - b.

Fixpoint contextOf (self : option nat) (section : ContentSection) (i : nat)
    (allSections : list ContentSection) : list str :=
  match allSections with
  | [] => []
  | other :: rest =>
      let more := contextOf self section (S i) rest in
      if match self with Some k => k =? i | None => false end then more
      else if option_str_eqb (parentOf other) (parentOf section) then
        let a := metadata other ≫= lineStart in
        let b := metadata section ≫= lineStart in
        if truthyLine a && truthyLine b then
          if distance (default 0 a) (default 0 b) <? 5 then content other :: more
          else more
        else more
      else more
  end.

Definition getContext (self : option nat) (section : ContentSection)
    (allSections : list ContentSection) : str :=
  let context :=
    match parentOf section with
    | Some (c :: h) => [lit "# " ++ (c :: h)]
    | _ => []
    end ++ contextOf self section 0 allSections in
  join [NL; NL] context.

End Analyzer.

(** ** card-generator.ts *)

Module CardGenerator.
Import JS Value Json LLM Prompt Router.

(** [CardGenerationOptions]; [maxCards] is a [number] in the code and an
    integer here. *)
Record CardGenerationOptions := mkCardOptions {
  maxCards : option Z;
  preferredTypes : option (list str);
  context : option str;
  useAnalyzer : option bool;
  threshold : option Q
}.

(** The constructor takes the router and the prompt manager; the content
    analyzer it creates has no state. *)
Record SmartCardGenerator := mkSmartGenerator {
  llmRouter : LLMRouter;
  promptManager : PromptManager
}.

(** The object literal that [parseCardResponse] pushes: five properties,
    each the value of the parsed card or its default. *)
Record CardObject := mkCardObject {
  cardType : jsval;
  cardFront : jsval;
  cardBack : jsval;
  cardTags : jsval;
  cardConfidence : jsval
}.

(** [typeof v === 'string' && v.length > 0] *)
Definition nonEmptyString (v : jsval) : bool :=
  match v with
  | JStr (_ :: _) => true
  | _ => false
  end.

Definition isString (s : str) (v : jsval) : bool :=
  match v with
  | JStr t => str_eqb t s
  | _ => false
  end.

(** [isValidCard]: an array is an object too, without any of the
    properties read here. *)
Definition isValidCard (card : jsval) : bool :=
  match card with
  | JObj fields =>
      if isString (lit "cloze") (Generator.property (lit "type") fields)
      then nonEmptyString (Generator.property (lit "text") fields)
      else nonEmptyString (Generator.property (lit "front") fields) &&
           nonEmptyString (Generator.property (lit "back") fields)
  | _ => false
  end.

Definition normalize (card : jsval) : option CardObject :=
  match card with
  | JObj fields =>
      Some {| cardType := orElse (Generator.property (lit "type") fields) (JStr (lit "basic"));
              cardFront := orElse (Generator.property (lit "front") fields) (JStr []);
              cardBack := orElse (Generator.property (lit "back") fields) (JStr []);
              cardTags := orElse (Generator.property (lit "tags") fields) (JArr []);
              cardConfidence :=
                orElse (Generator.property (lit "confidence") fields) (JNum (8 # 10)) |}
  | _ => None
  end.

Definition parseError (msg : str) : Thrown :=
  ThrownLLM
    {| message := msg;
       type := PARSE_ERROR;
       retryable := false;
       provider := None;
       originalError := None |}.

(** [parseCardResponse] on the [content] of a response. *)
Definition parseCardResponse (response : jsval) : Result (list CardObject) :=
  tryCatch
    (parsed ← Generator.parseJsonAnswer response;
     match parsed with
     | JArr items =>
         Ok (omap (fun card => if isValidCard card then normalize card else None) items)
     | _ => throwError Error_ (lit "Response is not an array")
     end)
    (fun error =>
       m ← messageOf error;
       Throw (parseError (lit "Failed to parse card response: " ++ m))).

(** [options?.preferredTypes] picks the template by its first entry. *)
Definition templateFor (options : option CardGenerationOptions) : str :=
  match options ≫= preferredTypes with
  | Some (preferredType :: _) =>
      if str_eqb preferredType (lit "cloze") then lit "generate_cloze"
      else if str_eqb preferredType (lit "qa") then lit "generate_qa"
      else lit "generate_cards"
  | _ => lit "generate_cards"
  end.

Definition generateCardsFromSection (eng : Engine) (g : SmartCardGenerator)
    (text : str) (options : option CardGenerationOptions) : M (list CardObject) :=
  messages ← liftR (renderPrompt eng (promptManager g) (templateFor options)
                      [(lit "content", text)]);
  response ← generate (llmRouter g) messages None;
  liftR (parseCardResponse (LLMResponse.content response)).

(** [options?.maxCards] when it is truthy. *)
Definition limit (options : option CardGenerationOptions) : option Z :=
  match options ≫= maxCards with
  | Some 0%Z => None
  | other => other
  end.

(** [l.slice(0, n)] for an integer [n]: a negative [n] counts from the
    end. *)
Definition slice0 {A} (n : Z) (l : list A) : list A :=
  if (n <? 0)%Z then firstn (Z.to_nat (Z.of_nat (length l) + n)) l
  else firstn (Z.to_nat n) l.

(** [options?.maxCards && allCards.length >= options.maxCards] *)
Definition reached {A} (options : option CardGenerationOptions) (allCards : list A)
    : bool :=
  match limit options with
  | Some n => (n <=? Z.of_nat (length allCards))%Z
  | None => false
  end.

(** The candidate sections with their places in [analysis.sections]: the
    objects that [getContext] compares with [===]. *)
Fixpoint enumerate {A} (i : nat) (l : list A) : list (nat * A) :=
  match l with
  | [] => []
  | x :: l' => (i, x) :: enumerate (S i) l'
  end.

Definition sectionsToProcess (text : str) (options : option CardGenerationOptions)
    : list str :=
  match options ≫= useAnalyzer with
  | Some true =>
      let analysis := Analyzer.analyzeMarkdown text in
      let candidates :=
        List.filter
          (fun p => Qle_bool Analyzer.HIGH_POTENTIAL_THRESHOLD
                      (Analyzer.cardPotential (snd p)))
          (enumerate 0 (Analyzer.sections analysis)) in
      match candidates with
      | [] => [text]
      | _ =>
          let texts :=
            List.map
              (fun p =>
                 match Analyzer.getContext (Some (fst p)) (snd p)
                         (Analyzer.sections analysis) with
                 | [] => Analyzer.content (snd p)
                 | ctx => ctx ++ [NL; NL] ++ Analyzer.content (snd p)
                 end)
              candidates in
          match limit options with
          | Some n => slice0 n texts
          | None => texts
          end
      end
  | _ => [text]
  end.

(** The loop over the sections; [break] ends it. *)
Fixpoint sectionLoop (eng : Engine) (g : SmartCardGenerator)
    (options : option CardGenerationOptions) (todo : list str)
    (allCards : list CardObject) : M (list CardObject) :=
  match todo with
  | [] => mret allCards
  | section :: rest =>
      step ← tryM
        (cards ← generateCardsFromSection eng g section options;
         mret (Some (allCards ++ cards)))
        (fun _ => mret None);
      match step with
      | Some allCards' =>
          if reached options allCards' then mret allCards'
          else sectionLoop eng g options rest allCards'
      | None => sectionLoop eng g options rest allCards
      end
  end.

Definition generateCards (eng : Engine) (g : SmartCardGenerator) (text : str)
    (options : option CardGenerationOptions) : M (list CardObject) :=
  allCards ← sectionLoop eng g options (sectionsToProcess text options) [];
  match limit options with
  | Some n => mret (slice0 n allCards)
  | None => mret allCards
  end.

(** [batchGenerateCards] *)
Fixpoint batchGenerateCards (eng : Engine) (g : SmartCardGenerator)
    (contents : list str) (options : option CardGenerationOptions)
    : M (list (list CardObject)) :=
  match contents with
  | [] => mret []
  | text :: rest =>
      cards ← tryM (generateCards eng g text options) (fun _ => mret []);
      results ← batchGenerateCards eng g rest options;
      mret (cards :: results)
  end.

(** *** parseImprovedCard *)

Record ImprovedCard := mkImproved {
  improvedFront : jsval;
  improvedBack : jsval;
  improvements : jsval
}.

(** [line.substring(line.indexOf(':') + 1)] *)
Fixpoint afterColon (line : str) : option str :=
  match line with
  | [] => None
  | c :: rest => if N.eqb c 58 then Some rest else afterColon rest
  end.

Definition valueOf (line : str) : str :=
  trim (match afterColon line with Some rest => rest | None => line end).

Inductive Field := NoField | FrontField | BackField.

(** The loop of the fallback over the lines of the response. *)
Fixpoint readFields (lines : list str) (front back : str) (currentSection : Field)
    : str * str :=
  match lines with
  | [] => (front, back)
  | line :: rest =>
      let lowerLine := toLowerCase line in
      if includes (lit "front:") lowerLine then
        readFields rest (valueOf line) back FrontField
      else if includes (lit "back:") lowerLine then
        readFields rest front (valueOf line) BackField
      else
        match currentSection, trim line with
        | FrontField, c :: t => readFields rest (front ++ lit " " ++ (c :: t)) back currentSection
        | BackField, c :: t => readFields rest front (back ++ lit " " ++ (c :: t)) currentSection
        | _, _ => readFields rest front back currentSection
        end
  end.

Definition parseImprovedCard (response : jsval) : Result ImprovedCard :=
  tryCatch
    (parsed ← Generator.parseJsonAnswer response;
     front ← get parsed (lit "front");
     back ← get parsed (lit "back");
     improved ← get parsed (lit "improvements");
     Ok {| improvedFront := orElse front (JStr []);
           improvedBack := orElse back (JStr []);
           improvements := orElse improved JUndefined |})
    (fun _ =>
       match response with
       | JStr text =>
           let '(front, back) := readFields (split_nl text) [] [] NoField in
           match front, back with
           | _ :: _, _ :: _ =>
               Ok {| improvedFront := JStr (trim front);
                     improvedBack := JStr (trim back);
                     improvements := JUndefined |}
           | _, _ => Throw (parseError (lit "Failed to parse improved card response"))
           end
       | JUndefined | JNull =>
           throwError TypeError
             (lit "Cannot read properties of " ++ nullishName response ++
              lit " (reading 'split')")
       | _ => throwError TypeError (lit "response.split is not a function")
       end).

End CardGenerator.

(** ** index.ts *)

Module System.
Import JS Value LLM Prompt Router.

(** The settings that [createLLMSystem] reads.  They are typed [any] in
    the code; the fields are those of the interfaces [LLMSettings] and
    [LLMProviderConfig] of the design (.docs/Design.md), optional where the
    code tests them. *)
Record ProviderSettings := mkProviderSettings {
  name : str;
  endpoint : str;
  apiKey : option str;
  model : str;
  enabled : bool
}.

Record LLMSettings := mkSettings {
  llmEnabled : bool;
  providers : option (list ProviderSettings);
  defaultProvider : option str;
  fallbackChain : option (list str);
  temperature : option Q;
  maxTokens : option nat;
  timeout : option nat
}.

(** The network as the providers see it: what a request gives may depend
    on the trace so far. *)
Record Network := mkNetwork {
  test : list Event -> ProviderSetup.TestRequest -> Provider.HttpOutcome;
  complete : list Event -> Provider.RequestUrlParam -> Provider.HttpOutcome
}.

(** An initialized [OpenAICompatibleProvider] as the router uses it. *)
Definition asProvider (cfg : LLMConfig.t) (net : Network) : ILLMProvider :=
  {| isAvailable := fun w => ProviderSetup.isAvailable (Some cfg) (test net w);
     generateCompletion := fun w messages =>
       Provider.generateCompletion (Some cfg) (complete net w) messages |}.

Definition configOf (settings : LLMSettings) (providerConfig : ProviderSettings)
    : LLMConfig.t :=
  {| LLMConfig.provider := name providerConfig;
     LLMConfig.apiKey := apiKey providerConfig;
     LLMConfig.endpoint := endpoint providerConfig;
     LLMConfig.model := model providerConfig;
     LLMConfig.temperature := temperature settings;
     LLMConfig.maxTokens := maxTokens settings;
     LLMConfig.timeout := timeout settings |}.

(** The loop over [llmSettings.providers]. *)
Fixpoint addProviders (settings : LLMSettings) (net : Network)
    (entries : list ProviderSettings) (router : LLMRouter) : Result LLMRouter :=
  match entries with
  | [] => Ok router
  | providerConfig :: rest =>
      if negb (enabled providerConfig) then addProviders settings net rest router
      else
        let cfg := configOf settings providerConfig in
        _ ← snd (ProviderSetup.initialize cfg (test net []));
        addProviders settings net rest
          (registerProvider (name providerConfig) (asProvider cfg net) router)
  end.

Definition createLLMSystem (llmSettings : option LLMSettings) (net : Network)
    : Result (option (LLMRouter * CardGenerator.SmartCardGenerator)) :=
  match llmSettings with
  | None => Ok None
  | Some settings =>
      if negb (llmEnabled settings) then Ok None
      else
        let router := newRouter in
        let promptManager := newPromptManager in
        router ←
          match providers settings with
          | Some (entry :: entries) =>
              router ← addProviders settings net (entry :: entries) router;
              router ←
                match given (defaultProvider settings) with
                | Some d => setDefaultProvider d router
                | None => Ok router
                end;
              match fallbackChain settings with
              | Some (f :: fs) => setFallbackChain (f :: fs) router
              | _ => Ok router
              end
          | _ => Ok router
          end;
        Ok (Some (router,
                  {| CardGenerator.llmRouter := router;
                     CardGenerator.promptManager := promptManager |}))
  end.

End System.


(** * Vocabulary of the statements

    The definitions of this module are not part of the code: they name what
    the theorems below say about it. *)

Module Spec.
Import JS Value Json LLM.

(** ** Chunks *)

Section ChunkSpec.
Import Chunker.

(** A chunk with its origin carries the estimate of its own text, and one
    pushed at a heading line has reached [minT]; the loop pushes none with
    the origin [AtEnd]. *)
Definition sized (minT : nat) (oc : Origin * DocumentChunk) : Prop :=
  tokenCount (snd oc) = estimateTokens (content (snd oc)) /\
  match fst oc with
  | AtHeading => minT <= tokenCount (snd oc)
  | AtSplit => True
  | AtEnd => False
  end.

Definition inUnit (q : Q) : Prop := (0 <= q /\ q <= 1)%Q.

Definition scored (oc : Origin * DocumentChunk) : Prop :=
  level (snd oc) <= 6 /\ inUnit (importance (snd oc)).

Definition leveled (s : Scan) : Prop :=
  currentLevel s <= 6 /\ Forall scored (chunks s).

Definition unsplit (s : Scan) : Prop :=
  Forall (fun oc => fst oc <> AtSplit) (chunks s).

(** The chunks pushed so far are numbered from 0 up to the counter. *)
Definition indexed (s : Scan) : Prop :=
  List.map (fun oc => index (snd oc)) (chunks s) = seq 0 (chunkIndex s).

(** A run of consecutive input lines: the lines of one chunk, or a buffer
    that was thrown away. *)
Inductive Piece := Kept (ls : list str) | Dropped (ls : list str).

Definition pieceLines (p : Piece) : list str :=
  match p with Kept ls | Dropped ls => ls end.

Definition keptText (p : Piece) : option str :=
  match p with Kept ls => Some (join_nl ls) | Dropped _ => None end.

Definition undersized (minT : nat) (p : Piece) : Prop :=
  match p with
  | Dropped ls => ls <> [] /\ estimateTokens (join_nl ls) < minT
  | Kept _ => True
  end.

Definition isHeading (line : str) : Prop := headingMatch line <> None.

Definition startsWithHeading (ls : list str) : Prop :=
  match ls with l :: _ => isHeading l | [] => False end.

Definition headingOrEnd (ls : list str) : Prop :=
  match ls with l :: _ => isHeading l | [] => True end.

(** Every dropped piece is followed, in the pieces after it and then in
    [tail], by lines that satisfy [next]. *)
Fixpoint dropsFollowed (next : list str -> Prop) (pieces : list Piece)
    (tail : list str) : Prop :=
  match pieces with
  | [] => True
  | p :: rest =>
      match p with
      | Dropped _ => next (concat (List.map pieceLines rest) ++ tail)
      | Kept _ => True
      end /\ dropsFollowed next rest tail
  end.

(** The invariant of the loop: the pieces and the buffer make up the lines
    read so far, the kept pieces are the chunks, in order, and a dropped
    piece is undersized and followed by a heading line. *)
Definition Inv (minT : nat) (pieces : list Piece) (s : Scan) (done : list str) : Prop :=
  concat (List.map pieceLines pieces) ++ currentChunk s = done /\
  omap keptText pieces = List.map (fun oc => content (snd oc)) (chunks s) /\
  Forall (undersized minT) pieces /\
  dropsFollowed startsWithHeading pieces (currentChunk s).

Definition bounds (maxT minT : nat) : option ChunkingOptions :=
  Some {| maxTokens := Some maxT; minTokens := Some minT |}.

End ChunkSpec.

(** ** Router *)

Section RouterSpec.
Import Router.

(** What [generateWithRetry] does on a provider that fails with the
    retryable errors [errors] one after the other, from round [attempt]
    on: a call per error, and between two calls the backoff. *)
Fixpoint retrySchedule (delay : Z) (name : str) (messages : list LLMMessage.t)
    (errors : list LLMError) (attempt : nat) : list Event :=
  match errors with
  | [] => []
  | e :: rest =>
      EvGenerate name messages (Throw (ThrownLLM e)) ::
      match rest with
      | [] => []
      | _ =>
          EvSleep (delay * 2 ^ Z.of_nat attempt) ::
          retrySchedule delay name messages rest (S attempt)
      end
  end.

Definition isCall (e : Event) : bool :=
  match e with EvGenerate _ _ _ => true | _ => false end.

Definition sleepOf (e : Event) : option Z :=
  match e with EvSleep ms => Some ms | _ => None end.

Definition isSuccess (e : Event) : Prop :=
  match e with EvGenerate _ _ (Ok _) => True | _ => False end.

Definition noSuccess (evs : list Event) : Prop :=
  Forall (fun e => ~ isSuccess e) evs.

(** An event that concerns one of the providers [names]. *)
Definition eventOf (names : list str) (e : Event) : Prop :=
  match e with
  | EvIsAvailable n _ | EvGenerate n _ _ => In n names
  | EvSleep _ => True
  end.

(** An event that is a call of the provider [n]. *)
Definition concerns (n : str) (e : Event) : Prop :=
  match e with
  | EvIsAvailable n' _ | EvGenerate n' _ _ => n' = n
  | EvSleep _ => False
  end.

(** The outcome of a run over [chain] with the events [evs]: a response
    comes from the last event, a successful call of a provider of the chain,
    with only providers up to that one involved and no success before; a
    failure has no success at all. *)
Definition routed (messages : list LLMMessage.t) (chain : list str)
    (res : Result LLMResponse.t) (evs : list Event) : Prop :=
  match res with
  | Ok resp =>
      exists earlier name later pre,
        chain = earlier ++ name :: later /\
        evs = pre ++ [EvGenerate name messages (Ok resp)] /\
        noSuccess pre /\
        Forall (eventOf (earlier ++ [name])) evs
  | Throw _ => noSuccess evs /\ Forall (eventOf chain) evs
  end.

(** Every call of [p] with [messages] fails with a retryable [LLMError]. *)
Definition alwaysRetryable (p : ILLMProvider) (messages : list LLMMessage.t) : Prop :=
  forall w, exists e, generateCompletion p w messages = Throw (ThrownLLM e) /\
                      retryable e = true.

(** Providers for examples: one that answers, one that fails. *)
Definition answer (text : str) : LLMResponse.t :=
  {| LLMResponse.content := JStr text;
     LLMResponse.usage :=
       {| Usage.promptTokens := JNum 0; Usage.completionTokens := JNum 0;
          Usage.totalTokens := JNum 0 |};
     LLMResponse.model := JStr (lit "mock");
     LLMResponse.finishReason := JStr (lit "stop") |}.

Definition answering (text : str) : ILLMProvider :=
  {| isAvailable := fun _ => Ok true;
     generateCompletion := fun _ _ => Ok (answer text) |}.

Definition failing (e : LLMError) : ILLMProvider :=
  {| isAvailable := fun _ => Ok true;
     generateCompletion := fun _ _ => Throw (ThrownLLM e) |}.

Definition serverError : LLMError :=
  {| message := lit "Server error: 500"; type := API_ERROR; retryable := true;
     provider := Some (lit "p1"); originalError := None |}.

Definition authError : LLMError :=
  {| message := lit "Authentication failed: 401"; type := AUTHENTICATION_ERROR;
     retryable := false; provider := Some (lit "p1"); originalError := None |}.

Definition orNew (r : Result LLMRouter) : LLMRouter :=
  match r with Ok r' => r' | Throw _ => newRouter end.

(** [p1] is the default and [p2] the fallback. *)
Definition twoProviders (p1 p2 : ILLMProvider) : LLMRouter :=
  orNew (setFallbackChain [lit "p2"]
    (orNew (setDefaultProvider (lit "p1")
      (registerProvider (lit "p2") p2
        (registerProvider (lit "p1") p1 newRouter))))).

Definition hello : list LLMMessage.t :=
  [ {| LLMMessage.role := system; LLMMessage.content := lit "s" |};
    {| LLMMessage.role := user; LLMMessage.content := lit "u" |} ].

End RouterSpec.

(** ** Provider *)

Section ProviderSpec.
Import Provider.

(** [data.choices[0].message], read without any guard. *)
Definition messagePath (data : jsval) : Result jsval :=
  choices ← get data (lit "choices");
  first ← get0 choices;
  get first (lit "message").

(** The payload has no [choices[0].message]: reading it fails or gives
    [undefined]. *)
Definition lacksMessage (data : jsval) : Prop :=
  match messagePath data with
  | Ok JUndefined | Throw _ => True
  | Ok _ => False
  end.

(** A result that is a thrown [LLMError] of the given kind. *)
Definition raises {A} (res : Result A) (kind : LLMErrorType) (retry : bool) : Prop :=
  exists e, res = Throw (ThrownLLM e) /\ type e = kind /\ retryable e = retry.

Definition sampleConfig : LLMConfig.t :=
  {| LLMConfig.provider := lit "local";
     LLMConfig.apiKey := None;
     LLMConfig.endpoint := lit "http://localhost:11434/v1/chat/completions";
     LLMConfig.model := lit "llama3";
     LLMConfig.temperature := None;
     LLMConfig.maxTokens := None;
     LLMConfig.timeout := None |}.

Definition responding (status : Z) (data : jsval) : RequestUrlParam -> HttpOutcome :=
  fun _ => Responded {| status := status; text := []; json := data |}.

End ProviderSpec.

(** ** Prompts *)

Section PromptSpec.
Import Prompt.

(** The substitution as the specification words it: every occurrence of
    the placeholder gives way to the value, taken as it is. *)
Fixpoint replaceVerbatim (pat value : str) (skip : nat) (s : str) : str :=
  match s with
  | [] => []
  | c :: s' =>
      match skip with
      | S k => replaceVerbatim pat value k s'
      | 0 =>
          if prefix_by N.eqb pat s
          then value ++ replaceVerbatim pat value (length pat - 1) s'
          else c :: replaceVerbatim pat value 0 s'
      end
  end.

Definition substituteVerbatim (vars : list (str * str)) (template : str) : str :=
  fold_left (fun t kv => replaceVerbatim (placeholder (fst kv)) (snd kv) 0 t)
    vars template.

(** An engine for examples; no theorem depends on what it answers. *)
Definition anyEngine : Engine :=
  {| otherRegExp := fun _ s _ => Ok s; fractionToString := fun _ => lit "0.5" |}.

End PromptSpec.

(** ** Generator *)

Section GeneratorSpec.
Import Generator.

(** The batch quality as the specification words it: the mean of the
    confidences, 0.8 standing in where a card gives none, times the
    penalty of the count. *)
Definition specBatchQuality (cards : list GeneratedCard) : Q :=
  match cards with
  | [] => 0
  | _ =>
      (fold_left (fun sum card => sum + default (8 # 10) (confidence card)) cards 0
       / inject_Z (Z.of_nat (length cards)) *
       (if length cards <? 2 then 8 # 10
        else if 10 <? length cards then 9 # 10 else 1))%Q
  end.

(** The cards of the batches among the items of a stream. *)
Fixpoint batchCards (items : list Item) : nat :=
  match items with
  | [] => 0
  | Batch b :: rest => length (cards b) + batchCards rest
  | Progress _ :: rest => batchCards rest
  end.

Definition isCompleted (item : Item) : Prop :=
  match item with
  | Progress p => phase p = completed
  | Batch _ => False
  end.

Definition planningItem : Item :=
  Progress {| phase := planning; currentChunk := None; totalChunks := None;
              cardsGenerated := 0;
              progressMessage := lit "Analyzing document structure..." |}.

Definition analyzingItem : Item :=
  Progress {| phase := analyzing; currentChunk := None; totalChunks := None;
              cardsGenerated := 0;
              progressMessage := lit "Breaking document into sections..." |}.

Definition completedItem (total : nat) : Item :=
  Progress {| phase := completed; currentChunk := None; totalChunks := None;
              cardsGenerated := total;
              progressMessage :=
                lit "Generated " ++ nat_to_str total ++ lit " cards successfully!" |}.

Definition rangeError : Thrown :=
  ThrownError {| errName := RangeError; errMessage := lit "Invalid count value: -1" |}.

(** The bounds that [generateCardsMultiPass] passes to the chunker. *)
Definition passBounds : option Chunker.ChunkingOptions :=
  Some {| Chunker.maxTokens := Some 1500; Chunker.minTokens := Some 200 |}.

(** A document of three sections, and a provider that fails on its third
    call, which is the call for the second chunk. *)
Definition threeSections : str :=
  join_nl [lit "# A"; repeat 97%N 900; lit "# B"; repeat 98%N 900;
           lit "# C"; repeat 99%N 900].

Definition cardsAnswer : str :=
  Prompt.litq "```json
{~cards~:[{~front~:~q1~,~back~:~a1~},{~front~:~q2~,~back~:~a2~,~confidence~:0.9}],~sectionSummary~:~s~}
```".

Definition failsOnThirdCall : Router.ILLMProvider :=
  {| Router.isAvailable := fun _ => Ok true;
     Router.generateCompletion := fun w _ =>
       if length (List.filter isCall w) =? 2
       then Throw (ThrownLLM authError)
       else Ok (answer cardsAnswer) |}.

End GeneratorSpec.

(** ** Chunks: line numbers, keywords and the overview *)

Section ChunkToolsSpec.
Import Chunker.

(** The lines from [first] to [last], both included:
    [lines.slice(first, last + 1)]. *)
Definition linesBetween (lines : list str) (first last : Z) : list str :=
  firstn (Z.to_nat (last - first + 1)) (skipn (Z.to_nat first) lines).

(** A chunk holds the lines of its range, which is not empty and lies in
    the input. *)
Definition ranged (lines : list str) (c : DocumentChunk) : Prop :=
  (0 <= startLine c <= endLine c)%Z /\
  (endLine c < Z.of_nat (length lines))%Z /\
  content c = join_nl (linesBetween lines (startLine c) (endLine c)).

Definition before (a b : DocumentChunk) : Prop := (endLine a < startLine b)%Z.

(** What the loop keeps about line numbers: the buffer holds the lines
    read so far from [start] on, and every chunk pushed so far holds the
    lines of its range, which ends before [start] and before the range of
    the chunk pushed after it. *)
Definition trackedAt (done : list str) (cs : list (Origin * DocumentChunk))
    (buf : list str) (start : Z) : Prop :=
  (start = Z.of_nat (length done) - Z.of_nat (length buf))%Z /\
  skipn (Z.to_nat start) done = buf /\
  Forall (fun oc => ranged done (snd oc) /\ (endLine (snd oc) < start)%Z) cs /\
  StronglySorted before (List.map snd cs).

Definition tracked (done : list str) (i : nat) (s : Scan) : Prop :=
  i = length done /\
  trackedAt done (chunks s) (currentChunk s) (startLineOf s).

(** Keywords as a [Set] holds them: no keyword twice, none empty. *)
Definition keywordSet (ks : list str) : Prop :=
  NoDup ks /\ Forall (fun k => k <> []) ks.

(** The line of a chunk in the overview. *)
Definition overviewLine (c : DocumentChunk) : str :=
  repeat_str (lit "  ") (level c - 1) ++ lit "- " ++ heading c.

End ChunkToolsSpec.

(** ** Router: what is thrown, which names, how many calls *)

Section RouterMoreSpec.
Import Router.

(** A provider that throws no [null]: whatever it throws has a
    [message]. *)
Definition throwsNoNull (p : ILLMProvider) : Prop :=
  forall w, isAvailable p w <> Throw ThrownNull /\
            forall messages, generateCompletion p w messages <> Throw ThrownNull.

(** The routers that the methods of the class build. *)
Inductive built : LLMRouter -> Prop :=
| built_new : built newRouter
| built_register name p r : built r -> built (registerProvider name p r)
| built_default name r r' :
    built r -> setDefaultProvider name r = Ok r' -> built r'
| built_fallback names r r' :
    built r -> setFallbackChain names r = Ok r' -> built r'
| built_retry attempts delay r : built r -> built (setRetryConfig attempts delay r).

Definition namesRegistered (r : LLMRouter) : Prop :=
  (forall d, defaultProvider r = Some d -> has r d = true) /\
  Forall (fun n => has r n = true) (fallbackProviders r).

(** The calls of [generateCompletion] and of [isAvailable] on the provider
    [n] among the events. *)
Definition callsTo (n : str) (evs : list Event) : nat :=
  length (List.filter
            (fun e => match e with
                      | EvGenerate n' _ _ => str_eqb n' n
                      | _ => false
                      end) evs).

Definition probesOf (n : str) (evs : list Event) : nat :=
  length (List.filter
            (fun e => match e with
                      | EvIsAvailable n' _ => str_eqb n' n
                      | _ => false
                      end) evs).

(** At most [k] calls and one probe of a provider of [chain], none of any
    other. *)
Definition withinBudget (k : nat) (chain : list str) (evs : list Event) : Prop :=
  forall n,
    (In n chain -> callsTo n evs <= k /\ probesOf n evs <= 1) /\
    (~ In n chain -> callsTo n evs = 0 /\ probesOf n evs = 0).

(** What a run of the retry loop adds: calls of this provider only, at
    most one a round. *)
Definition retried (name : str) (k : nat) (evs : list Event) : Prop :=
  callsTo name evs <= k /\
  (forall n, probesOf n evs = 0) /\
  (forall n, n <> name -> callsTo n evs = 0).

Definition isInvalidConfig (t : Thrown) : Prop :=
  exists e, t = ThrownLLM e /\ type e = INVALID_CONFIG /\ retryable e = false.

Definition isParseError (t : Thrown) : Prop :=
  exists e, t = ThrownLLM e /\ type e = PARSE_ERROR /\ retryable e = false.

(** A router that came out of the class's methods with the three retry
    rounds of the constructor and providers that throw no [null]. *)
Definition sound (r : LLMRouter) : Prop :=
  built r /\ retryAttempts r = 3 /\
  forall n p, providers r !! n = Some p -> throwsNoNull p.

(** The router with the one provider [p], named [p1] and the default. *)
Definition soleProvider (p : ILLMProvider) : LLMRouter :=
  orNew (setDefaultProvider (lit "p1") (registerProvider (lit "p1") p newRouter)).

End RouterMoreSpec.

(** ** Provider: a payload with a message *)

Section ProviderMoreSpec.
Import Provider.

(** The payload has a [choices[0].message] that is not falsy. *)
Definition hasMessage (data : jsval) (msg : jsval) : Prop :=
  messagePath data = Ok msg /\ truthy msg = true.

End ProviderMoreSpec.

(** ** Generator: the order of the batches *)

Section GeneratorMoreSpec.
Import Generator.

(** The chunk ids of the batches among the items of a stream. *)
Definition batchIds (items : list Item) : list str :=
  omap (fun item => match item with Batch b => Some (chunkId b) | Progress _ => None end)
    items.

(** A progress event of pass 3 is yielded below the limit and counts the
    chunks of the run. *)
Definition inPass3 (maxC n : nat) (item : Item) : Prop :=
  match item with
  | Progress p =>
      phase p = generating ->
      cardsGenerated p < maxC /\ totalChunks p = Some n /\
      exists k, currentChunk p = Some k /\ 1 <= k <= n
  | Batch _ => True
  end.

Definition moreImportant (a b : Chunker.DocumentChunk) : Prop :=
  (Chunker.importance b <= Chunker.importance a)%Q.

(** A line that [createDocumentSummary] takes as a sample. *)
Definition sampleLine (line : str) : bool :=
  negb (startsHeading line) && (50 <? length (trim line)).

End GeneratorMoreSpec.

(** ** Smart card generator *)

Section CardGeneratorSpec.
Import CardGenerator.

(** What [parseCardResponse] lets through: the defaults make type, tags
    and confidence truthy, and a card that is no cloze has a front and a back
    of at least one code unit. *)
Definition checkedCard (c : CardObject) : Prop :=
  truthy (cardType c) = true /\
  truthy (cardTags c) = true /\
  truthy (cardConfidence c) = true /\
  (cardType c = JStr (lit "cloze") \/
   (nonEmptyString (cardFront c) = true /\ nonEmptyString (cardBack c) = true)).

(** A text with a code unit that is no whitespace. *)
Definition hasInk (s : str) : bool := existsb (fun c => negb (isSpace c)) s.

Definition inked (s : str) : Prop := s = [] \/ hasInk s = true.

(** The first and the last code unit of a text are no whitespace. *)
Definition edges (s : str) : Prop :=
  match s with
  | c :: _ => isSpace c = false /\ exists d, last s = Some d /\ isSpace d = false
  | [] => True
  end.

(** A text as [trim] leaves it, and not empty. *)
Definition cleanText (v : jsval) : Prop :=
  exists s, v = JStr s /\ s <> [] /\ trim s = s.

End CardGeneratorSpec.

(** ** Content analyzer *)

Section AnalyzerSpec.
Import Analyzer.

(** The first and the last line of a section. *)
Definition span (s : ContentSection) : option (nat * nat) :=
  m ← metadata s;
  a ← lineStart m;
  b ← lineEnd m;
  Some (a, b).

Definition spanned (n : nat) (s : ContentSection) : Prop :=
  exists a b, span s = Some (a, b) /\ 1 <= a <= b /\ b <= n.

Definition above (s t : ContentSection) : Prop :=
  match span s, span t with
  | Some (_, b), Some (a, _) => b < a
  | _, _ => False
  end.

(** The score that the type of a section fixes, or the range it leaves. *)
Definition scoredByType (s : ContentSection) : Prop :=
  match type s with
  | TList => cardPotential s = (8 # 10)%Q
  | TQuote => cardPotential s = (7 # 10)%Q
  | TTable => cardPotential s = (75 # 100)%Q
  | TCode => cardPotential s = (4 # 10)%Q
  | TParagraph => (3 # 10 <= cardPotential s /\ cardPotential s <= 1)%Q
  | THeading =>
      exists k, level s = Some k /\ 1 <= k /\
                (cardPotential s <= 1)%Q /\
                (k <= 6 -> (5 # 10 <= cardPotential s)%Q)
  end.

(** Every transition of the loop leaves the sections pushed so far with
    the current one as they are, adds a section at the end, or changes the
    last one. *)
Inductive Transition (n : nat) (old new : list ContentSection) : Prop :=
| Same : new = old -> Transition n old new
| Added s : new = old ++ [s] -> span s = Some (n, n) ->
    scoredByType s -> Transition n old new
| Grown front c c' : old = front ++ [c] -> new = front ++ [c'] ->
    type c' = type c -> level c' = level c -> cardPotential c' = cardPotential c ->
    (forall a b, span c = Some (a, b) ->
       exists b', span c' = Some (a, b') /\ (b' = b \/ b' = n)) ->
    Transition n old new.

Definition sectionsInv (n : nat) (l : list ContentSection) : Prop :=
  Forall (spanned n) l /\ StronglySorted above l /\ Forall scoredByType l.

(** A group with no heading after its first section. *)
Definition headingFirst (g : list ContentSection) : Prop :=
  Forall (fun s => sameType (type s) THeading = false) (tail g).

End AnalyzerSpec.

End Spec.

(** * Facts about the chunker *)

Module ChunkerFacts.
Import JS Chunker Spec.


Lemma scanDown_pos p ls i j : scanDown p ls i = Some j -> 0 < j.
Proof.
  induction i as [|i IH]; simpl; [discriminate|].
  destruct (_ <? _); [|discriminate].
  destruct (p (nth (S i) ls [])); [intros [= <-]; lia|].
  auto.
Qed.

Lemma findSplitPoint_single line : findSplitPoint [line] = 0.
Proof. reflexivity. Qed.

Lemma findSplitPoint_pos ls : 2 <= length ls -> 0 < findSplitPoint ls.
Proof.
  intros H. unfold findSplitPoint.
  destruct (scanDown isBlank ls (length ls - 1)) eqn:E1.
  - eauto using scanDown_pos.
  - destruct (scanDown endsSentence ls (length ls - 1)) eqn:E2; [lia|].
    apply Nat.div_str_pos. lia.
Qed.



Lemma scan_preserves (P : Scan -> Prop) maxT minT :
  (forall i line s, P s -> P (body maxT minT i line s)) ->
  forall lines i s, P s -> P (scan maxT minT i lines s).
Proof.
  intros Hbody lines. induction lines as [|l ls IH]; simpl; auto.
Qed.

Lemma makeChunk_tokens s text last :
  tokenCount (makeChunk s text last) = estimateTokens (content (makeChunk s text last)).
Proof. reflexivity. Qed.

Lemma body_sized maxT minT i line s :
  Forall (sized minT) (chunks s) -> Forall (sized minT) (chunks (body maxT minT i line s)).
Proof.
  intros H. unfold body. destruct (headingMatch line) as [[hashes title]|].
  - unfold onHeading. destruct (currentChunk s) as [|b bs] eqn:Eb; simpl; [exact H|].
    destruct (minT <=? _) eqn:Emin; simpl; [|exact H].
    apply Forall_app. split; [exact H|].
    constructor; [|constructor]. split; [reflexivity|].
    simpl. apply Nat.leb_le in Emin. exact Emin.
  - unfold onLine. destruct (maxT <=? _); simpl; [|exact H].
    destruct (0 <? _); simpl; [|exact H].
    apply Forall_app. split; [exact H|].
    constructor; [|constructor]. split; [reflexivity|exact I].
Qed.

Lemma scan_sized maxT minT lines i s :
  Forall (sized minT) (chunks s) -> Forall (sized minT) (chunks (scan maxT minT i lines s)).
Proof.
  apply (scan_preserves (fun s => Forall (sized minT) (chunks s))).
  intros. now apply body_sized.
Qed.

(** What [finish] adds. *)
Lemma finish_chunks minT n s :
  chunks (finish minT n s) = chunks s \/
  exists c, chunks (finish minT n s) = chunks s ++ [(AtEnd, c)] /\
            tokenCount c = estimateTokens (content c) /\
            minT <= 2 * tokenCount c /\
            content c = join_nl (currentChunk s) /\ currentChunk s <> [].
Proof.
  unfold finish. destruct (currentChunk s) as [|b bs] eqn:Eb; [now left|].
  destruct (minT <=? _) eqn:E; [|now left].
  right. eexists. split; [reflexivity|].
  apply Nat.leb_le in E. simpl. repeat split; auto; discriminate.
Qed.

Lemma orDefault_pos n d : 0 < n -> orDefault (Some n) d = n.
Proof. destruct n; [lia|reflexivity]. Qed.

Lemma chunkLines_sizes maxT minT lines :
  let tagged := chunks (chunkLines maxT minT lines) in
  (forall o c, In (o, c) tagged -> tokenCount c = estimateTokens (content c)) /\
  (forall c, In (AtHeading, c) tagged -> minT <= tokenCount c) /\
  (forall c, In (AtEnd, c) tagged ->
     minT <= 2 * tokenCount c /\ last tagged = Some (AtEnd, c)).
Proof.
  unfold chunkLines.
  pose proof (scan_sized maxT minT lines 0 initial ltac:(constructor)) as Hs.
  set (s := scan maxT minT 0 lines initial) in *.
  rewrite List.Forall_forall in Hs.
  destruct (finish_chunks minT (length lines) s) as [E|(c0 & E & Ht & Hm & _)];
    rewrite E; simpl.
  - split; [|split].
    + intros o c Hin. apply (Hs _ Hin).
    + intros c Hin. apply (Hs _ Hin).
    + intros c Hin. destruct (Hs _ Hin) as [_ []].
  - split; [|split].
    + intros o c Hin.
      apply in_app_or in Hin as [Hin|[[= <- <-]|[]]]; [apply (Hs _ Hin)|exact Ht].
    + intros c Hin. apply in_app_or in Hin as [Hin|[[=]|[]]]. apply (Hs _ Hin).
    + intros c Hin.
      apply in_app_or in Hin as [Hin|[[= <-]|[]]]; [destruct (Hs _ Hin) as [_ []]|].
      split; [exact Hm|apply last_snoc].
Qed.

Lemma chunk_empty maxT minT : 0 < maxT -> 0 < minT ->
  chunks (chunkLines maxT minT (split_nl [])) = [].
Proof.
  intros Hmax Hmin. unfold chunkLines. simpl.
  unfold body, onLine, finish. simpl.
  destruct maxT; [lia|]. destruct minT; [lia|]. reflexivity.
Qed.

(** *** Levels and importance *)

Lemma headingMatch_level line k t : headingMatch line = Some (k, t) -> 1 <= k <= 6.
Proof.
  unfold headingMatch.
  destruct ((1 <=? countHashes line) && (countHashes line <=? 6)) eqn:E; [|discriminate].
  destruct (headingTitle _ _); [|discriminate].
  intros [= <- _]. apply andb_prop in E as [E1 E2].
  apply Nat.leb_le in E1, E2. lia.
Qed.

Lemma addKeywordScores_ge text score : (score <= addKeywordScores text score)%Q.
Proof.
  unfold addKeywordScores. generalize importantKeywords.
  intros ks. revert score. induction ks as [|k ks IH]; intros score; simpl; [lra|].
  destruct (includes k (toLowerCase text)).
  - specialize (IH (score + (5 # 100))%Q). lra.
  - apply IH.
Qed.

Lemma calculateImportance_unit text lvl : lvl <= 6 -> inUnit (calculateImportance text lvl).
Proof.
  intros Hl. unfold inUnit, calculateImportance. split; [|apply Q.le_min_r].
  apply Q.min_glb; [|lra].
  eapply Qle_trans; [|apply addKeywordScores_ge].
  assert (H0 : (0 <= inject_Z (6 - Z.of_nat lvl) * (5 # 100))%Q).
  { apply Qmult_le_0_compat; [|lra]. change 0%Q with (inject_Z 0). rewrite <- Zle_Qle. lia. }
  assert (H1 : (0 <= Qmin (inject_Z (Z.of_nat (emphasisCount text)) * (2 # 100)) (1 # 10))%Q).
  { apply Q.min_glb; [|lra]. apply Qmult_le_0_compat; [|lra].
    change 0%Q with (inject_Z 0). rewrite <- Zle_Qle. lia. }
  cbv zeta. revert H0 H1.
  generalize (inject_Z (6 - Z.of_nat lvl) * (5 # 100))%Q.
  generalize (Qmin (inject_Z (Z.of_nat (emphasisCount text)) * (2 # 100)) (1 # 10)).
  intros a b Hb Ha. clear Hl.
  destruct (hasDefinition text), (hasListMarker text), (hasCodeFence text); lra.
Qed.

Lemma makeChunk_scored o s text last : currentLevel s <= 6 -> scored (o, makeChunk s text last).
Proof.
  intros H. split; simpl; [exact H|]. now apply calculateImportance_unit.
Qed.

Lemma body_leveled maxT minT i line s : leveled s -> leveled (body maxT minT i line s).
Proof.
  intros [Hl Hc]. unfold body. destruct (headingMatch line) as [[hashes title]|] eqn:Eh.
  - apply headingMatch_level in Eh. unfold onHeading.
    destruct (currentChunk s) as [|b bs]; simpl; [split; simpl; [lia|exact Hc]|].
    destruct (minT <=? _); simpl; (split; [simpl; lia|]); [|exact Hc].
    simpl. apply Forall_app. split; [exact Hc|]. constructor; [|constructor].
    now apply makeChunk_scored.
  - unfold onLine. destruct (maxT <=? _); simpl; [|split; assumption].
    destruct (0 <? _); simpl; [|split; assumption].
    split; [exact Hl|]. apply Forall_app. split; [exact Hc|].
    constructor; [|constructor]. now apply makeChunk_scored.
Qed.

Lemma chunkLines_scored maxT minT lines :
  Forall scored (chunks (chunkLines maxT minT lines)).
Proof.
  unfold chunkLines.
  assert (H : leveled (scan maxT minT 0 lines initial)).
  { apply scan_preserves; [intros; now apply body_leveled|].
    split; [simpl; lia|constructor]. }
  destruct H as [Hl Hc]. unfold finish.
  destruct (currentChunk _); [exact Hc|].
  destruct (minT <=? _); [|exact Hc].
  simpl. apply Forall_app. split; [exact Hc|]. constructor; [|constructor].
  now apply makeChunk_scored.
Qed.


(** ** Lines and the size split *)


Lemma split_nl_nonempty s : split_nl s <> [].
Proof.
  destruct s as [|c s]; simpl; [discriminate|].
  destruct (N.eqb c NL); [discriminate|].
  destruct (split_nl s); discriminate.
Qed.

Lemma join_nl_cons l ls : ls <> [] -> join_nl (l :: ls) = l ++ NL :: join_nl ls.
Proof. destruct ls; [congruence|reflexivity]. Qed.

Lemma join_split text : join_nl (split_nl text) = text.
Proof.
  induction text as [|c s IH]; [reflexivity|]. simpl.
  destruct (N.eqb c NL) eqn:E.
  - apply N.eqb_eq in E. subst c.
    rewrite join_nl_cons by apply split_nl_nonempty. simpl. now rewrite IH.
  - pose proof (split_nl_nonempty s) as Hne.
    destruct (split_nl s) as [|l ls]; [congruence|].
    destruct ls as [|l' ls].
    + unfold join_nl in *. simpl in *. now rewrite IH.
    + rewrite join_nl_cons by discriminate.
      rewrite join_nl_cons in IH by discriminate. simpl. now rewrite IH.
Qed.

Lemma split_nl_line (line : str) : ~ In NL line -> split_nl line = [line].
Proof.
  induction line as [|c s IH]; [reflexivity|]. simpl. intros H.
  destruct (N.eqb c NL) eqn:E.
  - apply N.eqb_eq in E. exfalso. apply H. now left.
  - rewrite IH by tauto. reflexivity.
Qed.

Lemma length_join_cons l ls :
  length (join_nl (l :: ls)) =
  length l + match ls with [] => 0 | _ => S (length (join_nl ls)) end.
Proof.
  destruct ls as [|y ls]; [unfold join_nl; simpl; lia|].
  rewrite join_nl_cons by discriminate. rewrite length_app. reflexivity.
Qed.

Lemma length_join_app_r b c : length (join_nl b) <= length (join_nl (b ++ c)).
Proof.
  induction b as [|x b IH]; [unfold join_nl; simpl; lia|].
  rewrite <- app_comm_cons, !length_join_cons.
  destruct b as [|y b].
  - simpl. destruct c; lia.
  - simpl in *. lia.
Qed.

Lemma length_join_app_l a b : length (join_nl b) <= length (join_nl (a ++ b)).
Proof.
  induction a as [|x a IH]; [simpl; lia|].
  rewrite <- app_comm_cons, length_join_cons.
  destruct (a ++ b) eqn:E.
  - destruct a; [|discriminate]. simpl in E. subst b. unfold join_nl. simpl. lia.
  - lia.
Qed.

Lemma length_join_middle a b c :
  length (join_nl b) <= length (join_nl (a ++ b ++ c)).
Proof.
  etransitivity; [apply (length_join_app_r b c)|apply length_join_app_l].
Qed.

Lemma estimateTokens_mono s t : length s <= length t -> estimateTokens s <= estimateTokens t.
Proof. intros H. unfold estimateTokens. apply Nat.Div0.div_le_mono. lia. Qed.

Lemma estimateTokens_long maxT line : 4 * maxT < length line -> maxT < estimateTokens line.
Proof.
  intros H. unfold estimateTokens.
  apply Nat.div_le_lower_bound; lia.
Qed.

(** While every run of consecutive lines stays below [maxTokens], the
    size split never fires. *)
Lemma scan_unsplit maxT minT all : estimateTokens (join_nl all) < maxT ->
  forall rest before s i,
    before ++ currentChunk s ++ rest = all -> unsplit s ->
    unsplit (scan maxT minT i rest s).
Proof.
  intros Hall rest. induction rest as [|line rest IH]; intros before s i Hcat Hs; simpl.
  - exact Hs.
  - unfold body. destruct (headingMatch line) as [[hashes title]|].
    + unfold onHeading. destruct (currentChunk s) as [|b bs] eqn:Eb.
      * apply (IH before); simpl; [|exact Hs]. rewrite Eb. exact Hcat.
      * apply (IH (before ++ b :: bs)); simpl.
        -- rewrite <- Hcat. now rewrite <- app_assoc.
        -- destruct (minT <=? _); simpl; [|exact Hs].
           apply Forall_app. split; [exact Hs|]. constructor; [discriminate|constructor].
    + unfold onLine.
      assert (Hsmall : (maxT <=? estimateTokens (join_nl (currentChunk s ++ [line]))) = false).
      { apply Nat.leb_gt. eapply Nat.le_lt_trans; [|exact Hall].
        apply estimateTokens_mono. rewrite <- Hcat.
        replace (before ++ currentChunk s ++ line :: rest)
          with (before ++ (currentChunk s ++ [line]) ++ rest)
          by (now rewrite <- (app_assoc (currentChunk s))).
        apply length_join_middle. }
      rewrite Hsmall. apply (IH before); simpl; [|exact Hs].
      rewrite <- Hcat. now rewrite <- app_assoc.
Qed.

Lemma chunkLines_unsplit maxT minT lines :
  estimateTokens (join_nl lines) < maxT ->
  forall o c, In (o, c) (chunks (chunkLines maxT minT lines)) -> o <> AtSplit.
Proof.
  intros Hall o c Hin.
  assert (H : unsplit (scan maxT minT 0 lines initial)).
  { apply (scan_unsplit maxT minT lines Hall lines []); [|constructor].
    reflexivity. }
  unfold chunkLines, finish in Hin.
  destruct (currentChunk _) in Hin.
  - unfold unsplit in H. rewrite List.Forall_forall in H. apply (H _ Hin).
  - destruct (minT <=? _) in Hin.
    + simpl in Hin. apply in_app_or in Hin as [Hin|[[= <- _]|[]]]; [|discriminate].
      unfold unsplit in H. rewrite List.Forall_forall in H. apply (H _ Hin).
    + unfold unsplit in H. rewrite List.Forall_forall in H. apply (H _ Hin).
Qed.

(** One long line: nothing to split, and the flush at the end keeps it. *)
Lemma chunkLines_long_line maxT minT line :
  0 < minT -> minT <= maxT -> headingMatch line = None -> 4 * maxT < length line ->
  chunks (chunkLines maxT minT [line]) =
    [(AtEnd, makeChunk
               {| chunks := []; currentChunk := [line];
                  currentHeading := lit "Introduction"; currentLevel := 0;
                  chunkIndex := 0; startLineOf := 0 |} line 0)].
Proof.
  intros Hmin Hle Hh Hlong.
  pose proof (estimateTokens_long maxT line Hlong) as Hest.
  unfold chunkLines. simpl. unfold body. rewrite Hh. unfold onLine. simpl.
  change (join_nl [line]) with line.
  rewrite (proj2 (Nat.leb_le maxT (estimateTokens line))) by lia.
  change (findSplitPoint [line]) with 0. simpl.
  unfold finish. simpl. change (join_nl [line]) with line.
  rewrite (proj2 (Nat.leb_le minT _)) by lia.
  reflexivity.
Qed.


(** ** The chunks as pieces of the input *)


Lemma startsWithHeading_app ls t : startsWithHeading ls -> startsWithHeading (ls ++ t).
Proof. destruct ls; simpl; [intros []|auto]. Qed.

Lemma dropsFollowed_mono ps t t' :
  dropsFollowed startsWithHeading ps t -> dropsFollowed startsWithHeading ps (t ++ t').
Proof.
  induction ps as [|p ps IH]; simpl; [auto|].
  intros [H1 H2]. split; [|auto].
  destruct p; [exact I|]. rewrite app_assoc. now apply startsWithHeading_app.
Qed.

Lemma dropsFollowed_snoc next ps p b t :
  pieceLines p = b ->
  dropsFollowed next ps (b ++ t) ->
  match p with Dropped _ => next t | Kept _ => True end ->
  dropsFollowed next (ps ++ [p]) t.
Proof.
  intros Hb. induction ps as [|q ps IH]; simpl.
  - intros _ Hp. split; [|exact I]. destruct p; [exact I|exact Hp].
  - intros [H1 H2] Hp. split; [|auto].
    destruct q; [exact I|].
    rewrite map_app, concat_app. simpl. rewrite Hb, app_nil_r, <- app_assoc. exact H1.
Qed.

Lemma dropsFollowed_weaken ps t :
  dropsFollowed startsWithHeading ps t -> dropsFollowed headingOrEnd ps t.
Proof.
  induction ps as [|p ps IH]; simpl; [auto|].
  intros [H1 H2]. split; [|auto]. destruct p; [exact I|].
  destruct (concat _ ++ t); [destruct H1|exact H1].
Qed.

Section Invariant.
Variables maxT minT : nat.

Local Abbreviation Inv := (Spec.Inv minT).

Lemma Inv_snoc pieces p s s' done line :
  Inv pieces s done ->
  pieceLines p ++ currentChunk s' = currentChunk s ++ [line] ->
  List.map (fun oc => content (snd oc)) (chunks s') =
    List.map (fun oc => content (snd oc)) (chunks s) ++
    match keptText p with Some t => [t] | None => [] end ->
  undersized minT p ->
  match p with Dropped _ => startsWithHeading (currentChunk s') | Kept _ => True end ->
  Inv (pieces ++ [p]) s' (done ++ [line]).
Proof.
  intros (H1 & H2 & H3 & H4) Hl Hc Hu Hn. unfold Inv.
  rewrite map_app, concat_app. simpl. rewrite app_nil_r, <- app_assoc, Hl, app_assoc, H1.
  split; [reflexivity|]. split; [|split].
  - rewrite omap_app, H2, Hc. simpl. destruct (keptText p); reflexivity.
  - apply Forall_app. split; [exact H3|]. constructor; [exact Hu|constructor].
  - eapply dropsFollowed_snoc; [reflexivity| |exact Hn].
    rewrite Hl. now apply dropsFollowed_mono.
Qed.

Lemma Inv_body pieces s done i line :
  Inv pieces s done ->
  exists pieces', Inv pieces' (body maxT minT i line s) (done ++ [line]).
Proof.
  intros HI. unfold body.
  destruct (headingMatch line) as [[hashes title]|] eqn:Eh.
  - unfold onHeading. destruct (currentChunk s) as [|b bs] eqn:Eb.
    + exists pieces. destruct HI as (H1 & H2 & H3 & H4). unfold Inv. simpl.
      rewrite Eb in *. repeat split; try assumption.
      * rewrite <- H1. now rewrite !app_nil_r.
      * now apply (dropsFollowed_mono pieces [] [line]).
    + destruct (minT <=? estimateTokens (join_nl (b :: bs))) eqn:Emin.
      * exists (pieces ++ [Kept (b :: bs)]).
        eapply Inv_snoc; [exact HI| | |exact I|exact I]; simpl.
        -- now rewrite Eb.
        -- now rewrite map_app.
      * exists (pieces ++ [Dropped (b :: bs)]).
        apply Nat.leb_gt in Emin.
        eapply Inv_snoc; [exact HI| | | |]; simpl.
        -- now rewrite Eb.
        -- now rewrite app_nil_r.
        -- split; [discriminate|exact Emin].
        -- unfold isHeading. rewrite Eh. discriminate.
  - unfold onLine.
    destruct (maxT <=? _) eqn:Emax; [destruct (0 <? _) eqn:Esp|].
    + exists (pieces ++ [Kept (firstn (findSplitPoint (currentChunk s ++ [line]))
                                     (currentChunk s ++ [line]))]).
      eapply Inv_snoc; [exact HI| | |exact I|exact I]; simpl.
      * apply firstn_skipn.
      * now rewrite map_app.
    + exists pieces. destruct HI as (H1 & H2 & H3 & H4). unfold Inv. simpl.
      repeat split; try assumption.
      * now rewrite app_assoc, H1.
      * now apply dropsFollowed_mono.
    + exists pieces. destruct HI as (H1 & H2 & H3 & H4). unfold Inv. simpl.
      repeat split; try assumption.
      * now rewrite app_assoc, H1.
      * now apply dropsFollowed_mono.
Qed.

Lemma Inv_scan lines : forall pieces s done i,
  Inv pieces s done ->
  exists pieces', Inv pieces' (scan maxT minT i lines s) (done ++ lines).
Proof.
  induction lines as [|l ls IH]; intros pieces s done i HI; simpl.
  - exists pieces. now rewrite app_nil_r.
  - destruct (Inv_body pieces s done i l HI) as [pieces' HI'].
    destruct (IH pieces' _ _ (S i) HI') as [pieces'' HI''].
    exists pieces''. now rewrite <- app_assoc in HI''.
Qed.

Lemma chunkLines_pieces lines :
  exists pieces,
    concat (List.map pieceLines pieces) = lines /\
    omap keptText pieces =
      List.map (fun oc => content (snd oc)) (chunks (chunkLines maxT minT lines)) /\
    Forall (undersized minT) pieces /\
    dropsFollowed headingOrEnd pieces [].
Proof.
  destruct (Inv_scan lines [] initial [] 0) as [pieces (H1 & H2 & H3 & H4)].
  { repeat split; constructor. }
  simpl in H1. unfold chunkLines, finish.
  set (s := scan maxT minT 0 lines initial) in *.
  destruct (currentChunk s) as [|b bs] eqn:Eb.
  - exists pieces. rewrite app_nil_r in H1. repeat split; try assumption.
    now apply dropsFollowed_weaken.
  - destruct (minT <=? 2 * _) eqn:Emin.
    + exists (pieces ++ [Kept (b :: bs)]). split; [|split; [|split]].
      * rewrite map_app, concat_app. simpl. now rewrite app_nil_r.
      * rewrite omap_app, H2. simpl. now rewrite map_app.
      * apply Forall_app. split; [exact H3|]. repeat constructor.
      * apply dropsFollowed_snoc with (b := b :: bs); [reflexivity| |exact I].
        rewrite app_nil_r. now apply dropsFollowed_weaken.
    + exists (pieces ++ [Dropped (b :: bs)]). apply Nat.leb_gt in Emin.
      split; [|split; [|split]].
      * rewrite map_app, concat_app. simpl. now rewrite app_nil_r.
      * rewrite omap_app, H2. simpl. now rewrite app_nil_r.
      * apply Forall_app. split; [exact H3|]. constructor; [|constructor].
        split; [discriminate|lia].
      * apply dropsFollowed_snoc with (b := b :: bs); [reflexivity| |exact I].
        rewrite app_nil_r. now apply dropsFollowed_weaken.
Qed.

End Invariant.

(** Chunk numbers. *)
Lemma push_indexed (o : Origin) c s :
  index c = chunkIndex s -> indexed s ->
  List.map (fun oc => index (snd oc)) (chunks s ++ [(o, c)]) =
    seq 0 (S (chunkIndex s)).
Proof.
  unfold indexed. intros E H. rewrite map_app, H, seq_S. simpl. now rewrite E.
Qed.

Lemma body_indexed maxT minT i line s :
  indexed s -> indexed (body maxT minT i line s).
Proof.
  intros H. unfold body. destruct (headingMatch line) as [[hashes title]|].
  - unfold onHeading. destruct (currentChunk s); [exact H|].
    destruct (minT <=? _); [|exact H].
    unfold indexed, push. cbn [chunks chunkIndex].
    now apply push_indexed.
  - unfold onLine. destruct (maxT <=? _); [|exact H].
    destruct (0 <? _); [|exact H].
    unfold indexed, push. cbn [chunks chunkIndex].
    now apply push_indexed.
Qed.

Lemma chunkLines_indexed maxT minT lines : indexed (chunkLines maxT minT lines).
Proof.
  unfold chunkLines.
  assert (H : indexed (scan maxT minT 0 lines initial)).
  { apply scan_preserves; [intros; now apply body_indexed|reflexivity]. }
  unfold finish. destruct (currentChunk _); [exact H|].
  destruct (minT <=? _); [|exact H].
  unfold indexed, push. cbn [chunks chunkIndex].
  now apply push_indexed.
Qed.

End ChunkerFacts.


(** * Facts about the router *)

Module RouterFacts.
Import JS Value LLM Router Spec.

Ltac unfoldM :=
  unfold tryM, callGenerate, callIsAvailable, sleep, throwM, liftR,
    mbind, M_bind, mret, M_ret in *.

Lemma retrySchedule_calls delay name messages errors attempt :
  length (List.filter isCall (retrySchedule delay name messages errors attempt)) =
  length errors.
Proof.
  revert attempt. induction errors as [|e rest IH]; intros attempt; [reflexivity|].
  simpl. destruct rest as [|e' rest']; [reflexivity|].
  specialize (IH (S attempt)). simpl in *. now rewrite IH.
Qed.

Lemma retrySchedule_sleeps delay name messages errors attempt :
  omap sleepOf (retrySchedule delay name messages errors attempt) =
  List.map (fun i => (delay * 2 ^ Z.of_nat i)%Z) (seq attempt (length errors - 1)).
Proof.
  revert attempt. induction errors as [|e rest IH]; intros attempt; [reflexivity|].
  simpl. destruct rest as [|e' rest']; [reflexivity|].
  specialize (IH (S attempt)). simpl in *. rewrite Nat.sub_0_r in IH.
  now rewrite IH.
Qed.

Section Retry.
Variables (r : LLMRouter) (name : str) (p : ILLMProvider)
  (messages : list LLMMessage.t).

Lemma retryLoop_exhausts : alwaysRetryable p messages ->
  forall remaining attempt lastError w,
    attempt + remaining = retryAttempts r ->
    exists errors,
      length errors = remaining /\
      Forall (fun e => retryable e = true) errors /\
      retryLoop r name p messages remaining attempt lastError w =
        (Throw (match last errors with Some e => ThrownLLM e | None => lastError end),
         w ++ retrySchedule (retryDelay r) name messages errors attempt).
Proof.
  intros Hp remaining. induction remaining as [|rem IH]; intros attempt lastError w Hn.
  - exists []. simpl. unfoldM. now rewrite app_nil_r.
  - destruct (Hp w) as (e & He & Hr). simpl. unfoldM. rewrite He, Hr. simpl.
    destruct rem as [|rem'].
    + replace (attempt <? retryAttempts r - 1) with false
        by (symmetry; apply Nat.ltb_ge; lia).
      exists [e]. simpl. unfoldM. repeat split; auto.
    + replace (attempt <? retryAttempts r - 1) with true
        by (symmetry; apply Nat.ltb_lt; lia).
      destruct (IH (S attempt) (ThrownLLM e)
                  ((w ++ [EvGenerate name messages (Throw (ThrownLLM e))]) ++
                   [EvSleep (retryDelay r * 2 ^ Z.of_nat attempt)]))
        as (errors & Hlen & Hall & Hrun); [lia|].
      exists (e :: errors). split; [simpl; lia|]. split; [now constructor|].
      rewrite Hrun. destruct errors as [|e' errors']; [discriminate|].
      f_equal; [|rewrite <- !app_assoc; reflexivity].
      change (last (e :: e' :: errors')) with (last (e' :: errors')).
      destruct (last (e' :: errors')) eqn:El; [reflexivity|].
      apply last_None in El. discriminate.
Qed.

Lemma retryLoop_stops e w remaining attempt lastError :
  generateCompletion p w messages = Throw (ThrownLLM e) -> retryable e = false ->
  retryLoop r name p messages (S remaining) attempt lastError w =
    (Throw (ThrownLLM e), w ++ [EvGenerate name messages (Throw (ThrownLLM e))]).
Proof.
  intros He Hr. simpl. unfoldM. now rewrite He, Hr.
Qed.

(** Any run of the loop: the events are calls of this provider and
    sleeps; a successful call is the last event and gives the result. *)
Lemma retryLoop_run remaining : forall attempt lastError w,
  exists evs,
    snd (retryLoop r name p messages remaining attempt lastError w) = w ++ evs /\
    Forall (eventOf [name]) evs /\
    match fst (retryLoop r name p messages remaining attempt lastError w) with
    | Ok resp =>
        exists pre, evs = pre ++ [EvGenerate name messages (Ok resp)] /\ noSuccess pre
    | Throw _ => noSuccess evs
    end.
Proof.
  induction remaining as [|rem IH]; intros attempt lastError w.
  - exists []. simpl. unfoldM. simpl. rewrite app_nil_r. repeat split; constructor.
  - simpl. unfoldM.
    destruct (generateCompletion p w messages) as [resp|t] eqn:Eg.
    + exists [EvGenerate name messages (Ok resp)]. simpl.
      split; [reflexivity|]. split; [repeat constructor|].
      exists []. split; [reflexivity|constructor].
    + assert (H1 : Forall (eventOf [name]) [EvGenerate name messages (Throw t)])
        by (repeat constructor).
      assert (H2 : noSuccess [EvGenerate name messages (Throw t)])
        by (constructor; [simpl; tauto|constructor]).
      destruct t as [e|e|];
        [|exists [EvGenerate name messages (Throw (ThrownError e))]; simpl; auto
         |exists [EvGenerate name messages (Throw ThrownNull)]; simpl; auto].
      destruct (retryable e); simpl;
        [|exists [EvGenerate name messages (Throw (ThrownLLM e))]; simpl; auto].
      inversion H2 as [|? ? Hns _]; subst.
      destruct (attempt <? retryAttempts r - 1).
      * destruct (IH (S attempt) (ThrownLLM e)
                    ((w ++ [EvGenerate name messages (Throw (ThrownLLM e))]) ++
                     [EvSleep (retryDelay r * 2 ^ Z.of_nat attempt)]))
          as (evs & Hw & Hev & Hres).
        exists (EvGenerate name messages (Throw (ThrownLLM e)) ::
                EvSleep (retryDelay r * 2 ^ Z.of_nat attempt) :: evs).
        split; [rewrite Hw, <- !app_assoc; reflexivity|].
        split; [repeat constructor; auto|].
        destruct (fst _) as [resp|t'].
        -- destruct Hres as (pre & -> & Hpre). eexists (_ :: _ :: pre).
           split; [reflexivity|]. constructor; [exact Hns|].
           constructor; [simpl; tauto|exact Hpre].
        -- constructor; [exact Hns|]. constructor; [simpl; tauto|exact Hres].
      * destruct (IH (S attempt) (ThrownLLM e)
                    (w ++ [EvGenerate name messages (Throw (ThrownLLM e))]))
          as (evs & Hw & Hev & Hres).
        exists (EvGenerate name messages (Throw (ThrownLLM e)) :: evs).
        split; [rewrite Hw, <- !app_assoc; reflexivity|].
        split; [repeat constructor; auto|].
        destruct (fst _) as [resp|t'].
        -- destruct Hres as (pre & -> & Hpre). eexists (_ :: pre).
           split; [reflexivity|]. constructor; [exact Hns|exact Hpre].
        -- constructor; [exact Hns|exact Hres].
Qed.

End Retry.

Lemma eventOf_incl l1 l2 evs :
  incl l1 l2 -> Forall (eventOf l1) evs -> Forall (eventOf l2) evs.
Proof.
  intros Hi H. induction H as [|e evs He _ IH]; constructor; [|exact IH].
  destruct e; simpl in *; auto.
Qed.

(** A provider that did not succeed, then the rest of the chain. *)
Lemma routed_continue messages name rest pre0 res evs :
  noSuccess pre0 -> Forall (eventOf [name]) pre0 ->
  routed messages rest res evs ->
  routed messages (name :: rest) res (pre0 ++ evs).
Proof.
  intros Hn Hp. unfold routed. destruct res as [resp|t].
  - intros (earlier & n & later & pre & -> & -> & Hpre & Hev).
    exists (name :: earlier), n, later, (pre0 ++ pre).
    split; [reflexivity|]. split; [now rewrite app_assoc|].
    split; [now apply Forall_app|].
    apply Forall_app. split.
    + eapply eventOf_incl; [|exact Hp]. intros x [<-|[]]. now left.
    + eapply eventOf_incl; [|exact Hev]. intros x Hx. now right.
  - intros [H1 H2]. split; [now apply Forall_app|].
    apply Forall_app. split.
    + eapply eventOf_incl; [|exact Hp]. intros x [<-|[]]. now left.
    + eapply eventOf_incl; [|exact H2]. intros x Hx. now right.
Qed.

Lemma routed_stop name rest pre0 :
  noSuccess pre0 -> Forall (eventOf [name]) pre0 ->
  noSuccess pre0 /\ Forall (eventOf (name :: rest)) pre0.
Proof.
  intros Hn Hp. split; [exact Hn|].
  eapply eventOf_incl; [|exact Hp]. intros x [<-|[]]. now left.
Qed.

Lemma tryProviders_run r messages chain : forall lastError w,
  exists evs,
    snd (tryProviders r messages chain lastError w) = w ++ evs /\
    routed messages chain (fst (tryProviders r messages chain lastError w)) evs.
Proof.
  induction chain as [|name rest IH]; intros lastError w.
  - exists []. simpl. unfoldM. simpl. rewrite app_nil_r.
    split; [reflexivity|]. split; constructor.
  - simpl. destruct (providers r !! name) as [p|].
    2:{ destruct (IH lastError w) as (evs & Hw & Hr). exists evs.
        split; [exact Hw|].
        apply (routed_continue messages name rest [] _ evs); [constructor..|exact Hr]. }
    unfoldM. unfold generateWithRetry.
    set (ev0 := EvIsAvailable name (isAvailable p w)).
    assert (H0 : noSuccess [ev0] /\ Forall (eventOf [name]) [ev0]).
    { split; repeat constructor. simpl. tauto. }
    destruct H0 as [Hn0 He0].
    assert (Hnext : forall le,
      exists evs,
        snd (tryProviders r messages rest le (w ++ [ev0])) = w ++ evs /\
        routed messages (name :: rest)
          (fst (tryProviders r messages rest le (w ++ [ev0]))) evs).
    { intros le. destruct (IH le (w ++ [ev0])) as (evs & Hw & Hr).
      exists ([ev0] ++ evs). split; [now rewrite Hw, <- app_assoc|].
      now apply routed_continue. }
    destruct (isAvailable p w) as [[|]|t] eqn:Ea; simpl.
    + destruct (retryLoop_run r name p messages (retryAttempts r) 0 ThrownNull
                  (w ++ [ev0])) as (evsR & Hw & Hev & Hres).
      destruct (retryLoop r name p messages (retryAttempts r) 0 ThrownNull
                  (w ++ [ev0])) as [res w'] eqn:Erun.
      simpl in Hw, Hres. subst w'.
      assert (Hnext' : forall le, res = res ->
        noSuccess evsR ->
        exists evs,
          snd (tryProviders r messages rest le (w ++ [ev0] ++ evsR)) = w ++ evs /\
          routed messages (name :: rest)
            (fst (tryProviders r messages rest le (w ++ [ev0] ++ evsR))) evs).
      { intros le _ HnR.
        destruct (IH le (w ++ [ev0] ++ evsR)) as (evs & Hw & Hr).
        exists (([ev0] ++ evsR) ++ evs).
        split; [rewrite Hw, <- !app_assoc; reflexivity|].
        apply routed_continue; [now apply Forall_app|now apply Forall_app|exact Hr]. }
      rewrite <- app_assoc.
      destruct res as [resp|t]; simpl.
      * destruct Hres as (pre & -> & Hpre).
        exists ([ev0] ++ pre ++ [EvGenerate name messages (Ok resp)]).
        split; [reflexivity|].
        exists [], name, rest, ([ev0] ++ pre).
        split; [reflexivity|]. split; [now rewrite <- app_assoc|].
        split; [now apply Forall_app|].
        now apply Forall_app.
      * destruct t as [e|e|]; simpl; [apply Hnext'; auto..|].
        exists ([ev0] ++ evsR). split; [reflexivity|].
        apply routed_stop; [now apply Forall_app|now apply Forall_app].
    + apply Hnext.
    + destruct t as [e|e|]; simpl; [apply Hnext..|].
      exists [ev0]. split; [reflexivity|]. apply routed_stop; assumption.
Qed.

Theorem generate_run r messages preferredProvider w :
  exists evs,
    snd (generate r messages preferredProvider w) = w ++ evs /\
    routed messages (buildProviderChain r preferredProvider)
      (fst (generate r messages preferredProvider w)) evs.
Proof.
  unfold generate. destruct (buildProviderChain r preferredProvider) as [|n chain] eqn:Ec.
  - exists []. unfoldM. simpl. rewrite app_nil_r. split; [reflexivity|].
    split; constructor.
  - apply tryProviders_run.
Qed.

End RouterFacts.


(** * Facts about the provider *)

Module ProviderFacts.
Import JS Value LLM Provider Spec.

Lemma get_truthy v k : truthy v = true -> exists x, get v k = Ok x.
Proof. destruct v; simpl; try discriminate; eauto. Qed.

Lemma get0_truthy v : truthy v = true -> exists x, get0 v = Ok x.
Proof. destruct v; simpl; try discriminate; eauto. Qed.

Lemma get_throws v k t : get v k = Throw t -> exists e, t = ThrownError e.
Proof. destruct v; simpl; try discriminate; intros [= <-]; eauto. Qed.

Lemma parseResponse_lacking config data :
  lacksMessage data -> raises (parseResponse config data) PARSE_ERROR false.
Proof.
  unfold lacksMessage, messagePath, parseResponse, raises.
  unfold mbind, result_bind, bindR, tryCatch.
  destruct (get data (lit "choices")) as [choices|t] eqn:Ec.
  2:{ intros _. apply get_throws in Ec as [e ->]. simpl. eauto. }
  destruct (truthy choices) eqn:Tc; [|intros _; simpl; eauto].
  destruct (get0_truthy choices Tc) as [first Ef]. rewrite Ef.
  destruct (truthy first) eqn:Tf; [|intros _; simpl; eauto].
  destruct (get_truthy first (lit "message") Tf) as [msg Em]. rewrite Em.
  destruct (truthy msg) eqn:Tm; [|intros _; simpl; eauto].
  destruct msg; try discriminate; intros [].
Qed.

End ProviderFacts.


(** * Facts about JSON objects and the generator *)

Module JsonFacts.
Import JS Value Json.

Lemma str_eqb_eq a b : str_eqb a b = true <-> a = b.
Proof.
  revert b. induction a as [|x a IH]; intros [|y b]; simpl; split; try discriminate; auto.
  - intros H. apply andb_prop in H as [H1 H2]. apply N.eqb_eq in H1. apply IH in H2.
    congruence.
  - intros [= -> ->]. rewrite N.eqb_refl. simpl. now apply IH.
Qed.

Lemma lookupField_In k fields v : lookupField k fields = Some v -> In (k, v) fields.
Proof.
  induction fields as [|[k' v'] rest IH]; simpl; [discriminate|].
  destruct (str_eqb k k') eqn:E.
  - apply str_eqb_eq in E. intros [= ->]. left. congruence.
  - intros H. right. auto.
Qed.

Lemma lookup_setField k k' v fields :
  lookupField k (setField k' v fields) =
  if str_eqb k k' then Some v else lookupField k fields.
Proof.
  induction fields as [|[k0 v0] rest IH]; simpl.
  - destruct (str_eqb k k'); reflexivity.
  - destruct (str_eqb k' k0) eqn:E0; simpl.
    + apply str_eqb_eq in E0. subst k0. destruct (str_eqb k k'); reflexivity.
    + destruct (str_eqb k k0) eqn:E1.
      * apply str_eqb_eq in E1. subst k0.
        destruct (str_eqb k k') eqn:E2; [|reflexivity].
        apply str_eqb_eq in E2. subst k'.
        assert (str_eqb k k = true) by now apply str_eqb_eq. congruence.
      * exact IH.
Qed.

(** A property of the object that a spread builds: its value is the one
    the object started with, or one of the spread entries of that name. *)
Lemma lookup_spread k entries : forall init v,
  lookupField k
    (fold_left (fun fields kv => setField (fst kv) (snd kv) fields) entries init) = Some v ->
  lookupField k init = Some v \/ In (k, v) entries.
Proof.
  induction entries as [|[k' v'] rest IH]; intros init v; simpl; [auto|].
  intros H. apply IH in H as [H|H]; [|auto].
  rewrite lookup_setField in H. destruct (str_eqb k k') eqn:E; [|auto].
  apply str_eqb_eq in E. subst k'. injection H as ->. right. now left.
Qed.

End JsonFacts.

(** * Facts about the prompt manager *)

Module PromptFacts.
Import JS Value LLM Prompt Spec.

Lemma expand_plain replacement matched before after :
  ~ In 36%N replacement -> expand replacement matched before after = replacement.
Proof.
  induction replacement as [|c rest IH]; [reflexivity|]. intros H. simpl.
  destruct (N.eqb_spec c 36) as [->|_].
  - exfalso. apply H. now left.
  - rewrite IH; [reflexivity|]. intros Hin. apply H. now right.
Qed.

Lemma replaceFrom_plain pat replacement s : ~ In 36%N replacement ->
  forall seen skip,
    replaceFrom pat replacement seen skip s = replaceVerbatim pat replacement skip s.
Proof.
  intros H. induction s as [|c s IH]; intros seen skip; [reflexivity|]. simpl.
  destruct skip as [|k]; [|apply IH].
  destruct (prefix_by N.eqb pat (c :: s)).
  - rewrite expand_plain by exact H. now rewrite IH.
  - now rewrite IH.
Qed.

Lemma substitute_plain eng vars :
  Forall (fun kv => literalKey (fst kv) = true /\ ~ In 36%N (snd kv)) vars ->
  forall userPrompt,
    substitute eng vars userPrompt = Ok (substituteVerbatim vars userPrompt).
Proof.
  induction 1 as [|[k v] vars [Hk Hv] _ IH]; intros userPrompt; [reflexivity|].
  simpl in *. unfold replaceKey. rewrite Hk.
  unfold mbind, result_bind, bindR. rewrite IH.
  unfold substituteVerbatim at 2. simpl.
  unfold replaceAllText. now rewrite replaceFrom_plain.
Qed.

End PromptFacts.

Module GeneratorFacts.
Import JS Value Json LLM Prompt Generator Spec JsonFacts.

Lemma buildCard_confidence raw card : buildCard raw = Ok card ->
  cardConfidence card = JNum (8 # 10) \/
  In (lit "confidence", cardConfidence card) (spreadEntries raw).
Proof.
  unfold buildCard, mbind, result_bind, bindR.
  destruct (get raw (lit "type")) as [ty|]; [|discriminate].
  destruct (get raw (lit "front")) as [fr|]; [|discriminate].
  destruct (get raw (lit "back")) as [ba|]; [|discriminate].
  destruct (get raw (lit "tags")) as [ta|]; [|discriminate].
  destruct (get raw (lit "confidence")) as [co|] eqn:Eco; [|discriminate].
  intros [= <-]. unfold cardConfidence. cbn [get].
  match goal with |- context [lookupField ?k (fold_left ?f ?es ?init)] =>
    destruct (lookupField k (fold_left f es init)) as [v|] eqn:El end.
  2:{ exfalso. revert El. generalize (spreadEntries raw). intros es.
      match goal with |- lookupField _ (fold_left _ _ ?i) = None -> _ =>
        assert (Hi : lookupField (lit "confidence") i <> None) by (vm_compute; discriminate);
        revert Hi; generalize i end.
      induction es as [|[k' v'] es IH]; intros i Hi; simpl; [exact Hi|].
      apply IH. rewrite lookup_setField. destruct (str_eqb _ k'); [discriminate|exact Hi]. }
  apply lookup_spread in El as [El|El]; [|now right].
  assert (v = orElse co (JNum (8 # 10))) as ->.
  { revert El. vm_compute. congruence. }
  unfold orElse. destruct (truthy co) eqn:Tc; [|now left].
  right. destruct raw as [| | | | | |fields]; simpl in Eco;
    try discriminate; try (injection Eco as <-; discriminate).
  destruct (lookupField (lit "confidence") fields) as [x|] eqn:Ex.
  - injection Eco as <-. simpl. now apply lookupField_In.
  - injection Eco as <-. discriminate.
Qed.

Lemma mapCards_In items : forall cards card,
  mapCards items = Ok cards -> In card cards ->
  exists raw, In raw items /\ buildCard raw = Ok card.
Proof.
  induction items as [|raw rest IH]; intros cards card; simpl.
  - intros [= <-] [].
  - unfold mbind, result_bind, bindR.
    destruct (buildCard raw) as [c|] eqn:Eb; [|discriminate].
    destruct (mapCards rest) as [cs|] eqn:Em; [|discriminate].
    intros [= <-] [<-|Hin]; [eauto|].
    destruct (IH cs card eq_refl Hin) as (raw' & H1 & H2). eauto.
Qed.

Lemma parseCardResponse_confidence response card :
  In card (parsedCards (parseCardResponse response)) ->
  cardConfidence card = JNum (8 # 10) \/
  exists parsed items raw,
    parseJsonAnswer response = Ok parsed /\
    get parsed (lit "cards") = Ok (JArr items) /\
    In raw items /\
    In (lit "confidence", cardConfidence card) (spreadEntries raw).
Proof.
  unfold parseCardResponse, mbind, result_bind, bindR.
  destruct (parseJsonAnswer response) as [parsed|]; [|intros []].
  destruct (get parsed (lit "cards")) as [given|] eqn:Eg; [|intros []].
  destruct (orElse given (JArr [])) as [| | | | |items|] eqn:Eo; try (intros []).
  destruct (mapCards items) as [cards|] eqn:Em; [|intros []].
  destruct (get parsed (lit "sectionSummary")); [|intros []].
  simpl. intros Hin.
  destruct (mapCards_In items cards card Em Hin) as (raw & Hraw & Hb).
  destruct (buildCard_confidence raw card Hb) as [H|H]; [now left|].
  right. exists parsed, items, raw. repeat split; auto.
  unfold orElse in Eo. destruct (truthy given) eqn:Tg.
  - now subst given.
  - injection Eo as <-. destruct Hraw.
Qed.

(** ** The run *)


Ltac unfoldG :=
  unfold tryG, yield, liftM, liftResult, mbind, G_bind, mret, G_ret in *.

Lemma analyzeDocument_total eng g text items w :
  exists plan w', analyzeDocument eng g text (items, w) = (Ok plan, (items, w')).
Proof.
  unfold analyzeDocument. unfoldG. simpl.
  destruct (renderPrompt eng (promptManager g) (lit "analyze_document") _) as [messages|t];
    [|eauto].
  destruct (Router.generate (llmRouter g) messages None w) as [[response|t] w']; eauto.
Qed.

Lemma generateCardsForChunk_items eng g chunk context items w :
  exists r w', generateCardsForChunk eng g chunk context (items, w) = (r, (items, w')).
Proof.
  unfold generateCardsForChunk. unfoldG. simpl.
  destruct (renderPrompt eng (promptManager g) (lit "generate_cards_enhanced") _)
    as [messages|t]; [|eauto].
  destruct (Router.generate (llmRouter g) messages None w) as [[response|t] w']; eauto.
Qed.

Lemma batchCards_app a b : batchCards (a ++ b) = batchCards a + batchCards b.
Proof.
  induction a as [|[p|bt] a IH]; simpl; [reflexivity|exact IH|]. rewrite IH. lia.
Qed.

Lemma generateLoop_total eng g maxC plan ov n chunks :
  forall i total previous items w,
  exists total' new w',
    generateLoop eng g maxC plan ov n i chunks total previous (items, w) =
      (Ok total', (items ++ new, w')) /\
    total' = total + batchCards new /\
    Forall (fun item => ~ isCompleted item) new.
Proof.
  induction chunks as [|chunk rest IH]; intros i total previous items w; simpl.
  - exists total, [], w. unfoldG. rewrite app_nil_r.
    split; [reflexivity|]. split; [simpl; lia|constructor].
  - destruct (total <? maxC); simpl.
    2:{ exists total, [], w. unfoldG. rewrite app_nil_r.
    split; [reflexivity|]. split; [simpl; lia|constructor]. }
    unfoldG. simpl.
    match goal with |- context [Progress ?p] => set (gen := Progress p) end.
    assert (Hgen : ~ isCompleted gen) by (simpl; discriminate).
    match goal with |- context [generateCardsForChunk eng g chunk ?c] =>
      destruct (generateCardsForChunk_items eng g chunk c (items ++ [gen]) w)
        as (r & w1 & Hrun); rewrite Hrun end.
    destruct r as [batch|t]; simpl.
    + destruct (maxC <=? total + length (cards batch)).
      * exists (total + length (cards batch)), [gen; Batch batch], w1.
        rewrite <- app_assoc. simpl.
        split; [reflexivity|]. split; [lia|].
        constructor; [exact Hgen|]. constructor; [simpl; tauto|constructor].
      * destruct (IH (S i) (total + length (cards batch)) (summary batch)
                    ((items ++ [gen]) ++ [Batch batch]) w1)
          as (total' & new & w' & Hloop & Htot & Hnew).
        exists total', ([gen; Batch batch] ++ new), w'.
        rewrite Hloop. rewrite <- !app_assoc. simpl.
        split; [reflexivity|]. split; [rewrite Htot; lia|].
        constructor; [exact Hgen|]. constructor; [simpl; tauto|exact Hnew].
    + destruct (IH (S i) total previous (items ++ [gen]) w1)
        as (total' & new & w' & Hloop & Htot & Hnew).
      exists total', ([gen] ++ new), w'.
      rewrite Hloop. rewrite <- !app_assoc. simpl.
      split; [reflexivity|]. split; [exact Htot|]. constructor; auto.
Qed.

(** *** createOverview *)

Lemma insertChunk_In x c sorted : In c (insertChunk x sorted) <-> c = x \/ In c sorted.
Proof.
  induction sorted as [|y rest IH]; simpl; [intuition congruence|].
  destruct (Qle_bool _ _); simpl; [intuition congruence|].
  rewrite IH. intuition congruence.
Qed.

Lemma prioritizeChunks_In c chunks : In c (prioritizeChunks chunks) <-> In c chunks.
Proof.
  unfold prioritizeChunks. induction chunks as [|x rest IH]; simpl; [tauto|].
  rewrite insertChunk_In, IH. intuition congruence.
Qed.

Lemma overviewHeadings_throws chunks :
  (exists c, In c chunks /\ Chunker.level c = 0) ->
  overviewHeadings chunks = Throw rangeError.
Proof.
  induction chunks as [|x rest IH]; intros (c & Hin & Hl); [destruct Hin|].
  simpl. destruct (Chunker.level x) eqn:Ex; [reflexivity|].
  destruct Hin as [->|Hin]; [congruence|].
  rewrite IH by eauto. reflexivity.
Qed.

Lemma overviewHeadings_ok chunks :
  Forall (fun c => Chunker.level c <> 0) chunks ->
  exists hs, overviewHeadings chunks = Ok hs.
Proof.
  induction 1 as [|x rest Hx _ [hs IH]]; simpl; [eauto|].
  destruct (Chunker.level x); [congruence|]. rewrite IH. simpl. eauto.
Qed.

Lemma createOverview_throws chunks :
  (exists c, In c chunks /\ Chunker.level c = 0) ->
  createOverview (prioritizeChunks chunks) = Throw rangeError.
Proof.
  intros (c & Hin & Hl). unfold createOverview.
  rewrite overviewHeadings_throws; [reflexivity|].
  exists c. split; [|exact Hl]. apply filter_In. split.
  - now apply prioritizeChunks_In.
  - rewrite Hl. reflexivity.
Qed.

Lemma createOverview_ok chunks :
  Forall (fun c => Chunker.level c <> 0) chunks ->
  exists ov, createOverview (prioritizeChunks chunks) = Ok ov.
Proof.
  intros H. unfold createOverview.
  destruct (overviewHeadings_ok
              (List.filter (fun c => Chunker.level c <=? 2) (prioritizeChunks chunks)))
    as [hs Hhs].
  - apply List.Forall_forall. intros c Hc. apply filter_In in Hc as [Hc _].
    apply (proj1 (prioritizeChunks_In _ _)) in Hc. rewrite List.Forall_forall in H.
    exact (H c Hc).
  - rewrite Hhs. simpl. eauto.
Qed.

(** *** The whole run *)

Lemma multiPass_escapes eng g text options w :
  (exists c, In c (Chunker.chunkDocument text passBounds) /\ Chunker.level c = 0) ->
  exists w',
    generateCardsMultiPass eng g text options ([], w) =
      (Throw rangeError, ([planningItem; analyzingItem], w')).
Proof.
  intros Hc. unfold generateCardsMultiPass. unfoldG. simpl.
  destruct (analyzeDocument_total eng g text [planningItem] w) as (plan & w' & Ha).
  unfold planningItem in Ha. rewrite Ha. simpl.
  fold passBounds. rewrite (createOverview_throws _ Hc).
  exists w'. reflexivity.
Qed.

Lemma multiPass_completes eng g text options w :
  Forall (fun c => Chunker.level c <> 0) (Chunker.chunkDocument text passBounds) ->
  exists middle total w',
    generateCardsMultiPass eng g text options ([], w) =
      (Ok tt, ([planningItem; analyzingItem] ++ middle ++ [completedItem total], w')) /\
    total = batchCards middle /\
    Forall (fun item => ~ isCompleted item) middle.
Proof.
  intros Hc. unfold generateCardsMultiPass. unfoldG. simpl.
  destruct (analyzeDocument_total eng g text [planningItem] w) as (plan & w1 & Ha).
  unfold planningItem in Ha. rewrite Ha. simpl.
  fold passBounds. destruct (createOverview_ok _ Hc) as [ov Hov]. rewrite Hov.
  match goal with |- context [generateLoop eng g ?m plan ov ?n 0 ?cs 0 ?pv ?st] =>
    destruct (generateLoop_total eng g m plan ov n cs 0 0 pv [planningItem; analyzingItem] w1)
      as (total & new & w2 & Hloop & Htot & Hnew) end.
  unfold planningItem, analyzingItem in Hloop. rewrite Hloop. simpl.
  exists new, total, w2. repeat split; auto.
Qed.

Lemma sum_as_specified cards :
  Forall (fun c => forall q, confidence c = Some q -> ~ (q == 0)%Q) cards ->
  forall acc,
    fold_left (fun sum card => (sum + confidenceOr (confidence card) (8 # 10))%Q) cards acc =
    fold_left (fun sum card => (sum + default (8 # 10) (confidence card))%Q) cards acc.
Proof.
  induction 1 as [|c cards Hc _ IH]; intros acc; [reflexivity|]. simpl.
  rewrite IH. f_equal. f_equal. unfold confidenceOr.
  destruct (confidence c) as [q|]; [|reflexivity]. simpl.
  destruct (Qeq_bool q 0) eqn:E; [|reflexivity].
  apply Qeq_bool_iff in E. exfalso. exact (Hc q eq_refl E).
Qed.

End GeneratorFacts.

(** * Facts about lists and strings *)

Module ListFacts.
Import JS Spec.

Lemma StronglySorted_snoc {A} (R : A -> A -> Prop) l x :
  StronglySorted R (l ++ [x]) <-> StronglySorted R l /\ Forall (fun y => R y x) l.
Proof.
  induction l as [|y l IH]; simpl.
  - split; [intros _; split; constructor|intros _; repeat constructor].
  - split.
    + intros H. inversion H as [|? ? Hs Hall]; subst.
      apply IH in Hs as [Hs Hx]. apply Forall_app in Hall as [Hl Hy].
      inversion Hy; subst. split; constructor; assumption.
    + intros [H Hx]. inversion H as [|? ? Hs Hall]; subst.
      inversion Hx; subst. constructor.
      * apply IH. now split.
      * apply Forall_app. split; [assumption|]. now constructor.
Qed.

Lemma str_eqb_refl n : str_eqb n n = true.
Proof. induction n as [|c n IH]; [reflexivity|]. simpl. now rewrite N.eqb_refl. Qed.


Lemma str_eqb_neq a b : a <> b -> str_eqb a b = false.
Proof.
  intros H. destruct (str_eqb a b) eqn:E; [|reflexivity].
  apply JsonFacts.str_eqb_eq in E. contradiction.
Qed.

Lemma trimStart_ink s : hasInk (trimStart s) = hasInk s.
Proof.
  induction s as [|c s IH]; [reflexivity|]. simpl.
  destruct (isSpace c) eqn:E; simpl; [exact IH|now rewrite E].
Qed.

Lemma hasInk_app a b : hasInk (a ++ b) = hasInk a || hasInk b.
Proof. unfold hasInk. apply existsb_app. Qed.

Lemma hasInk_rev s : hasInk (rev s) = hasInk s.
Proof.
  induction s as [|c s IH]; [reflexivity|]. simpl.
  rewrite hasInk_app, IH. simpl. rewrite orb_false_r. apply orb_comm.
Qed.

Lemma trim_ink s : hasInk (trim s) = hasInk s.
Proof.
  unfold trim, trimEnd. now rewrite hasInk_rev, trimStart_ink, hasInk_rev, trimStart_ink.
Qed.

Lemma hasInk_nonempty s : hasInk s = true -> s <> [].
Proof. now destruct s. Qed.

Lemma trimStart_head s : match trimStart s with c :: _ => isSpace c = false | [] => True end.
Proof.
  induction s as [|c s IH]; simpl; [exact I|].
  destruct (isSpace c) eqn:E; [exact IH|exact E].
Qed.

Lemma trimStart_fixed s :
  match s with c :: _ => isSpace c = false | [] => True end -> trimStart s = s.
Proof. destruct s as [|c s]; [reflexivity|]. simpl. now intros ->. Qed.

Lemma trimStart_nonempty_ink s : trimStart s <> [] -> hasInk s = true.
Proof.
  intros H. rewrite <- trimStart_ink. pose proof (trimStart_head s) as Hh.
  destruct (trimStart s) as [|c t]; [contradiction|]. simpl. now rewrite Hh.
Qed.

Lemma trim_nonempty_ink s : trim s <> [] -> hasInk s = true.
Proof.
  unfold trim, trimEnd. intros H. rewrite <- trimStart_ink, <- hasInk_rev.
  apply trimStart_nonempty_ink. intros E. rewrite E in H. now apply H.
Qed.

(** [trimStart] takes a prefix away. *)
Lemma trimStart_suffix s : exists p, s = p ++ trimStart s /\ forallb isSpace p = true.
Proof.
  induction s as [|c s (p & IH & Hp)]; [now exists []|]. simpl.
  destruct (isSpace c) eqn:E.
  - exists (c :: p). simpl. rewrite E, Hp. split; [now f_equal|reflexivity].
  - now exists [].
Qed.

Lemma last_of_suffix (p t : str) c r :
  t = c :: r -> last (p ++ t) = last t.
Proof.
  intros ->. induction p as [|x p IH]; [reflexivity|].
  change ((x :: p) ++ c :: r) with (x :: (p ++ c :: r)).
  destruct (p ++ c :: r) as [|y l] eqn:E; [destruct p; discriminate E|].
  exact IH.
Qed.

Lemma head_rev_last (s : str) : head (rev s) = last s.
Proof.
  induction s as [|c s IH]; [reflexivity|].
  destruct s as [|d s']; [reflexivity|].
  change (last (c :: d :: s')) with (last (d :: s')). rewrite <- IH.
  change (rev (c :: d :: s')) with (rev (d :: s') ++ [c]).
  destruct (rev (d :: s')) as [|y l] eqn:E; [|reflexivity].
  simpl in E. destruct (rev s'); discriminate E.
Qed.

Lemma last_rev_head (s : str) : last (rev s) = head s.
Proof. rewrite <- head_rev_last, rev_involutive. reflexivity. Qed.

Lemma trim_edges s : edges (trim s).
Proof.
  unfold trim, trimEnd.
  set (t := trimStart s). pose proof (trimStart_head s) as Ht. fold t in Ht.
  set (u := trimStart (rev t)). pose proof (trimStart_head (rev t)) as Hu. fold u in Hu.
  destruct (trimStart_suffix (rev t)) as (p & Hp & _). fold u in Hp.
  unfold edges. destruct (rev u) as [|c r] eqn:Er; [exact I|].
  assert (Hun : u <> []). { intros E. rewrite E in Er. discriminate. }
  assert (Hlast : last (rev u) = head u) by apply last_rev_head.
  rewrite Er in Hlast.
  split.
  - (* the first unit of [rev u] is the last of [u], which is the last of [rev t],
       the first of [t] *)
    assert (H1 : head (rev u) = last u) by apply head_rev_last.
    rewrite Er in H1. simpl in H1.
    destruct u as [|u0 us] eqn:Eu; [contradiction|].
    assert (H2 : last (rev t) = last (u0 :: us)).
    { rewrite Hp. now apply last_of_suffix with (c := u0) (r := us). }
    rewrite last_rev_head in H2.
    destruct t as [|t0 ts]; [simpl in H2; rewrite <- H1 in H2; discriminate|].
    simpl in H2. rewrite <- H1 in H2. injection H2 as ->. exact Ht.
  - destruct u as [|u0 us]; [contradiction|]. simpl in Hlast.
    exists u0. split; [exact Hlast|exact Hu].
Qed.

Lemma trimStart_rev_fixed (s : str) d :
  last s = Some d -> isSpace d = false -> trimStart (rev s) = rev s.
Proof.
  intros Hl Hd. apply trimStart_fixed. rewrite <- head_rev_last in Hl.
  destruct (rev s) as [|c r]; [exact I|]. simpl in Hl. now injection Hl as ->.
Qed.

Lemma trim_fixed s : edges s -> trim s = s.
Proof.
  unfold edges, trim, trimEnd. destruct s as [|c s]; [reflexivity|].
  intros (Hc & d & Hl & Hd).
  rewrite (trimStart_fixed (c :: s)) by exact Hc.
  rewrite (trimStart_rev_fixed _ d Hl Hd). apply rev_involutive.
Qed.

Lemma trim_idempotent s : trim (trim s) = trim s.
Proof. apply trim_fixed, trim_edges. Qed.

Lemma trim_ink_nonempty s : hasInk s = true -> trim s <> [].
Proof. intros H. apply hasInk_nonempty. now rewrite trim_ink. Qed.


End ListFacts.


(** * Facts about line numbers, keywords and the overview *)

Module ChunkToolsFacts.
Import JS Chunker ChunkerTools Spec ChunkerFacts ListFacts.


Lemma scanDown_le p ls i j : scanDown p ls i = Some j -> j <= i.
Proof.
  induction i as [|i IH]; simpl; [discriminate|].
  destruct (_ <? _); [|discriminate].
  destruct (p (nth (S i) ls [])); [intros [= <-]; lia|].
  intros H. apply IH in H. lia.
Qed.

Lemma scanDown_half p ls i j : scanDown p ls i = Some j -> length ls < 2 * j.
Proof.
  induction i as [|i IH]; simpl; [discriminate|].
  destruct (_ <? _) eqn:E; [|discriminate].
  destruct (p (nth (S i) ls [])); [intros [= <-]; now apply Nat.ltb_lt in E|].
  exact IH.
Qed.

Lemma findSplitPoint_range ls :
  length ls / 2 <= findSplitPoint ls <= length ls.
Proof.
  unfold findSplitPoint.
  destruct (scanDown isBlank ls (length ls - 1)) eqn:E1.
  - pose proof (scanDown_le _ _ _ _ E1). pose proof (scanDown_half _ _ _ _ E1).
    split; [|lia]. apply Nat.Div0.div_le_upper_bound. lia.
  - destruct (scanDown endsSentence ls (length ls - 1)) eqn:E2.
    + pose proof (scanDown_le _ _ _ _ E2). pose proof (scanDown_half _ _ _ _ E2).
      pose proof (scanDown_pos _ _ _ _ E2).
      split; [|lia]. apply Nat.Div0.div_le_upper_bound. lia.
    + pose proof (Nat.div_mod_eq (length ls * 3) 4).
      pose proof (Nat.mod_upper_bound (length ls * 3) 4 ltac:(lia)).
      pose proof (Nat.div_mod_eq (length ls) 2).
      pose proof (Nat.mod_upper_bound (length ls) 2 ltac:(lia)).
      lia.
Qed.

Lemma linesBetween_app done more first last :
  (0 <= first)%Z -> (last < Z.of_nat (length done))%Z ->
  linesBetween (done ++ more) first last = linesBetween done first last.
Proof.
  intros H0 H1. unfold linesBetween.
  destruct (Z_lt_le_dec last first) as [Hlt|Hle].
  - replace (Z.to_nat (last - first + 1)) with 0 by lia. reflexivity.
  - rewrite skipn_app.
    rewrite firstn_app.
    replace (Z.to_nat (last - first + 1) - length (skipn (Z.to_nat first) done))
      with 0 by (rewrite length_skipn; lia).
    simpl. now rewrite app_nil_r.
Qed.

Lemma ranged_app done more c : ranged done c -> ranged (done ++ more) c.
Proof.
  intros (H1 & H2 & H3). split; [exact H1|]. split.
  - rewrite length_app. lia.
  - rewrite linesBetween_app; [exact H3|lia|exact H2].
Qed.

(** A line is read into the buffer. *)
Lemma trackedAt_line done cs buf start line :
  trackedAt done cs buf start ->
  trackedAt (done ++ [line]) cs (buf ++ [line]) start.
Proof.
  intros (H1 & H2 & H3 & H4).
  assert (Hlen : length buf <= length done).
  { rewrite <- H2, length_skipn. lia. }
  split; [|split; [|split]].
  - rewrite !length_app. simpl. lia.
  - rewrite skipn_app, H2. f_equal.
    replace (Z.to_nat start - length done) with 0 by lia. reflexivity.
  - eapply Forall_impl; [exact H3|]. intros oc [Hr He]. split; [|exact He].
    now apply ranged_app.
  - exact H4.
Qed.

(** The whole buffer leaves, as a chunk or for nothing. *)
Lemma trackedAt_drop done cs buf start :
  trackedAt done cs buf start ->
  trackedAt done cs [] (Z.of_nat (length done)).
Proof.
  intros (H1 & H2 & H3 & H4).
  assert (Hlen : length buf <= length done).
  { rewrite <- H2, length_skipn. lia. }
  split; [|split; [|split]].
  - simpl. lia.
  - rewrite Nat2Z.id. apply skipn_all.
  - eapply Forall_impl; [exact H3|]. intros oc [Hr He]. split; [exact Hr|]. lia.
  - exact H4.
Qed.

(** The first [n] lines of the buffer leave as a chunk. *)
Lemma trackedAt_push done cs buf start (o : Origin) c n :
  trackedAt done cs buf start ->
  0 < n <= length buf ->
  startLine c = start ->
  endLine c = (start + Z.of_nat n - 1)%Z ->
  content c = join_nl (firstn n buf) ->
  trackedAt done (cs ++ [(o, c)]) (skipn n buf) (start + Z.of_nat n).
Proof.
  intros (H1 & H2 & H3 & H4) Hn Hs He Hc.
  assert (Hlen : length buf <= length done).
  { rewrite <- H2, length_skipn. lia. }
  split; [|split; [|split]].
  - rewrite length_skipn. lia.
  - rewrite <- H2, skipn_skipn. f_equal. lia.
  - apply Forall_app. split.
    + eapply Forall_impl; [exact H3|]. intros oc [Hr Hend]. split; [exact Hr|]. lia.
    + constructor; [|constructor]. simpl. split; [|lia].
      split; [lia|]. split; [lia|].
      rewrite Hc. unfold linesBetween. rewrite Hs, He.
      replace (Z.to_nat (start + Z.of_nat n - 1 - start + 1)) with n by lia.
      now rewrite H2.
  - rewrite map_app. apply StronglySorted_snoc. split; [exact H4|].
    apply Forall_map. eapply Forall_impl; [exact H3|].
    intros oc [_ Hend]. unfold before. simpl. lia.
Qed.

Lemma tracked_body maxT minT done i line s :
  tracked done i s ->
  tracked (done ++ [line]) (S i) (body maxT minT i line s).
Proof.
  intros [Hi HT]. split; [rewrite length_app; simpl; lia|]. subst i.
  unfold body. destruct (headingMatch line) as [[hashes title]|].
  - unfold onHeading. destruct (currentChunk s) as [|b bs] eqn:Eb.
    + cbn [chunks currentChunk startLineOf]. rewrite ?Eb. rewrite ?Eb in HT.
      now apply (trackedAt_line done _ []).
    + destruct (minT <=? _).
      * cbn [chunks currentChunk startLineOf push].
        apply (trackedAt_line done _ []).
        pose proof HT as (H1 & H2 & _).
        assert (Hlen : length (b :: bs) <= length done).
        { rewrite <- H2, length_skipn. lia. }
        pose proof (trackedAt_push done _ _ _ AtHeading
          (makeChunk s (join_nl (b :: bs)) (Z.of_nat (length done) - 1))
          (length (b :: bs)) HT) as Hp.
        rewrite skipn_all in Hp.
        replace (startLineOf s + Z.of_nat (length (b :: bs)))%Z
          with (Z.of_nat (length done)) in Hp by lia.
        apply Hp; [simpl; lia|reflexivity|simpl in *; lia|].
        now rewrite firstn_all.
      * cbn [chunks currentChunk startLineOf].
        apply (trackedAt_line done _ []).
        now apply trackedAt_drop with (buf := b :: bs) (start := startLineOf s).
  - unfold onLine.
    pose proof (trackedAt_line done _ _ _ line HT) as HL.
    destruct (maxT <=? _); [|exact HL].
    destruct (0 <? _) eqn:Esp; [|exact HL].
    apply Nat.ltb_lt in Esp.
    cbn [chunks currentChunk startLineOf push].
    apply trackedAt_push; [exact HL| |reflexivity|reflexivity|reflexivity].
    split; [exact Esp|]. apply findSplitPoint_range.
Qed.

Lemma tracked_scan maxT minT lines : forall done i s,
  tracked done i s ->
  tracked (done ++ lines) (i + length lines) (scan maxT minT i lines s).
Proof.
  induction lines as [|l ls IH]; intros done i s HT; simpl.
  - now rewrite app_nil_r, Nat.add_0_r.
  - apply (tracked_body maxT minT) with (line := l) in HT.
    apply IH in HT. rewrite <- app_assoc in HT. simpl in HT.
    now replace (i + S (length ls)) with (S i + length ls) by lia.
Qed.

Lemma chunkLines_tracked maxT minT lines :
  Forall (fun oc => ranged lines (snd oc)) (chunks (chunkLines maxT minT lines)) /\
  StronglySorted before (List.map snd (chunks (chunkLines maxT minT lines))).
Proof.
  assert (H0 : tracked [] 0 initial).
  { split; [reflexivity|]. split; [reflexivity|]. split; [reflexivity|].
    split; constructor. }
  apply (tracked_scan maxT minT lines) in H0. simpl in H0.
  destruct H0 as [_ HT]. unfold chunkLines, finish.
  set (s := scan maxT minT 0 lines initial) in *.
  assert (Hs : Forall (fun oc => ranged lines (snd oc)) (chunks s) /\
               StronglySorted before (List.map snd (chunks s))).
  { destruct HT as (_ & _ & H3 & H4). split; [|exact H4].
    eapply Forall_impl; [exact H3|]. now intros oc [Hr _]. }
  destruct (currentChunk s) as [|b bs] eqn:Eb; [exact Hs|].
  destruct (minT <=? _); [|exact Hs].
  pose proof HT as (H1 & H2 & _).
  assert (Hlen : length (b :: bs) <= length lines).
  { rewrite <- H2, length_skipn. lia. }
  pose proof (trackedAt_push lines _ _ _ AtEnd
    (makeChunk s (join_nl (b :: bs)) (Z.of_nat (length lines) - 1))
    (length (b :: bs)) HT) as Hp.
  destruct Hp as (_ & _ & H3 & H4);
    [simpl; lia|reflexivity|simpl in *; lia|now rewrite firstn_all|].
  cbn [chunks push]. split; [|exact H4].
  eapply Forall_impl; [exact H3|]. now intros oc [Hr _].
Qed.

Lemma nth_error_index maxT minT lines i oc :
  nth_error (chunks (chunkLines maxT minT lines)) i = Some oc -> index (snd oc) = i.
Proof.
  intros H. pose proof (chunkLines_indexed maxT minT lines) as Hi. unfold indexed in Hi.
  pose proof (map_nth_error (fun oc => index (snd oc)) _ _ H) as Hm.
  rewrite Hi in Hm.
  rewrite nth_error_seq in Hm.
  destruct (i <? _); [now injection Hm|discriminate].
Qed.

Lemma chunkDocument_index text options i c :
  nth_error (chunkDocument text options) i = Some c -> index c = i.
Proof.
  unfold chunkDocument, chunkDocumentTagged. intros H.
  rewrite nth_error_map in H.
  destruct (nth_error _ i) as [oc|] eqn:E; [|discriminate].
  injection H as <-. exact (nth_error_index _ _ _ _ _ E).
Qed.

Lemma addKeyword_set k ks : k <> [] -> keywordSet ks -> keywordSet (addKeyword k ks).
Proof.
  intros Hk [Hn Hf]. unfold addKeyword.
  destruct (existsb (str_eqb k) ks) eqn:E; [now split|].
  split.
  - apply NoDup_app. split; [exact Hn|]. split; [|apply NoDup_singleton].
    intros x Hx Hxk. apply list_elem_of_singleton in Hxk. subst x.
    apply list_elem_of_In in Hx.
    assert (Ht : existsb (str_eqb k) ks = true).
    { apply List.existsb_exists. exists k. split; [exact Hx|].
      now apply JsonFacts.str_eqb_eq. }
    congruence.
  - apply Forall_app. split; [exact Hf|]. now constructor.
Qed.

Lemma fold_keywordSet {A} (f : list str -> A -> list str) (l : list A) :
  (forall ks x, keywordSet ks -> keywordSet (f ks x)) ->
  forall ks, keywordSet ks -> keywordSet (fold_left f l ks).
Proof.
  intros Hf. induction l as [|x l IH]; intros ks Hk; simpl; auto.
Qed.

Lemma fromEmphasis_set ks m : keywordSet ks -> keywordSet (fromEmphasis ks m).
Proof.
  intros H. unfold fromEmphasis.
  destruct (2 <? _) eqn:E; [|exact H].
  apply addKeyword_set; [|exact H]. apply Nat.ltb_lt in E.
  intros Heq. rewrite Heq in E. simpl in E. lia.
Qed.

Lemma fromFence_set ks l : keywordSet ks -> keywordSet (fromFence ks l).
Proof.
  intros H. unfold fromFence. destruct (trim l) eqn:E; [exact H|].
  now apply addKeyword_set.
Qed.

Lemma fromCapitalized_set ks w : keywordSet ks -> keywordSet (fromCapitalized ks w).
Proof.
  intros H. unfold fromCapitalized.
  destruct (3 <? _) eqn:E; [|exact H].
  apply addKeyword_set; [|exact H]. apply Nat.ltb_lt in E.
  intros Heq. rewrite Heq in E. simpl in E. lia.
Qed.


Lemma extractKeywords_set text :
  exists ks, extractKeywords text = firstn 10 ks /\ keywordSet ks.
Proof.
  unfold extractKeywords. eexists. split; [reflexivity|].
  apply fold_keywordSet; [intros; now apply fromCapitalized_set|].
  apply fold_keywordSet; [intros; now apply fromFence_set|].
  apply fold_keywordSet; [intros; now apply fromEmphasis_set|].
  split; constructor.
Qed.

End ChunkToolsFacts.


(** * More facts about the router *)

Module RouterMoreFacts.
Import JS Value LLM Router Spec RouterFacts ListFacts.


Lemma retryLoop_no_null r name p messages :
  (forall w, generateCompletion p w messages <> Throw ThrownNull) ->
  forall remaining attempt lastError w t w',
    lastError <> ThrownNull \/ 0 < remaining ->
    retryLoop r name p messages remaining attempt lastError w = (Throw t, w') ->
    t <> ThrownNull.
Proof.
  intros Hp remaining. induction remaining as [|rem IH];
    intros attempt lastError w t w' Hl; simpl; unfoldM.
  - intros [= <- _]. destruct Hl as [Hl|Hl]; [exact Hl|lia].
  - destruct (generateCompletion p w messages) as [resp|[e|e|]] eqn:Eg;
      [discriminate| |intros [= <- _]; discriminate|exfalso; exact (Hp w Eg)].
    destruct (retryable e); simpl; [|intros [= <- _]; discriminate].
    destruct (attempt <? retryAttempts r - 1); simpl;
      apply IH; left; discriminate.
Qed.

Lemma tryProviders_throws_llm r messages :
  0 < retryAttempts r ->
  (forall n p, providers r !! n = Some p -> throwsNoNull p) ->
  forall chain lastError w t w',
    tryProviders r messages chain lastError w = (Throw t, w') ->
    exists e, t = ThrownLLM e.
Proof.
  intros Hr Hp chain. induction chain as [|name rest IH];
    intros lastError w t w'; simpl.
  - unfoldM. intros [= <- _]. eauto.
  - destruct (providers r !! name) as [p|] eqn:Ep; [|apply IH].
    destruct (Hp name p Ep w) as [Ha _].
    unfoldM. unfold generateWithRetry.
    destruct (isAvailable p w) as [[|]|[e|e|]] eqn:Ea; simpl;
      [|apply IH|apply IH|apply IH|congruence].
    destruct (retryLoop r name p messages (retryAttempts r) 0 ThrownNull
                (w ++ [EvIsAvailable name (Ok true)])) as [[resp|t0] w0] eqn:Erun;
      simpl; [discriminate|].
    assert (Hn : t0 <> ThrownNull).
    { eapply retryLoop_no_null; [|right; exact Hr|exact Erun].
      intros w1. apply (Hp name p Ep w1). }
    destruct t0 as [e|e|]; simpl; [apply IH|apply IH|congruence].
Qed.

Lemma generate_throws_llm r messages preferredProvider w t w' :
  0 < retryAttempts r ->
  (forall n p, providers r !! n = Some p -> throwsNoNull p) ->
  generate r messages preferredProvider w = (Throw t, w') ->
  exists e, t = ThrownLLM e.
Proof.
  intros Hr Hp. unfold generate.
  destruct (buildProviderChain r preferredProvider) as [|n chain].
  - unfoldM. intros [= <- _]. eauto.
  - now apply tryProviders_throws_llm.
Qed.

Lemma has_register name p r n : has r n = true -> has (registerProvider name p r) n = true.
Proof.
  unfold has, registerProvider. cbn [providers]. intros H.
  destruct (decide (name = n)) as [->|Hne].
  - rewrite lookup_insert_eq. reflexivity.
  - rewrite lookup_insert_ne by exact Hne. exact H.
Qed.

Lemma built_namesRegistered r : built r -> namesRegistered r.
Proof.
  induction 1 as [|name p r _ [IH1 IH2]|name r r' _ [IH1 IH2] Hs
                  |names r r' _ [IH1 IH2] Hs|attempts delay r _ IH].
  - split; [discriminate|constructor].
  - split; simpl.
    + intros d Hd. apply has_register. now apply IH1.
    + eapply Forall_impl; [exact IH2|]. intros n. apply has_register.
  - unfold setDefaultProvider in Hs. destruct (has r name) eqn:Eh; [|discriminate].
    injection Hs as <-. split; simpl.
    + intros d [= <-]. exact Eh.
    + exact IH2.
  - unfold setFallbackChain in Hs.
    destruct (List.find _ names) eqn:Ef; [discriminate|]. injection Hs as <-.
    split; simpl; [exact IH1|].
    apply List.Forall_forall. intros n Hn.
    pose proof (find_none _ _ Ef n Hn) as H. simpl in H.
    change (has r n = true). now destruct (has r n).
  - exact IH.
Qed.

Lemma fold_chain_In (fallbacks : list str) : forall chain n,
  In n (fold_left
          (fun chain fallback => if inChain chain fallback then chain else chain ++ [fallback])
          fallbacks chain) <-> In n chain \/ In n fallbacks.
Proof.
  induction fallbacks as [|f fs IH]; intros chain n; simpl; [tauto|].
  rewrite IH. destruct (inChain chain f) eqn:E.
  - split; [tauto|]. intros [H|[<-|H]]; [tauto| |tauto]. left.
    unfold inChain in E. apply List.existsb_exists in E as (x & Hx & Hxe).
    apply JsonFacts.str_eqb_eq in Hxe. now subst.
  - rewrite in_app_iff. simpl. tauto.
Qed.

Lemma chain_In r preferredProvider n :
  In n (buildProviderChain r preferredProvider) <->
  (given preferredProvider = Some n /\ has r n = true) \/
  given (defaultProvider r) = Some n \/
  In n (fallbackProviders r).
Proof.
  unfold buildProviderChain. rewrite fold_chain_In.
  assert (H1 : forall chain,
    In n (match given (defaultProvider r) with
          | Some d => if inChain chain d then chain else chain ++ [d]
          | None => chain
          end) <-> In n chain \/ given (defaultProvider r) = Some n).
  { intros chain. destruct (given (defaultProvider r)) as [d|].
    - destruct (inChain chain d) eqn:E.
      + split; [tauto|]. intros [H|[= <-]]; [exact H|].
        unfold inChain in E. apply List.existsb_exists in E as (x & Hx & Hxe).
        apply JsonFacts.str_eqb_eq in Hxe. now subst.
      + rewrite in_app_iff. simpl. split; [intros [H|[<-|[]]]; auto|].
        intros [H|[= <-]]; auto.
    - split; [tauto|]. intros [H|H]; [exact H|discriminate]. }
  rewrite H1.
  assert (H2 :
    In n (match given preferredProvider with
          | Some p => if has r p then [p] else []
          | None => []
          end) <-> given preferredProvider = Some n /\ has r n = true).
  { destruct (given preferredProvider) as [p|].
    - destruct (has r p) eqn:E; simpl.
      + split; [intros [<-|[]]; auto|]. intros [[= <-] _]. now left.
      + split; [tauto|]. intros [[= <-] H]. congruence.
    - simpl. split; [tauto|]. intros [H _]. discriminate. }
  rewrite H2. tauto.
Qed.

Lemma given_Some name n : given name = Some n -> name = Some n.
Proof. destruct name as [[|c s]|]; simpl; congruence. Qed.

Lemma chain_registered r preferredProvider :
  built r ->
  Forall (fun n => has r n = true) (buildProviderChain r preferredProvider).
Proof.
  intros Hb. destruct (built_namesRegistered r Hb) as [H1 H2].
  apply List.Forall_forall. intros n Hn.
  apply chain_In in Hn as [[_ H]|[H|H]]; [exact H| |].
  - apply H1. now apply given_Some.
  - rewrite List.Forall_forall in H2. now apply H2.
Qed.

Lemma callsTo_app n a b : callsTo n (a ++ b) = callsTo n a + callsTo n b.
Proof. unfold callsTo. now rewrite List.filter_app, length_app. Qed.

Lemma probesOf_app n a b : probesOf n (a ++ b) = probesOf n a + probesOf n b.
Proof. unfold probesOf. now rewrite List.filter_app, length_app. Qed.

Lemma retried_call name k messages res evs :
  retried name k evs -> retried name (S k) (EvGenerate name messages res :: evs).
Proof.
  intros (H1 & H2 & H3). unfold retried, callsTo, probesOf in *. simpl.
  rewrite str_eqb_refl. simpl. split; [lia|]. split; [exact H2|].
  intros n Hn. rewrite str_eqb_neq by congruence. now apply H3.
Qed.

Lemma retried_sleep name k ms evs : retried name k evs -> retried name k (EvSleep ms :: evs).
Proof. intros H. exact H. Qed.

Lemma retried_nil name k : retried name k [].
Proof. unfold retried, callsTo, probesOf. simpl. repeat split; auto; lia. Qed.

Lemma retryLoop_budget r name p messages remaining : forall attempt lastError w,
  exists evs,
    snd (retryLoop r name p messages remaining attempt lastError w) = w ++ evs /\
    retried name remaining evs.
Proof.
  induction remaining as [|rem IH]; intros attempt lastError w.
  - exists []. simpl. unfoldM. simpl. rewrite app_nil_r. split; [reflexivity|].
    apply retried_nil.
  - simpl. unfoldM.
    assert (Hstop : forall res,
      exists evs,
        w ++ [EvGenerate name messages res] = w ++ evs /\ retried name (S rem) evs).
    { intros res. exists [EvGenerate name messages res]. split; [reflexivity|].
      apply retried_call, retried_nil. }
    destruct (generateCompletion p w messages) as [resp|t] eqn:Eg; [apply Hstop|].
    destruct t as [e|e|]; [|apply Hstop|apply Hstop].
    destruct (retryable e); simpl; [|apply Hstop].
    destruct (attempt <? retryAttempts r - 1) eqn:Ea.
    + destruct (IH (S attempt) (ThrownLLM e)
                  ((w ++ [EvGenerate name messages (Throw (ThrownLLM e))]) ++
                   [EvSleep (retryDelay r * 2 ^ Z.of_nat attempt)]))
        as (evs & Hw & Hc).
      exists (EvGenerate name messages (Throw (ThrownLLM e)) ::
              EvSleep (retryDelay r * 2 ^ Z.of_nat attempt) :: evs).
      split; [rewrite Hw, <- !app_assoc; reflexivity|].
      now apply retried_call, retried_sleep.
    + destruct (IH (S attempt) (ThrownLLM e)
                  (w ++ [EvGenerate name messages (Throw (ThrownLLM e))]))
        as (evs & Hw & Hc).
      exists (EvGenerate name messages (Throw (ThrownLLM e)) :: evs).
      split; [rewrite Hw, <- !app_assoc; reflexivity|].
      now apply retried_call.
Qed.

(** One provider's share, then the rest of the chain. *)
Lemma budget_cons k name rest res evsR evs :
  ~ In name rest ->
  retried name k evsR ->
  withinBudget k rest evs ->
  withinBudget k (name :: rest) (EvIsAvailable name res :: evsR ++ evs).
Proof.
  intros Hnot (R1 & R2 & R3) Hb n.
  change (EvIsAvailable name res :: evsR ++ evs)
    with ([EvIsAvailable name res] ++ evsR ++ evs).
  rewrite !callsTo_app, !probesOf_app, R2.
  change (callsTo n [EvIsAvailable name res]) with 0.
  assert (P0 : probesOf n [EvIsAvailable name res] = if str_eqb name n then 1 else 0).
  { unfold probesOf. simpl. now destruct (str_eqb name n). }
  rewrite P0. destruct (Hb n) as [Hin Hout].
  destruct (decide (n = name)) as [->|Hne].
  - destruct (Hout Hnot) as [C P]. rewrite C, P, str_eqb_refl.
    split; [intros _; lia|]. intros H. exfalso. apply H. now left.
  - rewrite (R3 n Hne), (str_eqb_neq name n) by congruence. simpl. split.
    + intros [H|H]; [congruence|]. now apply Hin.
    + intros H. apply Hout. intros Hr. apply H. now right.
Qed.

Lemma budget_weaken k name rest evs :
  ~ In name rest -> withinBudget k rest evs -> withinBudget k (name :: rest) evs.
Proof.
  intros Hnot Hb n. destruct (Hb n) as [Hin Hout]. split.
  - intros [<-|H]; [|now apply Hin]. destruct (Hout Hnot) as [-> ->]. lia.
  - intros H. apply Hout. intros Hr. apply H. now right.
Qed.

Lemma budget_nil k chain : withinBudget k chain [].
Proof. intros n. unfold callsTo, probesOf. simpl. split; intros _; split; lia. Qed.

Lemma tryProviders_budget r messages chain : List.NoDup chain ->
  forall lastError w,
  exists evs,
    snd (tryProviders r messages chain lastError w) = w ++ evs /\
    withinBudget (retryAttempts r) chain evs.
Proof.
  induction 1 as [|name rest Hnot Hnd IH]; intros lastError w.
  - exists []. simpl. unfoldM. simpl. rewrite app_nil_r. split; [reflexivity|].
    apply budget_nil.
  - simpl. destruct (providers r !! name) as [p|].
    2:{ destruct (IH lastError w) as (evs & Hw & Hb). exists evs.
        split; [exact Hw|]. now apply budget_weaken. }
    unfoldM. unfold generateWithRetry.
    set (res0 := isAvailable p w).
    assert (Hnext : forall le evsR,
      retried name (retryAttempts r) evsR ->
      exists evs,
        snd (tryProviders r messages rest le ((w ++ [EvIsAvailable name res0]) ++ evsR))
          = w ++ evs /\
        withinBudget (retryAttempts r) (name :: rest) evs).
    { intros le evsR HR.
      destruct (IH le ((w ++ [EvIsAvailable name res0]) ++ evsR)) as (evs & Hw & Hb).
      exists (EvIsAvailable name res0 :: evsR ++ evs).
      split; [rewrite Hw, <- !app_assoc; reflexivity|].
      now apply budget_cons. }
    assert (Hstop : forall evsR,
      retried name (retryAttempts r) evsR ->
      exists evs,
        (w ++ [EvIsAvailable name res0]) ++ evsR = w ++ evs /\
        withinBudget (retryAttempts r) (name :: rest) evs).
    { intros evsR HR. exists (EvIsAvailable name res0 :: evsR ++ []).
      split; [rewrite app_nil_r, <- app_assoc; reflexivity|].
      apply budget_cons; [exact Hnot|exact HR|apply budget_nil]. }
    assert (Hnext0 : forall le,
      exists evs,
        snd (tryProviders r messages rest le (w ++ [EvIsAvailable name res0])) = w ++ evs /\
        withinBudget (retryAttempts r) (name :: rest) evs).
    { intros le. destruct (Hnext le [] (retried_nil _ _)) as (evs & Hw & Hb).
      rewrite app_nil_r in Hw. eauto. }
    assert (Hstop0 :
      exists evs,
        w ++ [EvIsAvailable name res0] = w ++ evs /\
        withinBudget (retryAttempts r) (name :: rest) evs).
    { destruct (Hstop [] (retried_nil _ _)) as (evs & Hw & Hb).
      rewrite app_nil_r in Hw. eauto. }
    subst res0.
    destruct (isAvailable p w) as [[|]|t] eqn:Ea; simpl.
    + destruct (retryLoop_budget r name p messages (retryAttempts r) 0 ThrownNull
                  (w ++ [EvIsAvailable name (Ok true)])) as (evsR & Hw & HR).
      destruct (retryLoop r name p messages (retryAttempts r) 0 ThrownNull
                  (w ++ [EvIsAvailable name (Ok true)])) as [res w'] eqn:Erun.
      simpl in Hw. subst w'.
      destruct res as [resp|t]; simpl; [now apply Hstop|].
      destruct t as [e|e|]; simpl; [now apply Hnext|now apply Hnext|now apply Hstop].
    + apply Hnext0.
    + destruct t as [e|e|]; simpl; [apply Hnext0|apply Hnext0|apply Hstop0].
Qed.


End RouterMoreFacts.


(** * More facts about the provider *)

Module ProviderMoreFacts.
Import JS Value LLM Provider ProviderSetup Spec ProviderFacts.

Lemma isAvailable_total config requestUrl :
  exists b, isAvailable config requestUrl = Ok b.
Proof.
  unfold isAvailable, tryCatch. destruct config as [cfg|]; [|eauto].
  destruct (LLMConfig.endpoint cfg); [eauto|].
  destruct (requestUrl (modelsRequest cfg)); [eauto|].
  destruct (requestUrl (minimalRequest cfg)); eauto.
Qed.


Lemma initialize_outcome cfg requestUrl :
  fst (initialize cfg requestUrl) = Some cfg /\
  match snd (initialize cfg requestUrl) with
  | Ok _ => LLMConfig.endpoint cfg <> [] /\ LLMConfig.model cfg <> []
  | Throw t =>
      (LLMConfig.endpoint cfg = [] \/ LLMConfig.model cfg = []) /\
      exists e, t = ThrownLLM e /\ type e = INVALID_CONFIG /\ retryable e = false
  end.
Proof.
  split; [reflexivity|]. unfold initialize. cbn [snd].
  destruct (LLMConfig.endpoint cfg) as [|c s] eqn:Ee.
  - split; [now left|]. eexists. repeat split.
  - destruct (LLMConfig.model cfg) as [|c' s'] eqn:Em.
    + split; [now right|]. eexists. repeat split.
    + destruct (isAvailable_total (Some cfg) requestUrl) as [b Hb].
      rewrite Hb. simpl. split; discriminate.
Qed.

Lemma parseResponse_no_null config data : Provider.parseResponse config data <> Throw ThrownNull.
Proof.
  unfold Provider.parseResponse.
  match goal with |- tryCatch ?r _ <> _ => destruct r as [resp|[e|e|]] end;
    unfold tryCatch, mbind, result_bind, bindR, throwError; simpl.
  all: discriminate.
Qed.

Lemma generateCompletion_no_null config requestUrl messages :
  Provider.generateCompletion config requestUrl messages <> Throw ThrownNull.
Proof.
  unfold Provider.generateCompletion. destruct config as [cfg|]; [|discriminate].
  match goal with |- tryCatch ?r _ <> _ => destruct r as [resp|[e|e|]] end;
    unfold tryCatch, mbind, result_bind, bindR, throwError; simpl.
  all: discriminate.
Qed.


End ProviderMoreFacts.


(** * More facts about the generator *)

Module GeneratorMoreFacts.
Import JS Value Json LLM Prompt Generator Spec GeneratorFacts.


(** Quality *)
Lemma confidenceOr_unit c :
  (forall q, c = Some q -> inUnit q) -> inUnit (confidenceOr c (8 # 10)).
Proof.
  intros H. unfold confidenceOr. destruct c as [q|].
  - destruct (Qeq_bool q 0); [split; lra|]. now apply H.
  - split; lra.
Qed.

Lemma sum_unit cards :
  Forall (fun c => forall q, confidence c = Some q -> inUnit q) cards ->
  forall acc,
    (acc <= fold_left (fun sum card => sum + confidenceOr (confidence card) (8 # 10))
              cards acc)%Q /\
    (fold_left (fun sum card => sum + confidenceOr (confidence card) (8 # 10)) cards acc
       <= acc + inject_Z (Z.of_nat (length cards)))%Q.
Proof.
  induction 1 as [|c cards Hc _ IH]; intros acc.
  - cbn [fold_left length]. change (inject_Z (Z.of_nat 0)) with 0%Q. split; lra.
  - cbn [fold_left length]. destruct (IH (acc + confidenceOr (confidence c) (8 # 10))%Q)
      as [I1 I2].
    destruct (confidenceOr_unit _ Hc) as [C1 C2].
    rewrite Nat2Z.inj_succ, <- Z.add_1_r, inject_Z_plus.
    change (inject_Z 1) with 1%Q. split; lra.
Qed.

(** Priorities *)
Lemma insertChunk_perm x l : Permutation (insertChunk x l) (x :: l).
Proof.
  induction l as [|y rest IH]; simpl; [reflexivity|].
  destruct (Qle_bool _ _); [reflexivity|].
  rewrite IH. apply perm_swap.
Qed.

Lemma insertChunk_sorted x l :
  StronglySorted moreImportant l -> StronglySorted moreImportant (insertChunk x l).
Proof.
  induction 1 as [|y rest Hs IH Hall]; simpl; [repeat constructor|].
  destruct (Qle_bool (Chunker.importance y) (Chunker.importance x)) eqn:E.
  - apply Qle_bool_iff in E. constructor; [now constructor|].
    constructor; [exact E|].
    eapply Forall_impl; [exact Hall|]. unfold moreImportant. intros z Hz. lra.
  - assert (Hlt : (Chunker.importance x < Chunker.importance y)%Q).
    { apply Qnot_le_lt. intros H. apply Qle_bool_iff in H. congruence. }
    constructor; [exact IH|].
    apply List.Forall_forall. intros z Hz.
    apply (Permutation_in _ (insertChunk_perm x rest)) in Hz.
    destruct Hz as [<-|Hz]; [unfold moreImportant; lra|].
    rewrite List.Forall_forall in Hall. now apply Hall.
Qed.

Lemma insertChunk_class q x l :
  List.filter (fun c => Qeq_bool (Chunker.importance c) q) (insertChunk x l) =
  List.filter (fun c => Qeq_bool (Chunker.importance c) q) (x :: l).
Proof.
  induction l as [|y rest IH]; [reflexivity|].
  cbn [insertChunk].
  destruct (Qle_bool (Chunker.importance y) (Chunker.importance x)) eqn:E; [reflexivity|].
  cbn [List.filter] in *. rewrite IH.
  destruct (Qeq_bool (Chunker.importance x) q) eqn:Ex; [|reflexivity].
  destruct (Qeq_bool (Chunker.importance y) q) eqn:Ey; [|reflexivity].
  apply Qeq_bool_iff in Ex, Ey.
  assert (H : Qle_bool (Chunker.importance y) (Chunker.importance x) = true).
  { apply Qle_bool_iff. rewrite Ex, Ey. apply Qle_refl. }
  congruence.
Qed.

(** Summary *)
Lemma summaryLines_spec lines : forall headings samples,
  summaryLines lines headings samples =
    (headings ++ List.filter startsHeading lines,
     samples ++ firstn (10 - length samples) (List.filter sampleLine lines)).
Proof.
  induction lines as [|line rest IH]; intros headings samples; simpl.
  - rewrite firstn_nil, !app_nil_r. reflexivity.
  - unfold sampleLine at 1. destruct (startsHeading line); simpl.
    + rewrite IH, <- app_assoc. reflexivity.
    + destruct (length samples <? 10) eqn:El; simpl.
      * destruct (50 <? length (trim line)); simpl; [|apply IH].
        rewrite IH, <- app_assoc, length_app. simpl.
        apply Nat.ltb_lt in El.
        replace (10 - length samples) with (S (10 - (length samples + 1))) by lia.
        reflexivity.
      * rewrite IH. apply Nat.ltb_ge in El.
        replace (10 - length samples) with 0 by lia.
        destruct (50 <? length (trim line)); reflexivity.
Qed.

(** The loop *)
Lemma generateCardsForChunk_id eng g chunk context st batch st' :
  generateCardsForChunk eng g chunk context st = (Ok batch, st') ->
  chunkId batch = Chunker.id chunk.
Proof.
  unfold generateCardsForChunk. unfoldG.
  destruct (renderPrompt eng (promptManager g) (lit "generate_cards_enhanced") _)
    as [messages|t]; [|discriminate].
  destruct (Router.generate (llmRouter g) messages None (snd st)) as [[response|t] w'];
    [|discriminate].
  intros [= <- _]. reflexivity.
Qed.

Lemma generateLoop_shape eng g maxC plan ov n chunks :
  forall i total previous items w,
  i + length chunks <= n ->
  exists total' new w',
    generateLoop eng g maxC plan ov n i chunks total previous (items, w) =
      (Ok total', (items ++ new, w')) /\
    sublist (batchIds new) (List.map Chunker.id chunks) /\
    Forall (inPass3 maxC n) new.
Proof.
  induction chunks as [|chunk rest IH]; intros i total previous items w Hn; simpl.
  - exists total, [], w. unfoldG. rewrite app_nil_r.
    split; [reflexivity|]. split; constructor.
  - destruct (total <? maxC) eqn:Elt; simpl.
    2:{ exists total, [], w. unfoldG. rewrite app_nil_r.
        split; [reflexivity|]. split; [apply sublist_nil_l|constructor]. }
    unfoldG. simpl.
    match goal with |- context [Progress ?p] => set (gen := Progress p) end.
    assert (Hgen : inPass3 maxC n gen).
    { simpl. intros _. apply Nat.ltb_lt in Elt. split; [exact Elt|].
      split; [reflexivity|]. exists (i + 1). simpl in Hn. split; [reflexivity|lia]. }
    match goal with |- context [generateCardsForChunk eng g chunk ?c] =>
      destruct (generateCardsForChunk_items eng g chunk c (items ++ [gen]) w)
        as (r & w1 & Hrun); rewrite Hrun;
      pose proof (generateCardsForChunk_id eng g chunk c (items ++ [gen], w)) as Hid end.
    simpl in Hn.
    destruct r as [batch|t]; simpl.
    + specialize (Hid batch _ Hrun).
      destruct (maxC <=? total + length (cards batch)).
      * exists (total + length (cards batch)), [gen; Batch batch], w1.
        rewrite <- app_assoc. simpl.
        split; [reflexivity|]. split.
        -- unfold batchIds. simpl. rewrite Hid. apply sublist_skip, sublist_nil_l.
        -- constructor; [exact Hgen|]. constructor; [exact I|constructor].
      * destruct (IH (S i) (total + length (cards batch)) (summary batch)
                    ((items ++ [gen]) ++ [Batch batch]) w1 ltac:(lia))
          as (total' & new & w' & Hloop & Hsub & Hnew).
        exists total', ([gen; Batch batch] ++ new), w'.
        rewrite Hloop. rewrite <- !app_assoc. simpl.
        split; [reflexivity|]. split.
        -- unfold batchIds in *. simpl. rewrite Hid. now apply sublist_skip.
        -- constructor; [exact Hgen|]. constructor; [exact I|exact Hnew].
    + destruct (IH (S i) total previous (items ++ [gen]) w1 ltac:(lia))
        as (total' & new & w' & Hloop & Hsub & Hnew).
      exists total', ([gen] ++ new), w'.
      rewrite Hloop. rewrite <- !app_assoc. simpl.
      split; [reflexivity|]. split.
      * unfold batchIds in *. simpl. now apply sublist_cons.
      * constructor; auto.
Qed.

Lemma overviewHeadings_lines chunks :
  match overviewHeadings chunks with
  | Ok lines =>
      Forall (fun c => Chunker.level c <> 0) chunks /\ lines = List.map overviewLine chunks
  | Throw t => t = rangeError /\ Exists (fun c => Chunker.level c = 0) chunks
  end.
Proof.
  induction chunks as [|c rest IH]; simpl; [split; constructor|].
  destruct (Chunker.level c) as [|n] eqn:El.
  - split; [reflexivity|]. now constructor.
  - destruct (overviewHeadings rest) as [hs|t]; simpl.
    + destruct IH as [IH1 ->]. split; [constructor; [lia|exact IH1]|].
      unfold overviewLine at 2. rewrite El. simpl. now rewrite Nat.sub_0_r.
    + destruct IH as [-> IH]. split; [reflexivity|]. now apply Exists_cons_tl.
Qed.


End GeneratorMoreFacts.


(** * Facts about the smart card generator *)

Module CardGeneratorFacts.
Import JS Value Json LLM Prompt Router CardGenerator Spec RouterFacts ListFacts.


Lemma JSON_parse_throws text t : JSON_parse text = Throw t -> exists e, t = ThrownError e.
Proof.
  unfold JSON_parse, throwError.
  destruct (parseValue _ _) as [[v rest]|]; [|intros [= <-]; eauto].
  destruct (skipSpace rest); [discriminate|intros [= <-]; eauto].
Qed.

Lemma parseJsonAnswer_throws response t :
  Generator.parseJsonAnswer response = Throw t -> exists e, t = ThrownError e.
Proof.
  unfold Generator.parseJsonAnswer, throwError.
  destruct response; try (intros [= <-]; eauto); apply JSON_parse_throws.
Qed.

Lemma orElse_truthy v d : truthy d = true -> truthy (orElse v d) = true.
Proof. intros H. unfold orElse. destruct (truthy v) eqn:E; [exact E|exact H]. Qed.

Lemma nonEmptyString_orElse v d : nonEmptyString v = true -> orElse v d = v.
Proof. destruct v as [| | | |[|c s]| |]; try discriminate. reflexivity. Qed.

Lemma valid_checked card c :
  isValidCard card = true -> normalize card = Some c -> checkedCard c.
Proof.
  destruct card as [| | | | | |fields]; try discriminate. simpl.
  intros Hv [= <-]. unfold checkedCard. cbn [cardType cardTags cardConfidence cardFront cardBack].
  split; [now apply orElse_truthy|]. split; [now apply orElse_truthy|].
  split; [now apply orElse_truthy|].
  destruct (isString (lit "cloze") (Generator.property (lit "type") fields)) eqn:Ec.
  - left. destruct (Generator.property (lit "type") fields) as [| | | |s| |];
      try discriminate.
    simpl in Ec. apply JsonFacts.str_eqb_eq in Ec. subst s. reflexivity.
  - right. apply andb_true_iff in Hv as [Hf Hb].
    rewrite (nonEmptyString_orElse _ _ Hf), (nonEmptyString_orElse _ _ Hb). auto.
Qed.

Lemma sectionLoop_total eng g options todo : forall allCards w,
  exists cards w', sectionLoop eng g options todo allCards w = (Ok cards, w').
Proof.
  induction todo as [|section rest IH]; intros allCards w; simpl.
  - unfoldM. eauto.
  - unfoldM.
    destruct (generateCardsFromSection eng g section options w) as [[cards|t] w1]; simpl.
    + destruct (reached options (allCards ++ cards)); [eauto|apply IH].
    + apply IH.
Qed.

Lemma slice0_length {A} n (l : list A) :
  (0 < n)%Z -> (Z.of_nat (length (slice0 n l)) <= n)%Z.
Proof.
  intros Hn. unfold slice0. destruct (Z.ltb_spec n 0); [lia|].
  rewrite length_firstn. lia.
Qed.

Lemma generateCards_ok eng g text options w :
  exists cards w',
    generateCards eng g text options w = (Ok cards, w') /\
    match limit options with
    | Some n => if (0 <? n)%Z then (Z.of_nat (length cards) <= n)%Z else True
    | None => True
    end.
Proof.
  unfold generateCards. unfoldM.
  destruct (sectionLoop_total eng g options (sectionsToProcess text options) [] w)
    as (cards & w' & H). rewrite H.
  destruct (limit options) as [n|]; simpl; [|eauto].
  eexists. eexists. split; [reflexivity|].
  destruct (Z.ltb_spec 0 n); [|exact I]. now apply slice0_length.
Qed.

Lemma valueOf_inked line : inked (valueOf line).
Proof.
  unfold valueOf, inked.
  destruct (trim _) eqn:E; [now left|]. right. rewrite <- E, trim_ink.
  apply trim_nonempty_ink. rewrite E. discriminate.
Qed.

Lemma readFields_inked lines : forall front back state,
  inked front -> inked back ->
  inked (fst (readFields lines front back state)) /\
  inked (snd (readFields lines front back state)).
Proof.
  induction lines as [|line rest IH]; intros front back state Hf Hb; simpl; [auto|].
  destruct (includes (lit "front:") (toLowerCase line)).
  { apply IH; [apply valueOf_inked|exact Hb]. }
  destruct (includes (lit "back:") (toLowerCase line)).
  { apply IH; [exact Hf|apply valueOf_inked]. }
  assert (Hink : forall acc c t, trim line = c :: t -> inked (acc ++ lit " " ++ c :: t)).
  { intros acc c t E. right. rewrite !hasInk_app. rewrite <- E, trim_ink.
    rewrite (trim_nonempty_ink line) by (rewrite E; discriminate).
    now rewrite !orb_true_r. }
  destruct state; destruct (trim line) as [|c t] eqn:Et; try (now apply IH).
  - apply IH; [now apply Hink|exact Hb].
  - apply IH; [exact Hf|now apply Hink].
Qed.

Lemma clean_trim s : s <> [] -> inked s -> cleanText (JStr (trim s)).
Proof.
  intros Hn [->|Hi]; [contradiction|].
  exists (trim s). split; [reflexivity|]. split; [now apply trim_ink_nonempty|].
  apply trim_idempotent.
Qed.


End CardGeneratorFacts.


(** * Facts about createLLMSystem *)

Module SystemFacts.
Import JS Value LLM Prompt Router Spec RouterFacts RouterMoreFacts ProviderMoreFacts System.


Lemma asProvider_no_null cfg net : throwsNoNull (asProvider cfg net).
Proof.
  intros w. split.
  - unfold asProvider. cbn [isAvailable].
    destruct (isAvailable_total (Some cfg) (test net w)) as [b Hb].
    rewrite Hb. discriminate.
  - intros messages. apply generateCompletion_no_null.
Qed.

Lemma sound_register n cfg net r : sound r -> sound (registerProvider n (asProvider cfg net) r).
Proof.
  intros (Hb & Hr & Hp). split; [now constructor|]. split; [exact Hr|].
  intros n' p. unfold registerProvider. cbn [Router.providers].
  destruct (decide (n = n')) as [->|Hne].
  - rewrite lookup_insert_eq. intros [= <-]. apply asProvider_no_null.
  - rewrite lookup_insert_ne by exact Hne. apply Hp.
Qed.

Lemma addProviders_sound settings net entries : forall router,
  sound router ->
  match addProviders settings net entries router with
  | Ok router' => sound router'
  | Throw t => isInvalidConfig t
  end.
Proof.
  induction entries as [|entry rest IH]; intros router Hs; cbn [addProviders];
    [exact Hs|].
  destruct (enabled entry); cbn [negb]; [|now apply IH].
  pose proof (initialize_outcome (configOf settings entry) (test net [])) as [_ Hi].
  unfold mbind, result_bind, bindR.
  destruct (snd (ProviderSetup.initialize _ _)) as [[]|t].
  - apply IH. now apply sound_register.
  - destruct Hi as [_ Hi]. exact Hi.
Qed.

Lemma setDefaultProvider_sound d r :
  sound r ->
  match setDefaultProvider d r with
  | Ok r' => sound r'
  | Throw t => isInvalidConfig t
  end.
Proof.
  intros (Hb & Hr & Hp).
  destruct (setDefaultProvider d r) as [r'|t] eqn:E.
  - split; [now apply (built_default d r)|].
    unfold setDefaultProvider in E. destruct (has r d); [|discriminate].
    injection E as <-. split; assumption.
  - unfold setDefaultProvider in E. destruct (has r d); [discriminate|].
    injection E as <-. eexists. repeat split.
Qed.

Lemma setFallbackChain_sound names r :
  sound r ->
  match setFallbackChain names r with
  | Ok r' => sound r'
  | Throw t => isInvalidConfig t
  end.
Proof.
  intros (Hb & Hr & Hp).
  destruct (setFallbackChain names r) as [r'|t] eqn:E.
  - split; [now apply (built_fallback names r)|].
    unfold setFallbackChain in E. destruct (List.find _ names); [discriminate|].
    injection E as <-. split; assumption.
  - unfold setFallbackChain in E. destruct (List.find _ names); [|discriminate].
    injection E as <-. eexists. repeat split.
Qed.


End SystemFacts.


(** * Facts about the content analyzer *)

Module AnalyzerFacts.
Import JS Analyzer Spec ListFacts.


Lemma calculateHeadingPotential_range text k :
  (calculateHeadingPotential text k <= 1)%Q /\
  (k <= 6 -> (5 # 10 <= calculateHeadingPotential text k)%Q).
Proof.
  unfold calculateHeadingPotential. split; [apply Q.le_min_r|].
  intros Hk. apply Q.min_glb; [|lra].
  assert (H : (0 <= inject_Z (6 - Z.of_nat k) * (5 # 100))%Q).
  { apply Qmult_le_0_compat; [|lra].
    replace 0%Q with (inject_Z 0) by reflexivity. rewrite <- Zle_Qle. lia. }
  set (x := (inject_Z (6 - Z.of_nat k) * (5 # 100))%Q) in *. clearbody x.
  destruct (_ || _); destruct (anyOf _ _); lra.
Qed.

Lemma calculateParagraphPotential_range text :
  (3 # 10 <= calculateParagraphPotential text)%Q /\
  (calculateParagraphPotential text <= 1)%Q.
Proof.
  unfold calculateParagraphPotential. split; [|apply Q.le_min_r].
  apply Q.min_glb; [|lra].
  repeat match goal with |- context [if ?b then _ else _] => destruct b end; lra.
Qed.

Lemma pushCurrent_some st c : currentSection st = Some c -> pushCurrent st = done st ++ [c].
Proof. unfold pushCurrent. now intros ->. Qed.

Lemma pushCurrent_none st : currentSection st = None -> pushCurrent st = done st.
Proof. unfold pushCurrent. now intros ->. Qed.

Lemma span_endAt n c a b : span c = Some (a, b) -> span (endAt n c) = Some (a, n).
Proof.
  unfold span, endAt. simpl. destruct (metadata c) as [[[a'|] [b'|] p]|]; simpl;
    try discriminate. now intros [= -> _].
Qed.

Lemma grown_ended n sep trimmed c a b :
  span c = Some (a, b) ->
  exists b', span (endAt n (append sep trimmed c)) = Some (a, b') /\ (b' = b \/ b' = n).
Proof.
  intros H. exists n. split; [|now right].
  apply (span_endAt n (append sep trimmed c) a b). exact H.
Qed.

Lemma grown_appended n sep trimmed c a b :
  span c = Some (a, b) ->
  exists b', span (append sep trimmed c) = Some (a, b') /\ (b' = b \/ b' = n).
Proof. intros H. exists b. split; [exact H|now left]. Qed.

Lemma block_step ty potential trimmed st :
  (forall text, scoredByType (fresh ty text potential 0 [])) ->
  Transition (S (lineNumber st)) (pushCurrent st)
    (pushCurrent (block ty potential trimmed (S (lineNumber st)) st)).
Proof.
  intros Hs. unfold block.
  assert (Hnew : Transition (S (lineNumber st)) (pushCurrent st)
            (pushCurrent
               {| done := pushCurrent st;
                  currentSection :=
                    Some (fresh ty trimmed potential (S (lineNumber st)) (currentHeading st));
                  lineNumber := S (lineNumber st);
                  currentHeading := currentHeading st |})).
  { eapply Added; [reflexivity|reflexivity|]. exact (Hs trimmed). }
  destruct (currentSection st) as [c|] eqn:Ec; [|exact Hnew].
  destruct (sameType (type c) ty); [|exact Hnew].
  rewrite (pushCurrent_some st c Ec). unfold pushCurrent. cbn [currentSection done].
  eapply Grown; [reflexivity|reflexivity|reflexivity|reflexivity|reflexivity|].
  apply grown_ended.
Qed.

Lemma countHashes_pos s : prefix_by N.eqb (lit "#") s = true -> 1 <= Chunker.countHashes s.
Proof.
  change (lit "#") with [35%N].
  destruct s as [|c s]; cbn [prefix_by Chunker.countHashes]; [discriminate|].
  destruct (N.eqb_spec 35 c) as [<-|Hne]; [intros _; simpl; lia|discriminate].
Qed.

Lemma body_step line st :
  Transition (S (lineNumber st)) (pushCurrent st) (pushCurrent (body line st)) /\
  lineNumber (body line st) = S (lineNumber st).
Proof.
  unfold body. destruct (trim line) as [|t0 ts] eqn:Et.
  { split; [now apply Same|reflexivity]. }
  set (trimmed := t0 :: ts) in *.
  destruct (prefix_by N.eqb (lit "#") trimmed) eqn:Eh.
  { split; [|reflexivity]. eapply Added; [reflexivity|reflexivity|].
    unfold scoredByType. cbn [type level cardPotential].
    eexists. split; [reflexivity|]. split; [now apply countHashes_pos|].
    apply calculateHeadingPotential_range. }
  destruct (bulleted trimmed || numbered trimmed).
  { split; [now apply block_step|]. unfold block.
    destruct (currentSection st) as [c|]; [destruct (sameType _ _)|]; reflexivity. }
  destruct (prefix_by N.eqb (lit ">") trimmed).
  { split; [now apply block_step|]. unfold block.
    destruct (currentSection st) as [c|]; [destruct (sameType _ _)|]; reflexivity. }
  destruct (prefix_by N.eqb Chunker.backticks trimmed).
  { assert (Hnew : Transition (S (lineNumber st)) (pushCurrent st)
              (pushCurrent
                 {| done := pushCurrent st;
                    currentSection :=
                      Some (fresh TCode trimmed (4 # 10) (S (lineNumber st))
                              (currentHeading st));
                    lineNumber := S (lineNumber st);
                    currentHeading := currentHeading st |})).
    { eapply Added; [reflexivity|reflexivity|reflexivity]. }
    destruct (currentSection st) as [c|] eqn:Ec; [|split; [exact Hnew|reflexivity]].
    destruct (sameType (type c) TCode); [|split; [exact Hnew|reflexivity]].
    split; [|reflexivity].
    rewrite (pushCurrent_some st c Ec). unfold pushCurrent. cbn [currentSection done].
    eapply Grown; [reflexivity|reflexivity|reflexivity|reflexivity|reflexivity|].
    apply grown_ended. }
  destruct (includes (lit "|") trimmed).
  { split; [now apply block_step|]. unfold block.
    destruct (currentSection st) as [c|]; [destruct (sameType _ _)|]; reflexivity. }
  assert (Hp : scoredByType
                 (fresh TParagraph trimmed (calculateParagraphPotential trimmed)
                    (S (lineNumber st)) (currentHeading st))).
  { unfold scoredByType. cbn [type fresh cardPotential].
    apply calculateParagraphPotential_range. }
  destruct (currentSection st) as [c|] eqn:Ec.
  2:{ split; [|reflexivity]. rewrite (pushCurrent_none st Ec).
      unfold pushCurrent. cbn [currentSection done].
      eapply Added; [reflexivity|reflexivity|exact Hp]. }
  rewrite (pushCurrent_some st c Ec).
  destruct (sameType (type c) TParagraph).
  { split; [|reflexivity]. unfold pushCurrent. cbn [currentSection done].
    eapply Grown; [reflexivity|reflexivity|reflexivity|reflexivity|reflexivity|].
    apply grown_ended. }
  destruct (sameType (type c) TCode).
  { split; [|reflexivity]. unfold pushCurrent. cbn [currentSection done].
    eapply Grown; [reflexivity|reflexivity|reflexivity|reflexivity|reflexivity|].
    apply grown_appended. }
  split; [|reflexivity]. unfold pushCurrent. cbn [currentSection done].
  eapply Added; [reflexivity|reflexivity|exact Hp].
Qed.

Lemma spanned_mono n m s : n <= m -> spanned n s -> spanned m s.
Proof. intros Hn (a & b & H & Hab & Hb). exists a, b. repeat split; try tauto; lia. Qed.

Lemma step_inv n before after :
  Transition (S n) before after -> sectionsInv n before -> sectionsInv (S n) after.
Proof.
  intros Hstep (H1 & H2 & H3).
  assert (H1' : Forall (spanned (S n)) before).
  { eapply Forall_impl; [exact H1|]. intros s. apply spanned_mono. lia. }
  destruct Hstep as [->|new -> Hspan Hsc|front c c' -> -> Ht Hl Hp Hspan].
  - now split.
  - split; [|split].
    + apply Forall_app. split; [exact H1'|]. constructor; [|constructor].
      exists (S n), (S n). split; [exact Hspan|lia].
    + apply StronglySorted_snoc. split; [exact H2|].
      eapply Forall_impl; [exact H1|]. intros s (a & b & Hs & Hab & Hb).
      unfold above. rewrite Hs, Hspan. lia.
    + apply Forall_app. split; [exact H3|]. now constructor.
  - apply Forall_app in H1 as [F1 Fc]. apply Forall_app in H1' as [F1' _].
    apply StronglySorted_snoc in H2 as [S1 Sc]. apply Forall_app in H3 as [G1 Gc].
    inversion Fc as [|? ? (a & b & Hs & Hab & Hb) _]; subst.
    destruct (Hspan a b Hs) as (b' & Hs' & Hb').
    split; [|split].
    + apply Forall_app. split; [exact F1'|]. constructor; [|constructor].
      exists a, b'. split; [exact Hs'|]. lia.
    + apply StronglySorted_snoc. split; [exact S1|].
      eapply Forall_impl; [exact Sc|]. intros s. unfold above.
      rewrite Hs, Hs'. tauto.
    + apply Forall_app. split; [exact G1|]. constructor; [|constructor].
      inversion Gc as [|? ? Hc _]; subst. unfold scoredByType in *.
      rewrite Ht, Hl, Hp. exact Hc.
Qed.

Lemma fold_inv lines : forall st,
  sectionsInv (lineNumber st) (pushCurrent st) ->
  let st' := fold_left (fun s line => body line s) lines st in
  sectionsInv (lineNumber st') (pushCurrent st') /\
  lineNumber st' = lineNumber st + length lines.
Proof.
  induction lines as [|line rest IH]; intros st H; simpl.
  - split; [exact H|lia].
  - destruct (body_step line st) as [Hs Hn].
    assert (H' : sectionsInv (lineNumber (body line st)) (pushCurrent (body line st))).
    { rewrite Hn. eapply step_inv; [exact Hs|exact H]. }
    destruct (IH _ H') as [I1 I2]. split; [exact I1|]. rewrite I2, Hn. lia.
Qed.

Lemma extractSections_inv markdown :
  sectionsInv (length (split_nl markdown)) (extractSections markdown).
Proof.
  unfold extractSections.
  destruct (fold_inv (split_nl markdown) initial) as [H1 H2].
  { split; [|split]; constructor. }
  simpl in H2. rewrite H2 in H1. exact H1.
Qed.

(** Groups *)
Lemma groupLoop_concat sections : forall groups currentGroup heading,
  concat (groupLoop sections groups currentGroup heading) =
    concat groups ++ currentGroup ++ sections /\
  (Forall (fun g => g <> []) groups ->
   Forall (fun g => g <> []) (groupLoop sections groups currentGroup heading)).
Proof.
  induction sections as [|section rest IH]; intros groups currentGroup heading; simpl.
  - destruct currentGroup as [|c cs]; [split; [now rewrite app_nil_r|auto]|].
    split.
    + rewrite concat_app. simpl. now rewrite !app_nil_r.
    + intros H. apply Forall_app. split; [exact H|]. now constructor.
  - assert (Hclosed :
      let closed := match currentGroup with [] => groups | _ => groups ++ [currentGroup] end in
      concat closed = concat groups ++ currentGroup /\
      (Forall (fun g => g <> []) groups -> Forall (fun g => g <> []) closed)).
    { destruct currentGroup as [|c cs]; simpl.
      - split; [now rewrite app_nil_r|auto].
      - split; [rewrite concat_app; simpl; now rewrite app_nil_r|].
        intros H. apply Forall_app. split; [exact H|]. now constructor. }
    destruct Hclosed as [Hc Hf].
    destruct (sameType (type section) THeading).
    + destruct (IH (match currentGroup with [] => groups | _ => groups ++ [currentGroup] end)
                  [section] (content section)) as [I1 I2].
      split; [rewrite I1, Hc, <- app_assoc; reflexivity|auto].
    + destruct (option_str_eqb (parentOf section) (Some heading)).
      * destruct (IH groups (currentGroup ++ [section]) heading) as [I1 I2].
        split; [rewrite I1, <- !app_assoc; reflexivity|exact I2].
      * destruct (IH (match currentGroup with [] => groups | _ => groups ++ [currentGroup] end)
                    [section] heading) as [I1 I2].
        split; [rewrite I1, Hc, <- app_assoc; reflexivity|auto].
Qed.

Lemma groupLoop_headingFirst sections : forall groups currentGroup heading,
  Forall headingFirst groups -> headingFirst currentGroup ->
  Forall headingFirst (groupLoop sections groups currentGroup heading).
Proof.
  induction sections as [|section rest IH]; intros groups currentGroup heading Hg Hc; simpl.
  - destruct currentGroup; [exact Hg|]. apply Forall_app. split; [exact Hg|]. now constructor.
  - assert (Hclosed : Forall headingFirst
              (match currentGroup with [] => groups | _ => groups ++ [currentGroup] end)).
    { destruct currentGroup; [exact Hg|]. apply Forall_app. split; [exact Hg|].
      now constructor. }
    destruct (sameType (type section) THeading) eqn:Eh.
    + apply IH; [exact Hclosed|constructor].
    + destruct (option_str_eqb (parentOf section) (Some heading)).
      * apply IH; [exact Hg|]. unfold headingFirst in *.
        destruct currentGroup as [|c cs]; simpl; [constructor|].
        apply Forall_app. split; [exact Hc|]. now constructor.
      * apply IH; [exact Hclosed|constructor].
Qed.


End AnalyzerFacts.

(** * The chunker: claims C2, C3, C9 and C10 *)

Module ChunkerTheorems.
Import JS Value Json Chunker Spec ChunkerFacts.

Lemma bounds_resolved text maxT minT : 0 < maxT -> 0 < minT ->
  chunkDocumentTagged text (bounds maxT minT) =
  chunks (chunkLines maxT minT (split_nl text)).
Proof.
  intros Hmax Hmin. unfold chunkDocumentTagged, bounds.
  change (orDefault (Some maxT) DEFAULT_MAX_TOKENS) with
    (orDefault (Some maxT) DEFAULT_MAX_TOKENS).
  replace (Some {| maxTokens := Some maxT; minTokens := Some minT |} ≫= maxTokens)
    with (Some maxT) by reflexivity.
  replace (Some {| maxTokens := Some maxT; minTokens := Some minT |} ≫= minTokens)
    with (Some minT) by reflexivity.
  now rewrite !orDefault_pos.
Qed.

(** C10.  When the buffer has reached [maxTokens], the chunker cuts it only
    if it holds at least two lines: [findSplitPoint] is 0 on one line and
    positive from two lines on, and the cut needs a positive index.  So a
    document of a single line (no heading) of more than [4 * maxTokens] code
    units comes out as one chunk whose estimate exceeds [maxTokens]:
    [maxTokens] is no upper bound on the size of a chunk. *)
Theorem maxTokens_no_upper_bound :
  (forall line, findSplitPoint [line] = 0) /\
  (forall buf, 2 <= length buf -> 0 < findSplitPoint buf) /\
  (forall maxT line s,
     chunks (onLine maxT line s) <> chunks s ->
     2 <= length (currentChunk s ++ [line])) /\
  (forall maxT minT line,
     0 < minT -> minT <= maxT ->
     headingMatch line = None -> ~ In NL line -> 4 * maxT < length line ->
     exists c,
       chunkDocument line (bounds maxT minT) = [c] /\
       content c = line /\ maxT < tokenCount c).
Proof.
  split; [exact findSplitPoint_single|].
  split; [exact findSplitPoint_pos|].
  split.
  - intros maxT line s Hne.
    destruct (currentChunk s) as [|b bs] eqn:Eb; [|rewrite length_app; simpl; lia].
    exfalso. apply Hne. unfold onLine. rewrite Eb. simpl.
    destruct (maxT <=? _); reflexivity.
  - intros maxT minT line Hmin Hle Hh Hnl Hlong.
    unfold chunkDocument. rewrite bounds_resolved by lia.
    rewrite split_nl_line by exact Hnl.
    rewrite (chunkLines_long_line maxT minT line Hmin Hle Hh Hlong).
    eexists. split; [reflexivity|]. split; [reflexivity|].
    simpl. now apply estimateTokens_long.
Qed.

Lemma maxTokens_no_upper_bound_witness :
  0 < findSplitPoint [lit "a"; lit "b"] /\
  exists c,
    chunkDocument (repeat 97%N 201) (bounds 50 10) = [c] /\
    content c = repeat 97%N 201 /\ 50 < tokenCount c.
Proof.
  destruct maxTokens_no_upper_bound as (_ & H2 & _ & H4).
  split; [apply H2; simpl; lia|].
  apply H4; [lia|lia|reflexivity| |simpl; lia].
  intros H. apply repeat_spec in H. discriminate.
Defined.

(** C2, as the code has it.  A chunk pushed at a heading line has an
    estimate of at least [minTokens], the chunk pushed by the flush at the
    end of the input has at least [minTokens / 2] and is the last one, and
    the empty text gives no chunk.  A chunk cut off by the size split has no
    lower bound; there is no such chunk when the whole text is below
    [maxTokens]. *)
Theorem chunk_sizes_by_origin text maxT minT :
  0 < minT -> minT <= maxT ->
  let tagged := chunkDocumentTagged text (bounds maxT minT) in
  (forall o c, In (o, c) tagged -> tokenCount c = estimateTokens (content c)) /\
  (forall c, In (AtHeading, c) tagged -> minT <= tokenCount c) /\
  (forall c, In (AtEnd, c) tagged ->
     minT <= 2 * tokenCount c /\ last tagged = Some (AtEnd, c)) /\
  (estimateTokens text < maxT -> forall o c, In (o, c) tagged -> o <> AtSplit) /\
  chunkDocument [] (bounds maxT minT) = [].
Proof.
  intros Hmin Hle tagged. subst tagged.
  unfold chunkDocument. rewrite !bounds_resolved by lia.
  destruct (chunkLines_sizes maxT minT (split_nl text)) as (H1 & H2 & H3).
  split; [exact H1|]. split; [exact H2|]. split; [exact H3|]. split.
  - intros Hsmall. apply chunkLines_unsplit. now rewrite join_split.
  - change (List.map snd (chunks (chunkLines maxT minT (split_nl []))) = []).
    rewrite chunk_empty by lia. reflexivity.
Qed.

Lemma chunk_sizes_by_origin_witness :
  let text := join_nl [lit "# A"; repeat 97%N 60; lit "# B"; repeat 98%N 60] in
  exists c,
    In (AtHeading, c) (chunkDocumentTagged text (bounds 50 10)) /\
    10 <= tokenCount c.
Proof.
  intros text.
  assert (H : 0 < 10 /\ 10 <= 50) by lia. destruct H as [H1 H2].
  destruct (chunk_sizes_by_origin text 50 10 H1 H2) as (_ & Hh & _).
  eexists. split; [|apply Hh]; vm_compute; left; reflexivity.
Defined.

(** C2 as stated fails, on the example of the specification itself: with
    [minTokens = 10] and [maxTokens = 50], the heading [# A], an empty line
    and a paragraph of 300 code units give two chunks, and the first, which
    is not the final one, is the heading cut off by the size split, with an
    estimate of 1. *)
Lemma chunk_min_size_counterexample :
  let text := join_nl [lit "# A"; []; repeat 97%N 300] in
  let cs := chunkDocument text (bounds 50 10) in
  0 < 10 <= 50 /\
  exists c, nth_error cs 0 = Some c /\ 0 + 1 < length cs /\ tokenCount c < 10.
Proof.
  split; [lia|]. eexists. split; [vm_compute; reflexivity|].
  split; vm_compute; lia.
Qed.

(** C3, as the code has it.  The input lines fall into consecutive pieces,
    in order; the texts of the chunks are the kept pieces, in order; every
    other piece is a non-empty buffer below [minTokens] that the chunker
    dropped, and a dropped piece stands right before a heading line or at the
    end of the input.  A buffer that is undersized when a heading line
    arrives is thrown away, not merged forward. *)
Theorem chunks_partition_lines text options :
  let minT := orDefault (options ≫= minTokens) DEFAULT_MIN_TOKENS in
  exists pieces,
    concat (List.map pieceLines pieces) = split_nl text /\
    omap keptText pieces = List.map content (chunkDocument text options) /\
    Forall (undersized minT) pieces /\
    dropsFollowed headingOrEnd pieces [].
Proof.
  intros minT. unfold chunkDocument, chunkDocumentTagged.
  destruct (chunkLines_pieces
              (orDefault (options ≫= maxTokens) DEFAULT_MAX_TOKENS) minT (split_nl text))
    as (pieces & H1 & H2 & H3 & H4).
  exists pieces. rewrite List.map_map. auto.
Qed.

(** C3 as stated fails: the lines of the chunks need not be the input lines
    up to a trailing fragment.  Here the section A is below [minTokens] when
    the heading B arrives, and its two lines are lost from the interior. *)
Lemma interior_lines_lost :
  let text := join_nl [lit "# A"; lit "short"; lit "# B"; repeat 98%N 100] in
  let cs := chunkDocument text (bounds 50 10) in
  List.map content cs = [join_nl [lit "# B"; repeat 98%N 100]] /\
  ~ exists dropped,
      split_nl text = concat (List.map (fun c => split_nl (content c)) cs) ++ dropped.
Proof.
  split; [vm_compute; reflexivity|].
  intros [dropped H]. vm_compute in H. discriminate H.
Qed.

(** C9, as the code has it.  Every importance score lies in [0,1] for a
    level up to 6, and so does the score of every chunk, whose level is at
    most 6.  The parser of the card response confines nothing: the
    confidence of a card is 0.8, or it is a [confidence] property of a card
    object of the response, whatever that value is. *)
Theorem scores_and_confidences :
  (forall text lvl, lvl <= 6 -> inUnit (calculateImportance text lvl)) /\
  (forall text options c,
     In c (chunkDocument text options) -> level c <= 6 /\ inUnit (importance c)) /\
  (forall response card,
     In card (Generator.parsedCards (Generator.parseCardResponse response)) ->
     Generator.cardConfidence card = JNum (8 # 10) \/
     exists parsed items raw,
       Generator.parseJsonAnswer response = Ok parsed /\
       get parsed (lit "cards") = Ok (JArr items) /\
       In raw items /\
       In (lit "confidence", Generator.cardConfidence card)
          (Generator.spreadEntries raw)).
Proof.
  split; [exact calculateImportance_unit|]. split.
  - intros text options c Hin. unfold chunkDocument, chunkDocumentTagged in Hin.
    apply in_map_iff in Hin as ([o c'] & <- & Hin).
    pose proof (chunkLines_scored
                  (orDefault (options ≫= maxTokens) DEFAULT_MAX_TOKENS)
                  (orDefault (options ≫= minTokens) DEFAULT_MIN_TOKENS)
                  (split_nl text)) as H.
    rewrite List.Forall_forall in H. exact (H _ Hin).
  - exact GeneratorFacts.parseCardResponse_confidence.
Qed.

Lemma scores_and_confidences_witness :
  inUnit (calculateImportance (lit "This is **important**") 2) /\
  (let response := JStr (Prompt.litq "{~cards~:[{~front~:~q~,~confidence~:0.5},{~back~:~a~}]}") in
   exists card,
     In card (Generator.parsedCards (Generator.parseCardResponse response)) /\
     (Generator.cardConfidence card = JNum (8 # 10) \/
      exists parsed items raw,
        Generator.parseJsonAnswer response = Ok parsed /\
        get parsed (lit "cards") = Ok (JArr items) /\
        In raw items /\
        In (lit "confidence", Generator.cardConfidence card)
           (Generator.spreadEntries raw))).
Proof.
  destruct scores_and_confidences as (H1 & _ & H3).
  split; [apply H1; lia|].
  intros response. eexists. split; [|apply H3]; vm_compute; left; reflexivity.
Defined.

(** C9 as stated fails for the confidence: the parser hands on the 5 that
    a response gives. *)
Lemma parsed_confidence_unclamped :
  let response := JStr (Prompt.litq "{~cards~:[{~front~:~q~,~back~:~a~,~confidence~:5}]}") in
  exists card q,
    In card (Generator.parsedCards (Generator.parseCardResponse response)) /\
    Generator.cardConfidence card = JNum q /\ ~ inUnit q.
Proof.
  intros response. eexists. exists 5%Q.
  split; [vm_compute; left; reflexivity|].
  split; [vm_compute; reflexivity|].
  intros [_ H]. vm_compute in H. now apply H.
Qed.

End ChunkerTheorems.

(** * The router: claims C4 and C5 *)

Module RouterTheorems.
Import JS Value Json LLM Router Spec RouterFacts.

Lemma inChain_In chain n : inChain chain n = true <-> In n chain.
Proof.
  unfold inChain. split.
  - intros H. apply List.existsb_exists in H as (x & Hx & E).
    apply JsonFacts.str_eqb_eq in E. now subst.
  - intros H. apply List.existsb_exists. exists n. split; [exact H|].
    now apply JsonFacts.str_eqb_eq.
Qed.

Lemma NoDup_push chain n :
  NoDup chain -> NoDup (if inChain chain n then chain else chain ++ [n]).
Proof.
  intros H. destruct (inChain chain n) eqn:E; [exact H|].
  apply NoDup_app. split; [exact H|]. split; [|apply NoDup_singleton].
  intros x Hx Hn. apply list_elem_of_In in Hx, Hn. destruct Hn as [<-|[]].
  apply inChain_In in Hx. congruence.
Qed.

Lemma buildProviderChain_NoDup r preferredProvider :
  NoDup (buildProviderChain r preferredProvider).
Proof.
  unfold buildProviderChain.
  match goal with |- NoDup (fold_left _ _ ?start) =>
    assert (Hs : NoDup start); [|revert Hs; generalize start] end.
  - match goal with |- NoDup (match _ with Some d => _ | None => ?c end) =>
      assert (Hc : NoDup c) end.
    { destruct (given preferredProvider) as [p|]; [|constructor].
      destruct (has r p); [apply NoDup_singleton|constructor]. }
    destruct (given (defaultProvider r)) as [d|]; [|exact Hc].
    now apply NoDup_push.
  - generalize (fallbackProviders r). intros fs.
    induction fs as [|f fs IH]; intros start Hs; simpl; [exact Hs|].
    apply IH. now apply NoDup_push.
Qed.

(** In a run whose events before the last have no success, a successful
    event is the last one. *)
Lemma success_is_last (pre0 pre post : list Event) x y :
  pre0 ++ [x] = pre ++ y :: post -> noSuccess pre0 -> isSuccess y ->
  pre = pre0 /\ y = x /\ post = [].
Proof.
  revert pre. induction pre0 as [|a pre0 IH]; intros pre H Hn Hy.
  - destruct pre as [|b pre]; simpl in H.
    + injection H as -> <-. auto.
    + injection H as _ H. destruct pre; discriminate.
  - destruct pre as [|b pre]; simpl in H.
    + injection H as <- _. inversion Hn; subst. contradiction.
    + injection H as <- H. inversion Hn; subst.
      destruct (IH pre H) as (-> & -> & ->); auto.
Qed.

(** C4.  On a provider whose every call throws a retryable [LLMError],
    [generateWithRetry] makes exactly [retryAttempts] calls, sleeps
    [retryDelay * 2 ^ i] after the failed attempt [i] for every [i] below
    [retryAttempts - 1], and then throws the last error to the loop over the
    providers.  A call that throws a non-retryable [LLMError] is the only
    call on that provider. *)
Theorem retry_policy r name p messages w :
  (alwaysRetryable p messages ->
   exists errors,
     length errors = retryAttempts r /\
     Forall (fun e => retryable e = true) errors /\
     generateWithRetry r name p messages w =
       (Throw (match last errors with
               | Some e => ThrownLLM e
               | None => ThrownNull
               end),
        w ++ retrySchedule (retryDelay r) name messages errors 0) /\
     length (List.filter isCall
               (retrySchedule (retryDelay r) name messages errors 0)) =
       retryAttempts r /\
     omap sleepOf (retrySchedule (retryDelay r) name messages errors 0) =
       List.map (fun i => (retryDelay r * 2 ^ Z.of_nat i)%Z)
         (seq 0 (retryAttempts r - 1))) /\
  (forall e,
     0 < retryAttempts r ->
     generateCompletion p w messages = Throw (ThrownLLM e) ->
     retryable e = false ->
     generateWithRetry r name p messages w =
       (Throw (ThrownLLM e),
        w ++ [EvGenerate name messages (Throw (ThrownLLM e))])).
Proof.
  split.
  - intros Hp.
    destruct (retryLoop_exhausts r name p messages Hp (retryAttempts r) 0 ThrownNull w)
      as (errors & Hlen & Hall & Hrun); [reflexivity|].
    exists errors. split; [exact Hlen|]. split; [exact Hall|].
    split; [exact Hrun|].
    rewrite retrySchedule_calls, retrySchedule_sleeps, Hlen. auto.
  - intros e Hn He Hr. unfold generateWithRetry.
    destruct (retryAttempts r) as [|n] eqn:En; [lia|].
    rewrite <- En. rewrite En at 1.
    now apply retryLoop_stops.
Qed.

Lemma retry_policy_witness :
  let r := twoProviders (failing serverError) (answering (lit "ok")) in
  (exists errors,
     length errors = 3 /\
     generateWithRetry r (lit "p1") (failing serverError) hello [] =
       (Throw (match last errors with
               | Some e => ThrownLLM e
               | None => ThrownNull
               end),
        retrySchedule 1000 (lit "p1") hello errors 0) /\
     omap sleepOf (retrySchedule 1000 (lit "p1") hello errors 0) = [1000; 2000]%Z) /\
  generateWithRetry r (lit "p1") (failing authError) hello [] =
    (Throw (ThrownLLM authError),
     [EvGenerate (lit "p1") hello (Throw (ThrownLLM authError))]).
Proof.
  intros r. split.
  - destruct (proj1 (retry_policy r (lit "p1") (failing serverError) hello []))
      as (errors & H1 & _ & H3 & _ & H5).
    + intros w. exists serverError. split; reflexivity.
    + exists errors. auto.
  - apply (proj2 (retry_policy r (lit "p1") (failing authError) hello []));
      [vm_compute; lia|reflexivity|reflexivity].
Defined.

(** C5.  Whenever a call of [generateCompletion] succeeds during
    [generate], that call is the last thing the run does and its response
    is what [generate] returns: no call succeeded before it, and no provider
    that comes later in the chain is asked anything, neither for its
    availability nor for a completion. *)
Theorem generate_first_success r messages preferredProvider w pre name msgs resp post :
  snd (generate r messages preferredProvider w) =
    w ++ pre ++ EvGenerate name msgs (Ok resp) :: post ->
  fst (generate r messages preferredProvider w) = Ok resp /\
  post = [] /\
  noSuccess pre /\
  exists earlier later,
    buildProviderChain r preferredProvider = earlier ++ name :: later /\
    forall n, In n later ->
      Forall (fun e => ~ concerns n e) (pre ++ [EvGenerate name msgs (Ok resp)]).
Proof.
  intros Hw.
  destruct (generate_run r messages preferredProvider w) as (evs & Hevs & Hr).
  rewrite Hevs in Hw. apply app_inv_head in Hw. subst evs.
  pose proof (buildProviderChain_NoDup r preferredProvider) as Hnd.
  unfold routed in Hr.
  destruct (fst (generate r messages preferredProvider w)) as [resp0|t].
  - destruct Hr as (earlier & name0 & later & pre0 & Hchain & Hsplit & Hpre & Hev).
    symmetry in Hsplit.
    destruct (success_is_last pre0 pre post _ _ Hsplit Hpre I) as (-> & Heq & ->).
    injection Heq as -> -> ->.
    split; [reflexivity|]. split; [reflexivity|]. split; [exact Hpre|].
    exists earlier, later. split; [exact Hchain|].
    intros n Hn. rewrite Hchain in Hnd.
    assert (Hfresh : ~ In n (earlier ++ [name0])).
    { intros Hin. apply NoDup_app in Hnd as (_ & Hdis & Hnd2).
      apply in_app_or in Hin as [Hin|[<-|[]]].
      - apply (Hdis n); apply list_elem_of_In; [exact Hin|now right].
      - apply NoDup_cons in Hnd2 as [Hnot _]. apply Hnot.
        now apply list_elem_of_In. }
    eapply Forall_impl; [exact Hev|].
    intros e He Hc. destruct e; simpl in *; subst; contradiction.
  - destruct Hr as [Hno _]. apply Forall_app in Hno as [_ Hno].
    inversion Hno; subst. simpl in *. tauto.
Qed.

Lemma generate_first_success_witness :
  let r := twoProviders (answering (lit "first")) (answering (lit "second")) in
  fst (generate r hello None []) = Ok (answer (lit "first")) /\
  ([] : list Event) = [] /\
  noSuccess [EvIsAvailable (lit "p1") (Ok true)] /\
  exists earlier later,
    buildProviderChain r None = earlier ++ lit "p1" :: later /\
    forall n, In n later ->
      Forall (fun e => ~ concerns n e)
        ([EvIsAvailable (lit "p1") (Ok true)] ++
         [EvGenerate (lit "p1") hello (Ok (answer (lit "first")))]).
Proof.
  intros r.
  apply (generate_first_success r hello None []
           [EvIsAvailable (lit "p1") (Ok true)] (lit "p1") hello
           (answer (lit "first")) []).
  vm_compute. reflexivity.
Defined.

End RouterTheorems.

(** * The provider: claim C6 *)

Module ProviderTheorems.
Import JS Value Json LLM Provider Spec ProviderFacts.

Ltac decide_status :=
  repeat match goal with
  | |- context [(?a =? ?b)%Z] => destruct (Z.eqb_spec a b); try lia; simpl
  | |- context [(?a <=? ?b)%Z] => destruct (Z.leb_spec a b); try lia; simpl
  end.

Lemma status_raises config messages response kind retry :
  status response <> 200%Z ->
  type (statusError config response) = kind ->
  retryable (statusError config response) = retry ->
  raises (generateCompletion (Some config) (fun _ => Responded response) messages)
    kind retry.
Proof.
  intros H200 Hk Hr. unfold generateCompletion, tryCatch.
  apply Z.eqb_neq in H200. rewrite H200. simpl.
  eexists. split; [reflexivity|]. split; assumption.
Qed.

(** C6.  One call of [generateCompletion] classifies what the network
    gives: status 401 or 403 is a non-retryable authentication error, 429 a
    retryable rate limit, 500 and above a retryable API error, any other
    status outside 200..299 a non-retryable API error; a response of status
    200 whose payload has no [choices[0].message] is a non-retryable parse
    error; a request that fails with an error is a retryable network
    error. *)
Theorem completion_error_classes config messages :
  (forall status text data,
     (status = 401 \/ status = 403)%Z ->
     raises (generateCompletion (Some config)
               (fun _ => Responded (mkHttpResponse status text data)) messages)
       AUTHENTICATION_ERROR false) /\
  (forall text data,
     raises (generateCompletion (Some config)
               (fun _ => Responded (mkHttpResponse 429 text data)) messages)
       RATE_LIMIT true) /\
  (forall status text data,
     (500 <= status)%Z ->
     raises (generateCompletion (Some config)
               (fun _ => Responded (mkHttpResponse status text data)) messages)
       API_ERROR true) /\
  (forall status text data,
     (status < 200 \/ 300 <= status < 500)%Z ->
     status <> 401%Z -> status <> 403%Z -> status <> 429%Z ->
     raises (generateCompletion (Some config)
               (fun _ => Responded (mkHttpResponse status text data)) messages)
       API_ERROR false) /\
  (forall text data,
     lacksMessage data ->
     raises (generateCompletion (Some config)
               (fun _ => Responded (mkHttpResponse 200 text data)) messages)
       PARSE_ERROR false) /\
  (forall cause,
     raises (generateCompletion (Some config)
               (fun _ => Failed (ThrownError cause)) messages)
       NETWORK_ERROR true).
Proof.
  split; [|split; [|split; [|split; [|split]]]].
  - intros status text data Hs.
    apply status_raises; unfold statusError; simpl; [lia| |];
      decide_status; reflexivity.
  - intros text data. apply status_raises; [simpl; lia|reflexivity|reflexivity].
  - intros status text data Hs.
    apply status_raises; unfold statusError; simpl; [lia| |];
      decide_status; reflexivity.
  - intros status text data Hs H1 H2 H3.
    apply status_raises; unfold statusError; simpl; [lia| |];
      decide_status; reflexivity.
  - intros text data Hl. unfold generateCompletion, tryCatch. simpl.
    destruct (parseResponse_lacking config data Hl) as (e & -> & Hk & Hr).
    exists e. auto.
  - intros cause. unfold generateCompletion, tryCatch. simpl.
    eexists. split; [reflexivity|]. split; reflexivity.
Qed.

Lemma completion_error_classes_witness :
  raises (generateCompletion (Some sampleConfig) (responding 401 JNull) hello)
    AUTHENTICATION_ERROR false /\
  raises (generateCompletion (Some sampleConfig) (responding 503 JNull) hello)
    API_ERROR true /\
  raises (generateCompletion (Some sampleConfig) (responding 404 JNull) hello)
    API_ERROR false /\
  raises (generateCompletion (Some sampleConfig)
            (responding 200 (JObj [(lit "choices", JArr [])])) hello)
    PARSE_ERROR false.
Proof.
  destruct (completion_error_classes sampleConfig hello) as (H1 & _ & H3 & H4 & H5 & _).
  split; [apply (H1 401%Z); lia|].
  split; [apply (H3 503%Z); lia|].
  split; [apply (H4 404%Z); lia|].
  apply H5. exact I.
Defined.

End ProviderTheorems.

(** * The prompt manager: claim C8 *)

Module PromptTheorems.
Import JS Value Json LLM Prompt Spec.

(** C8, evaluated where it fails.  The values are handed to [replace] as
    replacement patterns, so a dollar sign in a value is not taken as it is:
    with [question = "$&"] the placeholder of the question is still in the
    rendered prompt, and the [$$x$$] of the context arrives as [$x$].  The
    substitution as specified would put both values in unchanged. *)
Theorem renderPrompt_dollar_patterns eng :
  let vars := [(lit "question", lit "$&"); (lit "context", lit "$$x$$")] in
  renderPrompt eng newPromptManager (lit "generate_answer") vars =
    Ok [ {| LLMMessage.role := system;
            LLMMessage.content := systemPrompt generate_answer |};
         {| LLMMessage.role := user;
            LLMMessage.content :=
              lit "Question: {{question}}

Context (if available):
$x$

Please provide a comprehensive answer to the question above." |} ] /\
  substituteVerbatim vars (userPromptTemplate generate_answer) =
    lit "Question: $&

Context (if available):
$$x$$

Please provide a comprehensive answer to the question above.".
Proof.
  split; vm_compute; reflexivity.
Qed.

End PromptTheorems.

(** * The generator: claims C1 and C7 *)

Module GeneratorTheorems.
Import JS Value Json LLM Prompt Generator Spec GeneratorFacts.

(** C1, evaluated where it fails.  A text of 400 code units without any
    heading is one chunk of level 0, for which [createOverview] asks
    [repeat] for -1 copies: whatever the router, its providers and the
    options are, the run yields the planning and the analyzing event and
    then throws a [RangeError]; no [completed] event is yielded. *)
Theorem headingless_document_escapes eng g options w :
  exists w',
    generateCardsMultiPass eng g (repeat 97%N 400) options ([], w) =
      (Throw rangeError, ([planningItem; analyzingItem], w')).
Proof.
  apply multiPass_escapes.
  eexists. split; [vm_compute; left; reflexivity|reflexivity].
Qed.

(** C7, evaluated where it fails.  A card that specifies the confidence 0
    is counted with 0.8: the batch of this one card has the quality 0.64,
    where the mean of the confidences times the penalty is 0. *)
Theorem batch_quality_zero_confidence :
  let card :=
    {| type := lit "basic"; front := lit "q"; back := lit "a";
       tags := None; confidence := Some 0%Q |} in
  (calculateBatchQuality [card] == 64 # 100)%Q /\
  (specBatchQuality [card] == 0)%Q.
Proof.
  split; vm_compute; reflexivity.
Qed.

End GeneratorTheorems.

(** * Further properties of the code *)

Module Further.
Import JS Value Json LLM Spec ListFacts.

(** ** Chunker *)

Section ChunkerFurther.
Import Chunker ChunkerTools ChunkerFacts ChunkToolsFacts.

(** X1.  The chunks of a document are numbered 0, 1, 2, ... in the order of
    the output, so no two chunks of one run have the same index. *)
Theorem chunk_indices_count_up text options :
  List.map index (chunkDocument text options) =
    seq 0 (length (chunkDocument text options)) /\
  NoDup (List.map index (chunkDocument text options)).
Proof.
  assert (H : List.map index (chunkDocument text options) =
              seq 0 (length (chunkDocument text options))).
  { unfold chunkDocument, chunkDocumentTagged.
    rewrite List.map_map, length_map.
    pose proof (chunkLines_indexed
                  (orDefault (options ≫= maxTokens) DEFAULT_MAX_TOKENS)
                  (orDefault (options ≫= minTokens) DEFAULT_MIN_TOKENS)
                  (split_nl text)) as Hi.
    unfold indexed in Hi.
    pose proof (f_equal (@length nat) Hi) as Hl.
    rewrite length_map, length_seq in Hl. now rewrite Hl. }
  split; [exact H|]. rewrite H. apply NoDup_ListNoDup, seq_NoDup.
Qed.

(** X2.  Every chunk of [chunkDocument] holds exactly the lines of the input
    from its [startLine] to its [endLine] joined by newlines, with 0 <=
    startLine <= endLine < number of lines, and the range of each chunk ends
    before the range of every later chunk begins. *)
Theorem chunk_line_ranges text options :
  Forall (ranged (split_nl text)) (chunkDocument text options) /\
  StronglySorted before (chunkDocument text options).
Proof.
  unfold chunkDocument, chunkDocumentTagged.
  destruct (chunkLines_tracked
              (orDefault (options ≫= maxTokens) DEFAULT_MAX_TOKENS)
              (orDefault (options ≫= minTokens) DEFAULT_MIN_TOKENS)
              (split_nl text)) as [H1 H2].
  split; [|exact H2]. apply Forall_map. exact H1.
Qed.

(** X3.  For the chunk at position [i] of the output of [chunkDocument],
    [getChunkContext] gives the chunk at position [i - 1] as previous (none
    for the first), the chunk at position [i + 1] as next (none for the
    last), and as siblings exactly the other chunks of the same level. *)
Theorem context_of_chunk text options i c :
  let cs := chunkDocument text options in
  nth_error cs i = Some c ->
  previous (getChunkContext c cs) =
    match i with 0 => None | S j => nth_error cs j end /\
  next (getChunkContext c cs) = nth_error cs (S i) /\
  (forall d, In d (siblings (getChunkContext c cs)) <->
             In d cs /\ level d = level c /\ d <> c).
Proof.
  intros cs H. pose proof (chunkDocument_index _ _ _ _ H) as Hi.
  unfold getChunkContext. cbn [previous next siblings]. rewrite Hi.
  split; [|split].
  - destruct i as [|j]; [reflexivity|]. simpl. now rewrite Nat.sub_0_r.
  - rewrite Nat.add_1_r. destruct (i <? length cs - 1) eqn:E; [reflexivity|].
    symmetry. apply nth_error_None. apply Nat.ltb_ge in E. lia.
  - intros d. rewrite filter_In, andb_true_iff, negb_true_iff, Nat.eqb_eq, Nat.eqb_neq.
    split.
    + intros (Hd & Hl & Hn). repeat split; try assumption. intros ->. congruence.
    + intros (Hd & Hl & Hn). repeat split; try assumption. intros Heq.
      apply In_nth_error in Hd as [j Hj].
      pose proof (chunkDocument_index _ _ _ _ Hj) as Hij.
      assert (Hji : j = i) by congruence. rewrite Hji in Hj.
      apply Hn. congruence.
Qed.


Lemma context_of_chunk_witness :
  let text := join_nl [lit "# A"; repeat 97%N 60; lit "# B"; repeat 98%N 60;
                       lit "# C"; repeat 99%N 60] in
  let cs := chunkDocument text (bounds 50 10) in
  exists c,
    nth_error cs 1 = Some c /\
    previous (getChunkContext c cs) = nth_error cs 0 /\
    next (getChunkContext c cs) = nth_error cs 2.
Proof.
  intros text cs.
  destruct (nth_error cs 1) as [c|] eqn:E; [|vm_compute in E; discriminate E].
  exists c. split; [reflexivity|].
  destruct (context_of_chunk text (bounds 50 10) 1 c E) as (H1 & H2 & _).
  split; assumption.
Defined.

(** X4.  [extractKeywords] returns at most ten keywords, no keyword twice
    and none of them empty. *)
Theorem keywords_bounded_distinct text :
  length (extractKeywords text) <= 10 /\
  NoDup (extractKeywords text) /\
  Forall (fun k => k <> []) (extractKeywords text).
Proof.
  destruct (extractKeywords_set text) as (ks & -> & Hn & Hf). split; [|split].
  - rewrite length_firstn. lia.
  - rewrite <- (firstn_skipn 10 ks) in Hn. apply NoDup_app in Hn. tauto.
  - rewrite <- (firstn_skipn 10 ks) in Hf. apply Forall_app in Hf. tauto.
Qed.

(** X5.  The split point that [findSplitPoint] returns for a buffer of lines
    is at least half the number of lines (rounded down) and at most the
    number of lines, whether it comes from a blank line, from the end of a
    sentence or from the 75% default. *)
Theorem split_point_in_upper_half ls :
  length ls / 2 <= findSplitPoint ls <= length ls.
Proof.
  apply findSplitPoint_range.
Qed.

End ChunkerFurther.

(** ** Router *)

Section RouterFurther.
Import Router RouterFacts RouterMoreFacts.

(** X6.  The attempt order of [buildProviderChain] has no name twice; its
    names are the preferred provider when it is registered, the default
    provider and the fallback providers, and no other; and when it is empty
    [generate] fails at once with a non-retryable provider-unavailable error
    and calls nobody. *)
Theorem chain_without_repeats r preferredProvider messages w :
  NoDup (buildProviderChain r preferredProvider) /\
  (forall n,
     In n (buildProviderChain r preferredProvider) <->
     (given preferredProvider = Some n /\ has r n = true) \/
     given (defaultProvider r) = Some n \/
     In n (fallbackProviders r)) /\
  match buildProviderChain r preferredProvider with
  | [] =>
      exists e,
        generate r messages preferredProvider w = (Throw (ThrownLLM e), w) /\
        type e = PROVIDER_UNAVAILABLE /\ retryable e = false
  | _ :: _ => True
  end.
Proof.
  split; [apply RouterTheorems.buildProviderChain_NoDup|].
  split; [intros n; apply chain_In|].
  destruct (buildProviderChain r preferredProvider) eqn:H; [|exact I].
  unfold generate. rewrite H. eexists. split; [reflexivity|].
  split; reflexivity.
Qed.

(** X7.  [setDefaultProvider] and [setFallbackChain] change the router
    exactly when every name they are given is registered, and throw a
    non-retryable invalid-config error otherwise. *)
Theorem configuration_checks_names r name names :
  (match setDefaultProvider name r with
   | Ok r' => has r name = true /\ defaultProvider r' = Some name
   | Throw t => has r name = false /\
                exists e, t = ThrownLLM e /\ type e = INVALID_CONFIG /\ retryable e = false
   end) /\
  (match setFallbackChain names r with
   | Ok r' => forallb (has r) names = true /\ fallbackProviders r' = names
   | Throw t => forallb (has r) names = false /\
                exists e, t = ThrownLLM e /\ type e = INVALID_CONFIG /\ retryable e = false
   end).
Proof.
  split.
  - unfold setDefaultProvider. destruct (has r name); simpl; [auto|].
    split; [reflexivity|]. eexists. repeat split.
  - unfold setFallbackChain.
    destruct (List.find (fun n => negb (has r n)) names) as [n|] eqn:E; simpl.
    + apply find_some in E as [Hin Hn]. split.
      * apply not_true_is_false. intros Hall.
        rewrite forallb_forall in Hall. rewrite (Hall _ Hin) in Hn. discriminate.
      * eexists. repeat split.
    + split; [|reflexivity]. apply forallb_forall. intros x Hx.
      pose proof (find_none _ _ E x Hx) as Hn. simpl in Hn.
      now destruct (has r x).
Qed.

(** X8.  With at least one retry round and providers that throw no [null],
    whatever [generate] throws is an [LLMError]: errors of other kinds that
    a provider throws are wrapped on the way. *)
Theorem generate_throws_llm_error r messages preferredProvider w t w' :
  0 < retryAttempts r ->
  (forall n p, providers r !! n = Some p -> throwsNoNull p) ->
  generate r messages preferredProvider w = (Throw t, w') ->
  exists e, t = ThrownLLM e.
Proof.
  apply generate_throws_llm.
Qed.


Lemma generate_throws_llm_error_witness :
  exists e,
    fst (generate (soleProvider (failing authError)) hello None []) =
      Throw (ThrownLLM e).
Proof.
  assert (H1 : 0 < retryAttempts (soleProvider (failing authError)))
    by (vm_compute; lia).
  assert (H2 : forall n p,
            providers (soleProvider (failing authError)) !! n = Some p ->
            throwsNoNull p).
  { intros n p H.
    assert (Hp : providers (soleProvider (failing authError)) =
                 <[lit "p1" := failing authError]> (providers newRouter))
      by (vm_compute; reflexivity).
    rewrite Hp in H.
    apply lookup_insert_Some in H as [[_ <-]|[_ H]].
    - intros w. split; [discriminate|]. intros messages. discriminate.
    - unfold newRouter in H. cbn [providers] in H.
      rewrite lookup_empty in H. discriminate. }
  destruct (generate_throws_llm_error (soleProvider (failing authError)) hello None []
              (ThrownLLM authError)
              [EvIsAvailable (lit "p1") (Ok true);
               EvGenerate (lit "p1") hello (Throw (ThrownLLM authError))]
              H1 H2 ltac:(vm_compute; reflexivity)) as [e He].
  exists e. rewrite <- He. vm_compute. reflexivity.
Defined.

(** X9.  In a router that was set up through [registerProvider],
    [setDefaultProvider], [setFallbackChain] and [setRetryConfig], every
    name of the attempt order is a registered provider, so [generate] never
    looks up a provider that is missing. *)
Theorem built_chain_registered r preferredProvider :
  built r ->
  Forall (fun n => has r n = true) (buildProviderChain r preferredProvider).
Proof.
  apply chain_registered.
Qed.


Lemma built_chain_registered_witness :
  Forall (fun n => has (soleProvider (answering (lit "ok"))) n = true)
    (buildProviderChain (soleProvider (answering (lit "ok"))) (Some (lit "p2"))).
Proof.
  apply built_chain_registered.
  apply (built_default (lit "p1")
           (registerProvider (lit "p1") (answering (lit "ok")) newRouter)).
  - apply built_register, built_new.
  - reflexivity.
Defined.

(** X10.  One call of [generate] appends to the trace only: every provider
    of the attempt order is probed with [isAvailable] at most once and
    called at most [retryAttempts] times, and no other provider is probed or
    called. *)
Theorem generate_call_budget r messages preferredProvider w :
  exists evs,
    snd (generate r messages preferredProvider w) = w ++ evs /\
    withinBudget (retryAttempts r) (buildProviderChain r preferredProvider) evs.
Proof.
  unfold generate.
  pose proof (RouterTheorems.buildProviderChain_NoDup r preferredProvider) as Hnd.
  apply NoDup_ListNoDup in Hnd.
  destruct (buildProviderChain r preferredProvider) as [|n chain] eqn:Ec.
  - exists []. unfoldM. simpl. rewrite app_nil_r. split; [reflexivity|].
    apply budget_nil.
  - now apply tryProviders_budget.
Qed.

End RouterFurther.

(** ** Provider *)

Section ProviderFurther.
Import Provider ProviderSetup ProviderFacts ProviderMoreFacts.

(** X11.  [isAvailable] never throws, whatever the configuration and the
    network do, and when both its requests fail it answers false. *)
Theorem isAvailable_never_throws config requestUrl :
  (exists b, isAvailable config requestUrl = Ok b) /\
  (forall cfg,
     config = Some cfg ->
     (forall response, requestUrl (modelsRequest cfg) <> Responded response) ->
     (forall response, requestUrl (minimalRequest cfg) <> Responded response) ->
     isAvailable config requestUrl = Ok false).
Proof.
  split; [apply isAvailable_total|].
  intros cfg -> H1 H2. unfold isAvailable, tryCatch.
  destruct (LLMConfig.endpoint cfg); [reflexivity|].
  destruct (requestUrl (modelsRequest cfg)) as [r|cause]; [now destruct (H1 r)|].
  destruct (requestUrl (minimalRequest cfg)) as [r|cause']; [now destruct (H2 r)|].
  reflexivity.
Qed.

(** X12.  [initialize] stores the configuration before it checks it; it
    succeeds exactly when the endpoint and the model are not empty, also
    when the provider is not reachable, and otherwise throws a non-retryable
    invalid-config error. *)
Theorem initialize_checks_config cfg requestUrl :
  fst (initialize cfg requestUrl) = Some cfg /\
  match snd (initialize cfg requestUrl) with
  | Ok _ => LLMConfig.endpoint cfg <> [] /\ LLMConfig.model cfg <> []
  | Throw t =>
      (LLMConfig.endpoint cfg = [] \/ LLMConfig.model cfg = []) /\
      exists e, t = ThrownLLM e /\ type e = INVALID_CONFIG /\ retryable e = false
  end.
Proof.
  apply initialize_outcome.
Qed.

(** X13.  When the server answers, [generateCompletion] returns a response
    exactly when the status is 200 and the payload has a truthy
    [choices[0].message], and the content of the response is then the
    [content] of that message. *)
Theorem completion_success config messages response :
  let result := generateCompletion (Some config) (fun _ => Responded response) messages in
  (forall resp, result = Ok resp ->
     status response = 200%Z /\
     exists msg, hasMessage (json response) msg /\
                 get msg (lit "content") = Ok (LLMResponse.content resp)) /\
  (status response = 200%Z ->
   forall msg, hasMessage (json response) msg -> exists resp, result = Ok resp).
Proof.
  intros result. subst result. unfold generateCompletion, tryCatch.
  destruct (Z.eqb_spec (status response) 200) as [E|E]; simpl.
  2:{ split; [discriminate|]. intros. contradiction. }
  unfold parseResponse, tryCatch, hasMessage, messagePath, mbind, result_bind, bindR.
  destruct (get (json response) (lit "choices")) as [choices|t] eqn:Ec.
  2:{ split.
      - apply get_throws in Ec as [e ->]. simpl. discriminate.
      - intros _ msg [Hm _]. discriminate. }
  destruct (truthy choices) eqn:Tc.
  2:{ simpl. split; [discriminate|]. intros _ msg [Hm Ht]. exfalso.
      destruct choices as [| |b|q|[|c s]|items|fields]; simpl in Hm, Tc;
        try discriminate Hm; discriminate Tc. }
  destruct (get0_truthy choices Tc) as [first Ef]. rewrite Ef.
  destruct (truthy first) eqn:Tf.
  2:{ simpl. split; [discriminate|]. intros _ msg [Hm Ht]. exfalso.
      destruct first as [| |b|q|[|c s]|items|fields]; simpl in Hm, Tf;
        try discriminate Hm; try discriminate Tf;
        injection Hm as <-; discriminate Ht. }
  destruct (get_truthy first (lit "message") Tf) as [msg Em]. rewrite Em.
  destruct (truthy msg) eqn:Tm.
  2:{ simpl. split; [discriminate|]. intros _ msg' [[= <-] Ht]. congruence. }
  simpl.
  destruct (get_truthy msg (lit "content") Tm) as [content Hc]. rewrite Hc.
  assert (Hd : forall k, exists x, get (json response) k = Ok x).
  { intros k. destruct (json response); simpl in Ec |- *; try discriminate Ec; eauto;
      injection Ec as <-; discriminate Tc. }
  destruct (Hd (lit "usage")) as [usage Hu]. rewrite Hu.
  assert (Hopt : forall k, exists x, getOpt usage k = Ok x).
  { intros k. unfold getOpt. destruct (isNullish usage) eqn:En; [eauto|].
    destruct usage; simpl in *; try discriminate; eauto. }
  destruct (Hopt (lit "prompt_tokens")) as [x1 ->].
  destruct (Hopt (lit "completion_tokens")) as [x2 ->].
  destruct (Hopt (lit "total_tokens")) as [x3 ->].
  destruct (Hd (lit "model")) as [model ->].
  destruct (get_truthy first (lit "finish_reason") Tf) as [finish ->].
  split.
  - intros resp [= <-]. split; [exact E|]. exists msg. simpl. auto.
  - eauto.
Qed.

End ProviderFurther.

(** ** Prompt manager *)

Section PromptFurther.
Import Prompt PromptFacts Templates.

(** X14.  With keys that are plain names and values without a dollar sign,
    [renderPrompt] returns the system message and the user message, the user
    message being the template with every placeholder replaced by its value,
    and it fails exactly when the template is not registered or one of its
    variables is not in the map. *)
Theorem renderPrompt_plain eng pm name vars :
  Forall (fun kv => literalKey (fst kv) = true /\ ~ In 36%N (snd kv)) vars ->
  match templates pm !! name with
  | Some t =>
      if forallb (fun v => keyIn v vars) (variables t)
      then renderPrompt eng pm name vars =
             Ok [ {| LLMMessage.role := system;
                     LLMMessage.content := systemPrompt t |};
                  {| LLMMessage.role := user;
                     LLMMessage.content :=
                       substituteVerbatim vars (userPromptTemplate t) |} ]
      else exists e, renderPrompt eng pm name vars = Throw (ThrownError e)
  | None => exists e, renderPrompt eng pm name vars = Throw (ThrownError e)
  end.
Proof.
  intros Hv. unfold renderPrompt.
  destruct (templates pm !! name) as [t|]; [|eexists; reflexivity].
  destruct (forallb (fun v => keyIn v vars) (variables t)) eqn:Ef.
  - destruct (List.find _ (variables t)) as [v|] eqn:E.
    + apply find_some in E as [Hin Hn]. rewrite forallb_forall in Ef.
      rewrite (Ef _ Hin) in Hn. discriminate.
    + unfold mbind, result_bind, bindR. now rewrite substitute_plain.
  - destruct (List.find _ (variables t)) as [v|] eqn:E; [eexists; reflexivity|].
    exfalso. apply not_true_iff_false in Ef. apply Ef.
    apply forallb_forall. intros x Hx.
    pose proof (find_none _ _ E x Hx) as Hn. simpl in Hn.
    now destruct (keyIn x vars).
Qed.

Lemma renderPrompt_plain_witness :
  renderPrompt anyEngine newPromptManager (lit "generate_answer")
    [(lit "question", lit "Why?"); (lit "context", lit "none")] =
  Ok [ {| LLMMessage.role := system;
          LLMMessage.content := systemPrompt generate_answer |};
       {| LLMMessage.role := user;
          LLMMessage.content :=
            substituteVerbatim
              [(lit "question", lit "Why?"); (lit "context", lit "none")]
              (userPromptTemplate generate_answer) |} ].
Proof.
  assert (Hv : Forall (fun kv => literalKey (fst kv) = true /\ ~ In 36%N (snd kv))
                 [(lit "question", lit "Why?"); (lit "context", lit "none")]).
  { repeat constructor; vm_compute; intuition discriminate. }
  exact (renderPrompt_plain anyEngine newPromptManager (lit "generate_answer") _ Hv).
Defined.

(** X15.  [updateTemplate] on a name that is not registered changes nothing
    and returns false; on a registered name it returns true, stores the old
    template overwritten by the given fields under the same key, also when
    the fields give another name, and leaves every other template as it is. *)
Theorem updateTemplate_keeps_key n updates pm :
  match templates pm !! n with
  | None => updateTemplate n updates pm = (pm, false)
  | Some template =>
      snd (updateTemplate n updates pm) = true /\
      getTemplate (fst (updateTemplate n updates pm)) n = Some (spread template updates) /\
      forall n', n' <> n ->
        getTemplate (fst (updateTemplate n updates pm)) n' = getTemplate pm n'
  end.
Proof.
  unfold updateTemplate, getTemplate.
  destruct (templates pm !! n) as [template|] eqn:E; [|reflexivity].
  cbn [fst snd templates]. split; [reflexivity|]. split.
  - apply lookup_insert_eq.
  - intros n' Hn. now apply lookup_insert_ne.
Qed.

End PromptFurther.

(** ** Multi-pass generator *)

Section GeneratorFurther.
Import Prompt Generator GeneratorFacts GeneratorMoreFacts.

(** X16.  [createOverview] lists the chunks of level at most 2, one line
    each, indented by level; it throws a [RangeError] exactly when one of
    the chunks has the level 0, as a chunk before the first heading has. *)
Theorem createOverview_level0 chunks :
  match createOverview chunks with
  | Ok text =>
      Forall (fun c => Chunker.level c <> 0) chunks /\
      text = lit "Document Structure:" ++ [NL] ++
             join_nl (List.map overviewLine
                        (List.filter (fun c => Chunker.level c <=? 2) chunks))
  | Throw t => t = rangeError /\ Exists (fun c => Chunker.level c = 0) chunks
  end.
Proof.
  unfold createOverview, mbind, result_bind, bindR.
  pose proof (overviewHeadings_lines
                (List.filter (fun c => Chunker.level c <=? 2) chunks)) as H.
  destruct (overviewHeadings _) as [lines|t].
  - destruct H as [H1 ->]. split; [|reflexivity].
    apply List.Forall_forall. intros c Hc Hl. rewrite List.Forall_forall in H1.
    apply (H1 c); [|exact Hl]. apply filter_In. split; [exact Hc|]. now rewrite Hl.
  - destruct H as [-> H]. split; [reflexivity|].
    apply List.Exists_exists in H as (c & Hc & Hl). apply List.Exists_exists.
    exists c. apply filter_In in Hc as [Hc _]. auto.
Qed.

(** X17.  As long as no card specifies the confidence 0, the batch quality
    is the mean of the confidences, 0.8 standing in for a card without one,
    times the penalty 0.8 below 2 cards, 0.9 above 10 and 1 otherwise. *)
Theorem batch_quality_as_specified cards :
  Forall (fun c => forall q, confidence c = Some q -> ~ (q == 0)%Q) cards ->
  calculateBatchQuality cards = specBatchQuality cards.
Proof.
  intros H. unfold calculateBatchQuality, specBatchQuality.
  destruct cards as [|c cards]; [reflexivity|].
  now rewrite (sum_as_specified _ H).
Qed.

Lemma batch_quality_as_specified_witness :
  let cards :=
    [ {| type := lit "basic"; front := lit "q"; back := lit "a";
         tags := None; confidence := Some (9 # 10) |};
      {| type := lit "cloze"; front := lit "c"; back := [];
         tags := None; confidence := None |} ] in
  calculateBatchQuality cards = specBatchQuality cards.
Proof.
  intros cards. apply batch_quality_as_specified.
  repeat constructor; simpl; intros q [= <-]; vm_compute; discriminate.
Defined.

(** X18.  When every confidence that a card specifies lies between 0 and 1,
    the batch quality lies between 0 and 1. *)
Theorem batch_quality_in_unit cards :
  Forall (fun c => forall q, confidence c = Some q -> inUnit q) cards ->
  inUnit (calculateBatchQuality cards).
Proof.
  intros H. unfold calculateBatchQuality.
  destruct cards as [|c cards]; [split; lra|].
  destruct (sum_unit _ H 0) as [S1 S2].
  set (sum := fold_left _ _ _) in *.
  set (n := inject_Z (Z.of_nat (length (c :: cards)))) in *.
  assert (Hn : (0 < n)%Q).
  { unfold n. replace 0%Q with (inject_Z 0) by reflexivity.
    rewrite <- Zlt_Qlt. simpl. lia. }
  assert (A1 : (0 <= sum / n)%Q).
  { apply Qle_shift_div_l; [exact Hn|]. lra. }
  assert (A2 : (sum / n <= 1)%Q).
  { apply Qle_shift_div_r; [exact Hn|]. lra. }
  set (avg := (sum / n)%Q) in *.
  destruct (length (c :: cards) <? 2); [split; nra|].
  destruct (10 <? length (c :: cards)); split; nra.
Qed.


Lemma batch_quality_in_unit_witness :
  inUnit (calculateBatchQuality
            [ {| type := lit "basic"; front := lit "q"; back := lit "a";
                 tags := None; confidence := Some (9 # 10) |};
              {| type := lit "cloze"; front := lit "c"; back := [];
                 tags := None; confidence := None |} ]).
Proof.
  apply batch_quality_in_unit.
  constructor; [intros q [= <-]; vm_compute; split; discriminate|].
  constructor; [intros q [=]|constructor].
Defined.

(** X19.  Planning never fails and yields nothing: whatever the router and
    the templates do, [analyzeDocument] returns a plan and leaves the stream
    as it is. *)
Theorem planning_never_fails eng g text items w :
  exists plan w', analyzeDocument eng g text (items, w) = (Ok plan, (items, w')).
Proof.
  apply analyzeDocument_total.
Qed.

(** X20.  When no chunk of the document has the level 0, the run does not
    fail, whatever the router and its providers do: the stream is the
    planning event, the analyzing event, the events and batches of the
    chunks, and one completed event at the end, whose count is the number of
    cards in the batches that were yielded. *)
Theorem run_completes_without_level0 eng g text options w :
  Forall (fun c => Chunker.level c <> 0) (Chunker.chunkDocument text passBounds) ->
  exists middle total w',
    generateCardsMultiPass eng g text options ([], w) =
      (Ok tt, ([planningItem; analyzingItem] ++ middle ++ [completedItem total], w')) /\
    total = batchCards middle /\
    Forall (fun item => ~ isCompleted item) middle.
Proof.
  apply multiPass_completes.
Qed.

Lemma run_completes_without_level0_witness :
  let g := newGenerator
             (orNew (Router.setDefaultProvider (lit "p1")
                (Router.registerProvider (lit "p1") failsOnThirdCall Router.newRouter)))
             newPromptManager in
  exists middle total w',
    generateCardsMultiPass anyEngine g threeSections None ([], []) =
      (Ok tt, ([planningItem; analyzingItem] ++ middle ++ [completedItem total], w')) /\
    total = batchCards middle /\
    Forall (fun item => ~ isCompleted item) middle.
Proof.
  intros g. apply run_completes_without_level0.
  vm_compute. repeat constructor; discriminate.
Defined.

(** X21.  The chunk ids of the batches of a run are a subsequence of the
    chunk ids in the order of [prioritizeChunks], so the batches come by
    falling importance and no chunk gives two batches; and every generating
    event is yielded below the card limit, with the number of all chunks and
    a position between 1 and that number. *)
Theorem run_follows_priority eng g text options w :
  let sorted := prioritizeChunks (Chunker.chunkDocument text passBounds) in
  let maxC := Chunker.orDefault (options ≫= maxCards) 50 in
  let items := fst (snd (generateCardsMultiPass eng g text options ([], w))) in
  sublist (batchIds items) (List.map Chunker.id sorted) /\
  Forall (inPass3 maxC (length sorted)) items.
Proof.
  intros sorted maxC items. subst items.
  unfold generateCardsMultiPass. unfoldG. simpl.
  destruct (analyzeDocument_total eng g text [planningItem] w) as (plan & w1 & Ha).
  unfold planningItem in Ha. rewrite Ha. simpl.
  fold passBounds. fold sorted. fold maxC.
  assert (H0 : forall p, phase p <> generating -> inPass3 maxC (length sorted) (Progress p)).
  { intros p Hp Hg. contradiction. }
  destruct (createOverview sorted) as [ov|t]; simpl.
  - match goal with |- context [generateLoop eng g ?m plan ov ?n 0 ?cs 0 ?pv ?st] =>
      destruct (generateLoop_shape eng g m plan ov n cs 0 0 pv
                  [planningItem; analyzingItem] w1 ltac:(simpl; lia))
        as (total & new & w2 & Hloop & Hsub & Hnew) end.
    unfold planningItem, analyzingItem in Hloop. rewrite Hloop. simpl.
    split.
    + unfold batchIds in *. simpl. rewrite omap_app. simpl. now rewrite app_nil_r.
    + constructor; [apply H0; discriminate|]. constructor; [apply H0; discriminate|].
      apply Forall_app. split; [exact Hnew|].
      constructor; [apply H0; discriminate|constructor].
  - split; [apply sublist_nil_l|].
    constructor; [apply H0; discriminate|]. constructor; [apply H0; discriminate|constructor].
Qed.

(** X22.  [prioritizeChunks] is a stable sort by falling importance: the
    result is a permutation of the chunks, no chunk comes before a more
    important one, and chunks of equal importance keep their order. *)
Theorem prioritizeChunks_stable_sort chunks :
  Permutation (prioritizeChunks chunks) chunks /\
  StronglySorted moreImportant (prioritizeChunks chunks) /\
  forall q,
    List.filter (fun c => Qeq_bool (Chunker.importance c) q) (prioritizeChunks chunks) =
    List.filter (fun c => Qeq_bool (Chunker.importance c) q) chunks.
Proof.
  unfold prioritizeChunks. induction chunks as [|x rest (IH1 & IH2 & IH3)]; simpl.
  - repeat split; constructor.
  - split; [|split].
    + rewrite insertChunk_perm. now constructor.
    + now apply insertChunk_sorted.
    + intros q. rewrite insertChunk_class. cbn [List.filter]. now rewrite IH3.
Qed.

(** X23.  [createDocumentSummary] is all heading lines of the document, an
    empty line, and the first ten lines that are no headings and have more
    than 50 code units after trimming, each list in the order of the
    document. *)
Theorem summary_headings_and_samples text :
  createDocumentSummary text =
    join_nl (List.filter startsHeading (split_nl text)) ++ [NL; NL] ++
    join_nl (firstn 10 (List.filter sampleLine (split_nl text))).
Proof.
  unfold createDocumentSummary. rewrite summaryLines_spec. reflexivity.
Qed.

End GeneratorFurther.

(** ** Smart card generator *)

Section CardGeneratorFurther.
Import Prompt Router CardGenerator RouterFacts CardGeneratorFacts.

(** X24.  [parseCardResponse] returns only cards that passed [isValidCard],
    with the defaults filled in: type, tags and confidence are truthy, and a
    card that is no cloze has a non-empty front and back; whatever goes
    wrong, it throws a non-retryable parse error. *)
Theorem parse_only_checked_cards response :
  match parseCardResponse response with
  | Ok cards => Forall checkedCard cards
  | Throw t => isParseError t
  end.
Proof.
  unfold parseCardResponse, tryCatch, mbind, result_bind, bindR.
  destruct (Generator.parseJsonAnswer response) as [parsed|t] eqn:Ep.
  - destruct parsed as [| | | | |items|]; simpl;
      try (eexists; repeat split).
    clear Ep. induction items as [|card rest IH]; simpl; [constructor|].
    destruct (isValidCard card) eqn:Ev; [|exact IH].
    destruct (normalize card) as [c|] eqn:En; [|exact IH].
    constructor; [|exact IH]. exact (valid_checked card c Ev En).
  - apply parseJsonAnswer_throws in Ep as [e ->]. simpl. eexists. repeat split.
Qed.

(** X25.  [generateCards] never fails, whatever the router and its providers
    do: a section whose generation fails is skipped, and with a positive
    integer [maxCards] at most that many cards are returned. So
    [batchGenerateCards] never fails either and returns one list of cards
    for each content, in order. *)
Theorem generateCards_never_fails eng g options :
  (forall text w,
     exists cards w',
       generateCards eng g text options w = (Ok cards, w') /\
       match limit options with
       | Some n => if (0 <? n)%Z then (Z.of_nat (length cards) <= n)%Z else True
       | None => True
       end) /\
  (forall contents w,
     exists results w',
       batchGenerateCards eng g contents options w = (Ok results, w') /\
       length results = length contents).
Proof.
  split; [intros text w; apply generateCards_ok|].
  induction contents as [|text rest IH]; intros w; simpl.
  - unfoldM. eauto.
  - unfoldM.
    destruct (generateCards_ok eng g text options w) as (cards & w1 & H & _).
    rewrite H. destruct (IH w1) as (results & w2 & H2 & Hl). rewrite H2.
    eexists. eexists. split; [reflexivity|]. simpl. now rewrite Hl.
Qed.

(** X26.  On a text answer, whatever [parseImprovedCard] throws is a
    non-retryable parse error; and when the answer is no JSON, so that the
    card is read off the lines [Front:] and [Back:], the front and the back
    it returns are trimmed and not empty and there are no improvements. *)
Theorem improved_card_from_text text :
  match parseImprovedCard (JStr text) with
  | Ok card =>
      (exists parsed, Generator.parseJsonAnswer (JStr text) = Ok parsed) \/
      (cleanText (improvedFront card) /\ cleanText (improvedBack card) /\
       improvements card = JUndefined)
  | Throw t => isParseError t
  end.
Proof.
  unfold parseImprovedCard, tryCatch, mbind, result_bind, bindR.
  destruct (Generator.parseJsonAnswer (JStr text)) as [parsed|t0] eqn:Ep.
  - assert (Hfall :
      match (let '(front, back) := readFields (split_nl text) [] [] NoField in
             match front, back with
             | _ :: _, _ :: _ =>
                 Ok {| improvedFront := JStr (trim front);
                       improvedBack := JStr (trim back);
                       improvements := JUndefined |}
             | _, _ => Throw (parseError (lit "Failed to parse improved card response"))
             end) with
      | Ok card =>
          (exists parsed0, Ok parsed = Ok parsed0) \/
          (cleanText (improvedFront card) /\ cleanText (improvedBack card) /\
           improvements card = JUndefined)
      | Throw t => isParseError t
      end).
    { destruct (readFields (split_nl text) [] [] NoField) as [front back].
      destruct front; [eexists; repeat split|]. destruct back; [eexists; repeat split|].
      left. eauto. }
    destruct (get parsed (lit "front")) as [front|]; [|exact Hfall].
    destruct (get parsed (lit "back")) as [back|]; [|exact Hfall].
    destruct (get parsed (lit "improvements")) as [improved|]; [|exact Hfall].
    left. eauto.
  - destruct (readFields_inked (split_nl text) [] [] NoField) as [Hf Hb];
      [now left|now left|].
    destruct (readFields (split_nl text) [] [] NoField) as [front back].
    simpl in Hf, Hb.
    destruct front as [|f fs]; [eexists; repeat split|].
    destruct back as [|b bs]; [eexists; repeat split|].
    right. cbn [improvedFront improvedBack improvements].
    split; [apply clean_trim; [discriminate|exact Hf]|].
    split; [apply clean_trim; [discriminate|exact Hb]|reflexivity].
Qed.

End CardGeneratorFurther.

(** ** Setting the system up *)

Section SystemFurther.
Import Prompt Router RouterFacts RouterMoreFacts ProviderMoreFacts System SystemFacts.

(** X27.  On settings of the shape of the [LLMSettings] interface,
    [createLLMSystem] returns null only when the settings are missing or the
    LLM is disabled; it throws only non-retryable invalid-config errors (a
    provider without endpoint or model, a default or fallback name that is
    not registered); and the router it returns has every name of its attempt
    order registered and throws nothing but [LLMError]s from [generate]. *)
Theorem system_is_sound llmSettings net :
  match createLLMSystem llmSettings net with
  | Ok None =>
      match llmSettings with Some settings => llmEnabled settings = false | None => True end
  | Ok (Some (router, generator)) =>
      CardGenerator.llmRouter generator = router /\
      CardGenerator.promptManager generator = newPromptManager /\
      Forall (fun n => has router n = true) (buildProviderChain router None) /\
      forall messages preferredProvider w t w',
        generate router messages preferredProvider w = (Throw t, w') ->
        exists e, t = ThrownLLM e
  | Throw t => isInvalidConfig t
  end.
Proof.
  assert (Hnew : sound newRouter).
  { split; [constructor|]. split; [reflexivity|]. intros n p H.
    unfold newRouter in H. simpl in H. rewrite lookup_empty in H. discriminate. }
  assert (Hfin : forall router,
    sound router ->
    CardGenerator.llmRouter
      {| CardGenerator.llmRouter := router;
         CardGenerator.promptManager := newPromptManager |} = router /\
    CardGenerator.promptManager
      {| CardGenerator.llmRouter := router;
         CardGenerator.promptManager := newPromptManager |} = newPromptManager /\
    Forall (fun n => has router n = true) (buildProviderChain router None) /\
    forall messages preferredProvider w t w',
      generate router messages preferredProvider w = (Throw t, w') ->
      exists e, t = ThrownLLM e).
  { intros router (Hb & Hr & Hp). split; [reflexivity|]. split; [reflexivity|].
    split; [now apply chain_registered|].
    intros messages preferredProvider w t w'.
    apply generate_throws_llm; [lia|exact Hp]. }
  unfold createLLMSystem. destruct llmSettings as [settings|]; [|exact I].
  destruct (llmEnabled settings) eqn:Ee; cbn [negb]; [|reflexivity].
  unfold mbind, result_bind, bindR.
  destruct (providers settings) as [[|entry entries]|]; [now apply Hfin| |now apply Hfin].
  pose proof (addProviders_sound settings net (entry :: entries) newRouter Hnew) as Ha.
  destruct (addProviders settings net (entry :: entries) newRouter) as [r1|t]; [|exact Ha].
  assert (Hd : match (match given (defaultProvider settings) with
                      | Some d => setDefaultProvider d r1
                      | None => Ok r1
                      end) with
               | Ok r' => sound r'
               | Throw t => isInvalidConfig t
               end).
  { destruct (given (defaultProvider settings)) as [d|]; [|exact Ha].
    now apply setDefaultProvider_sound. }
  destruct (match given (defaultProvider settings) with
            | Some d => setDefaultProvider d r1
            | None => Ok r1
            end) as [r2|t]; [|exact Hd].
  destruct (fallbackChain settings) as [[|f fs]|]; [now apply Hfin| |now apply Hfin].
  pose proof (setFallbackChain_sound (f :: fs) r2 Hd) as Hf.
  destruct (setFallbackChain (f :: fs) r2) as [r3|t]; [now apply Hfin|exact Hf].
Qed.

End SystemFurther.

(** ** Content analyzer *)

Section AnalyzerFurther.
Import Analyzer AnalyzerFacts.

(** X28.  Every section of [extractSections] has a first and a last line
    with 1 <= lineStart <= lineEnd <= number of lines, and each section ends
    before the next one starts. *)
Theorem sections_line_ranges markdown :
  Forall (spanned (length (split_nl markdown))) (extractSections markdown) /\
  StronglySorted above (extractSections markdown).
Proof.
  destruct (extractSections_inv markdown) as (H1 & H2 & _). now split.
Qed.

(** X29.  In the result of [analyzeMarkdown] the two counts are the lengths
    of the two lists; lists, quotes and tables have the fixed scores 0.8,
    0.7 and 0.75 and are always candidates, code blocks have 0.4 and never
    are, and a heading or paragraph is a candidate exactly when its score is
    at least 0.6. *)
Theorem candidates_by_type markdown :
  let result := analyzeMarkdown markdown in
  Forall scoredByType (sections result) /\
  totalSections result = length (sections result) /\
  highPotentialCount result = length (candidateSections result) /\
  highPotentialCount result <= totalSections result /\
  forall s, In s (sections result) ->
    match type s with
    | TList | TQuote | TTable => In s (candidateSections result)
    | TCode => ~ In s (candidateSections result)
    | THeading | TParagraph =>
        In s (candidateSections result) <-> (6 # 10 <= cardPotential s)%Q
    end.
Proof.
  intros result. subst result. unfold analyzeMarkdown.
  cbn [sections candidateSections totalSections highPotentialCount].
  destruct (extractSections_inv markdown) as (_ & _ & H3).
  split; [exact H3|]. split; [reflexivity|]. split; [reflexivity|].
  split; [apply List.filter_length_le|].
  intros s Hs. rewrite List.Forall_forall in H3. pose proof (H3 s Hs) as Hsc.
  unfold selectCandidateSections, HIGH_POTENTIAL_THRESHOLD. unfold scoredByType in Hsc.
  destruct (type s).
  - rewrite filter_In, Qle_bool_iff. tauto.
  - rewrite filter_In, Qle_bool_iff. tauto.
  - apply filter_In. split; [exact Hs|]. now rewrite Hsc.
  - rewrite filter_In. rewrite Hsc. intros [_ H]. discriminate.
  - apply filter_In. split; [exact Hs|]. now rewrite Hsc.
  - apply filter_In. split; [exact Hs|]. now rewrite Hsc.
Qed.

(** X30.  [groupRelatedSections] cuts the list of sections into groups: the
    groups in order give back the list, no group is empty, and a heading is
    always the first section of its group. *)
Theorem groups_partition sections :
  concat (groupRelatedSections sections) = sections /\
  Forall (fun g => g <> []) (groupRelatedSections sections) /\
  Forall headingFirst (groupRelatedSections sections).
Proof.
  unfold groupRelatedSections.
  destruct (groupLoop_concat sections [] [] []) as [H1 H2].
  split; [exact H1|]. split; [apply H2; constructor|].
  apply groupLoop_headingFirst; constructor.
Qed.

End AnalyzerFurther.

End Further.
